(** * ensimu.space: the real-time message protocol and its channel

    A shallow embedding of the WebSocket protocol utilities
    ([frontend/src/utils/websocketUtils.ts]), of the connection hook
    ([frontend/src/hooks/useWebSocket.ts]), of the parameter construction
    and the state updates of [frontend/src/hooks/useWorkflow.ts] and of
    the updates of [useSimulationState], together with the facts the
    specification states about them.

    The first part holds the definitions, module by module, in the order of
    their dependencies; the second part holds the lemmas; the third part
    the theorems for the claims of the specification; the fourth part
    further properties of the code. *)

From Stdlib Require Import ZArith String Ascii List Bool Lia.
From Stdlib Require Import Decimal DecimalString DecimalZ DecimalFacts.
From stdpp Require Import base option strings gmap.
Import ListNotations.
Open Scope string_scope.
#[local] Arguments String.append !s1 s2 : simpl nomatch.

(* ===================================================================== *)
(** * Part I: definitions *)
(* ===================================================================== *)

(** ** JavaScript values

    The values that travel through the protocol code: what [JSON.parse]
    can return, plus [undefined], which the message builders produce for
    omitted optional arguments.

    - Numbers are modelled by [Z]: the protocol code never computes with
      the numbers it carries, and fractional or exponent forms are outside
      this model.
    - Strings are Rocq strings, one [ascii] per code unit (code units above
      255 are outside the model).
    - An object is the list of its own properties in enumeration order; a
      JavaScript object never has two properties of the same name, see
      [Js.wf]. *)
Module Js.

#[local] Unset Elimination Schemes.
Inductive JsVal : Type :=
| JUndefined : JsVal
| JNull : JsVal
| JBool (b : bool) : JsVal
| JNum (n : Z) : JsVal
| JStr (s : string) : JsVal
| JArr (items : list JsVal) : JsVal
| JObj (props : list (string * JsVal)) : JsVal.
#[local] Set Elimination Schemes.

(** Errors a call can throw. *)
Inductive JsError : Type :=
| SyntaxError
| TypeError
| RangeError
| InvalidStateError
| Error (msg : string).

(** The outcome of evaluating an expression or a call: it returns a value
    or throws. *)
Inductive Completion (A : Type) : Type :=
| Normal (a : A)
| Throw (e : JsError).
Arguments Normal {A} a.
Arguments Throw {A} e.

(** [typeof v] *)
Definition typeof (v : JsVal) : string :=
  match v with
  | JUndefined => "undefined"
  | JNull => "object"
  | JBool _ => "boolean"
  | JNum _ => "number"
  | JStr _ => "string"
  | JArr _ => "object"
  | JObj _ => "object"
  end.

(** ToBoolean: [undefined], [null], [false], [0] and the empty string are
    falsy, everything else is truthy. *)
Definition truthy (v : JsVal) : bool :=
  match v with
  | JUndefined => false
  | JNull => false
  | JBool b => b
  | JNum n => negb (Z.eqb n 0)
  | JStr s => negb (String.eqb s "")
  | JArr _ => true
  | JObj _ => true
  end.

(** Own-property lookup in a property list. *)
Fixpoint lookup (k : string) (props : list (string * JsVal)) : option JsVal :=
  match props with
  | [] => None
  | (k', v) :: rest => if String.eqb k k' then Some v else lookup k rest
  end.

(** The decimal text of a non-negative index. *)
Definition index_key (i : nat) : string :=
  NilZero.string_of_uint (Nat.to_uint i).

Fixpoint array_index (k : string) (i : nat) (items : list JsVal) : JsVal :=
  match items with
  | [] => JUndefined
  | x :: rest => if String.eqb k (index_key i) then x else array_index k (S i) rest
  end.

(** [v.k] for a value that is neither [undefined] nor [null]: an own
    property of an object, an element or the length of an array or a
    string, and [undefined] otherwise.  (Properties inherited from the
    built-in prototypes, such as [constructor], are not modelled; the
    protocol code reads none of them.) *)
Definition get_own (v : JsVal) (k : string) : JsVal :=
  match v with
  | JObj props => match lookup k props with Some x => x | None => JUndefined end
  | JArr items =>
      if String.eqb k "length" then JNum (Z.of_nat (List.length items))
      else array_index k 0 items
  | JStr s =>
      if String.eqb k "length" then JNum (Z.of_nat (String.length s))
      else array_index k 0 (List.map (fun c => JStr (String c "")) (list_ascii_of_string s))
  | _ => JUndefined
  end.

(** [v.k]: reading a property of [undefined] or [null] throws a
    TypeError. *)
Definition get (v : JsVal) (k : string) : Completion JsVal :=
  match v with
  | JUndefined | JNull => Throw TypeError
  | _ => Normal (get_own v k)
  end.

(** [obj[k] = x] on a property list: an existing property keeps its place
    and takes the new value, a new one goes to the end. *)
Fixpoint set_prop (props : list (string * JsVal)) (k : string) (x : JsVal)
  : list (string * JsVal) :=
  match props with
  | [] => [(k, x)]
  | (k', v) :: rest =>
      if String.eqb k k' then (k', x) :: rest else (k', v) :: set_prop rest k x
  end.

(** Well-formed values: no object has two properties of one name. *)
Fixpoint wf (v : JsVal) : Prop :=
  match v with
  | JArr items => (fix all (l : list JsVal) : Prop :=
                     match l with [] => True | x :: r => wf x /\ all r end) items
  | JObj props => NoDup (List.map fst props) /\
                  (fix all (l : list (string * JsVal)) : Prop :=
                     match l with [] => True | (_, x) :: r => wf x /\ all r end) props
  | _ => True
  end.

(** Induction on values, with the hypothesis for every element of an
    array and every property of an object. *)
Section JsVal_induction.
Variable P : JsVal -> Prop.
Hypothesis case_undefined : P JUndefined.
Hypothesis case_null : P JNull.
Hypothesis case_bool : forall b, P (JBool b).
Hypothesis case_num : forall n, P (JNum n).
Hypothesis case_str : forall s, P (JStr s).
Hypothesis case_arr : forall items, Forall P items -> P (JArr items).
Hypothesis case_obj :
  forall props, Forall (fun kv => P (snd kv)) props -> P (JObj props).

Fixpoint JsVal_nested_ind (v : JsVal) : P v :=
  match v with
  | JUndefined => case_undefined
  | JNull => case_null
  | JBool b => case_bool b
  | JNum n => case_num n
  | JStr s => case_str s
  | JArr items =>
      case_arr items
        ((fix go (l : list JsVal) : Forall P l :=
            match l with
            | [] => @List.Forall_nil _ P
            | x :: r => @List.Forall_cons _ P x r (JsVal_nested_ind x) (go r)
            end) items)
  | JObj props =>
      case_obj props
        ((fix go (l : list (string * JsVal)) : Forall (fun kv => P (snd kv)) l :=
            match l with
            | [] => @List.Forall_nil _ _
            | kv :: r => @List.Forall_cons _ (fun kv => P (snd kv)) kv r (JsVal_nested_ind (snd kv)) (go r)
            end) props)
  end.
End JsVal_induction.

End Js.
Export Js.

(** ** JSON text

    [JSON.stringify] and [JSON.parse] of the platform, for the values of
    [Js]: the compact output of [JSON.stringify], and a parser of the JSON
    grammar (white space between tokens, the escapes of string literals,
    duplicate member names resolved as assignments in order). *)
Module Json.

(** *** JSON.stringify *)

(** The double quote character. *)
Definition dquote : ascii := ascii_of_N 34.

Definition hex_digit (n : N) : ascii :=
  if (n <? 10)%N then ascii_of_N (48 + n) else ascii_of_N (87 + n).

(** QuoteJSONString on one code unit: the two-character escapes, the
    [\u00XX] form for the other control characters, the character itself
    otherwise. *)
Definition escape_char (c : ascii) : string :=
  let n := N_of_ascii c in
  if (n =? 34)%N then String "\" (String dquote "")
  else if (n =? 92)%N then "\\"
  else if (n =? 8)%N then "\b"
  else if (n =? 12)%N then "\f"
  else if (n =? 10)%N then "\n"
  else if (n =? 13)%N then "\r"
  else if (n =? 9)%N then "\t"
  else if (n <? 32)%N then
    String "\" (String "u" (String "0" (String "0"
      (String (hex_digit (n / 16)) (String (hex_digit (n mod 16)) "")))))
  else String c "".

Fixpoint escape (s : string) : string :=
  match s with
  | "" => ""
  | String c r => escape_char c ++ escape r
  end.

Definition quote (s : string) : string :=
  String dquote (escape s ++ String dquote "").

(** Number::toString on an integer. *)
Definition number_text (n : Z) : string := NilZero.string_of_int (Z.to_int n).

Fixpoint join (sep : string) (l : list string) : string :=
  match l with
  | [] => ""
  | [x] => x
  | x :: r => x ++ sep ++ join sep r
  end.

(** SerializeJSONProperty: [None] stands for the result [undefined].  An
    [undefined] array element is written [null]; an [undefined] property
    is left out. *)
Fixpoint stringify (v : JsVal) : option string :=
  match v with
  | JUndefined => None
  | JNull => Some "null"
  | JBool true => Some "true"
  | JBool false => Some "false"
  | JNum n => Some (number_text n)
  | JStr s => Some (quote s)
  | JArr items =>
      Some ("[" ++ join ","
              (List.map (fun x => match stringify x with
                                  | Some t => t
                                  | None => "null"
                                  end) items) ++ "]")
  | JObj props =>
      Some ("{" ++ join ","
              ((fix members (l : list (string * JsVal)) : list string :=
                  match l with
                  | [] => []
                  | (k, x) :: r =>
                      match stringify x with
                      | Some t => (quote k ++ ":" ++ t) :: members r
                      | None => members r
                      end
                  end) props) ++ "}")
  end.

(** *** JSON.parse *)

Definition is_ws (c : ascii) : bool :=
  let n := N_of_ascii c in
  ((n =? 32) || (n =? 9) || (n =? 10) || (n =? 13))%N.

Fixpoint skip_ws (s : string) : string :=
  match s with
  | String c r => if is_ws c then skip_ws r else s
  | "" => ""
  end.

Definition hex_value (c : ascii) : option N :=
  let n := N_of_ascii c in
  if ((48 <=? n) && (n <=? 57))%N then Some (n - 48)%N
  else if ((97 <=? n) && (n <=? 102))%N then Some (n - 87)%N
  else if ((65 <=? n) && (n <=? 70))%N then Some (n - 55)%N
  else None.

(** The code unit of [\uXXXX]; values above 255 are outside the model. *)
Definition unicode_escape (h1 h2 h3 h4 : ascii) : option ascii :=
  match hex_value h1, hex_value h2, hex_value h3, hex_value h4 with
  | Some a, Some b, Some c, Some d =>
      if ((a =? 0) && (b =? 0))%N then Some (ascii_of_N (16 * c + d)) else None
  | _, _, _, _ => None
  end.

Definition simple_escape (e : ascii) : option ascii :=
  let n := N_of_ascii e in
  if (n =? 34)%N then Some e
  else if (n =? 92)%N then Some e
  else if (n =? 47)%N then Some e
  else if (n =? 98)%N then Some (ascii_of_N 8)
  else if (n =? 102)%N then Some (ascii_of_N 12)
  else if (n =? 110)%N then Some (ascii_of_N 10)
  else if (n =? 114)%N then Some (ascii_of_N 13)
  else if (n =? 116)%N then Some (ascii_of_N 9)
  else None.

Definition with_char (c : ascii) (r : option (string * string))
  : option (string * string) :=
  match r with
  | Some (t, rest) => Some (String c t, rest)
  | None => None
  end.

(** The characters of a string literal after its opening quote, up to and
    including the closing quote. *)
Fixpoint parse_chars (s : string) : option (string * string) :=
  match s with
  | "" => None
  | String c r =>
      let n := N_of_ascii c in
      if (n =? 34)%N then Some ("", r)
      else if (n =? 92)%N then
        match r with
        | String e r1 =>
            if (N_of_ascii e =? 117)%N then
              match r1 with
              | String h1 (String h2 (String h3 (String h4 r2))) =>
                  match unicode_escape h1 h2 h3 h4 with
                  | Some u => with_char u (parse_chars r2)
                  | None => None
                  end
              | _ => None
              end
            else
              match simple_escape e with
              | Some u => with_char u (parse_chars r1)
              | None => None
              end
        | "" => None
        end
      else if (n <? 32)%N then None
      else with_char c (parse_chars r)
  end.

Definition digit_of (c : ascii) : option (uint -> uint) :=
  let n := N_of_ascii c in
  if (n =? 48)%N then Some D0 else if (n =? 49)%N then Some D1
  else if (n =? 50)%N then Some D2 else if (n =? 51)%N then Some D3
  else if (n =? 52)%N then Some D4 else if (n =? 53)%N then Some D5
  else if (n =? 54)%N then Some D6 else if (n =? 55)%N then Some D7
  else if (n =? 56)%N then Some D8 else if (n =? 57)%N then Some D9
  else None.

Fixpoint scan_digits (s : string) : uint * string :=
  match s with
  | "" => (Nil, "")
  | String c r =>
      match digit_of c with
      | Some d => let (u, rest) := scan_digits r in (d u, rest)
      | None => (Nil, s)
      end
  end.

(** What may not follow the integer part in this model: a fraction or an
    exponent. *)
Definition starts_fraction (s : string) : bool :=
  match s with
  | String c _ =>
      let n := N_of_ascii c in ((n =? 46) || (n =? 101) || (n =? 69))%N
  | "" => false
  end.

(** An integer literal: at least one digit, no leading zero. *)
Definition parse_digits (negative : bool) (s : string) : option (JsVal * string) :=
  let (u, rest) := scan_digits s in
  if uint_eq_dec (unorm u) u then
    if starts_fraction rest then None
    else Some (JNum (Z.of_int (if negative then Neg u else Pos u)), rest)
  else None.

Definition parse_number (s : string) : option (JsVal * string) :=
  match s with
  | String c r => if (N_of_ascii c =? 45)%N then parse_digits true r
                  else parse_digits false s
  | "" => None
  end.

(** [s] without the prefix [word], when it has that prefix. *)
Fixpoint strip_prefix (word s : string) : option string :=
  match word with
  | "" => Some s
  | String c w =>
      match s with
      | String d r => if Ascii.eqb c d then strip_prefix w r else None
      | "" => None
      end
  end.

Definition expect (word : string) (v : JsVal) (s : string) : option (JsVal * string) :=
  match strip_prefix word s with
  | Some r => Some (v, r)
  | None => None
  end.

(** Recursive descent, with a bound on the number of nested calls. *)
Fixpoint parse_value (fuel : nat) (s : string) : option (JsVal * string) :=
  match fuel with
  | O => None
  | S fuel =>
      match skip_ws s with
      | "" => None
      | String c r as s' =>
          let n := N_of_ascii c in
          if (n =? 110)%N then expect "ull" JNull r
          else if (n =? 116)%N then expect "rue" (JBool true) r
          else if (n =? 102)%N then expect "alse" (JBool false) r
          else if (n =? 34)%N then
            match parse_chars r with
            | Some (t, rest) => Some (JStr t, rest)
            | None => None
            end
          else if (n =? 91)%N then
            match skip_ws r with
            | String c1 r1 as body =>
                if (N_of_ascii c1 =? 93)%N then Some (JArr [], r1)
                else match parse_elements fuel body with
                     | Some (items, rest) => Some (JArr items, rest)
                     | None => None
                     end
            | "" => None
            end
          else if (n =? 123)%N then
            match skip_ws r with
            | String c1 r1 as body =>
                if (N_of_ascii c1 =? 125)%N then Some (JObj [], r1)
                else match parse_members fuel body with
                     | Some (members, rest) =>
                         Some (JObj (fold_left (fun acc kv => set_prop acc (fst kv) (snd kv))
                                               members []), rest)
                     | None => None
                     end
            | "" => None
            end
          else parse_number s'
      end
  end
with parse_elements (fuel : nat) (s : string) : option (list JsVal * string) :=
  match fuel with
  | O => None
  | S fuel =>
      match parse_value fuel s with
      | Some (v, r) =>
          match skip_ws r with
          | String c r1 =>
              if (N_of_ascii c =? 44)%N then
                match parse_elements fuel r1 with
                | Some (vs, rest) => Some (v :: vs, rest)
                | None => None
                end
              else if (N_of_ascii c =? 93)%N then Some ([v], r1)
              else None
          | "" => None
          end
      | None => None
      end
  end
with parse_members (fuel : nat) (s : string)
  : option (list (string * JsVal) * string) :=
  match fuel with
  | O => None
  | S fuel =>
      match skip_ws s with
      | String q r =>
          if (N_of_ascii q =? 34)%N then
            match parse_chars r with
            | Some (k, r1) =>
                match skip_ws r1 with
                | String colon r2 =>
                    if (N_of_ascii colon =? 58)%N then
                      match parse_value fuel r2 with
                      | Some (v, r3) =>
                          match skip_ws r3 with
                          | String c r4 =>
                              if (N_of_ascii c =? 44)%N then
                                match parse_members fuel r4 with
                                | Some (ms, rest) => Some ((k, v) :: ms, rest)
                                | None => None
                                end
                              else if (N_of_ascii c =? 125)%N then Some ([(k, v)], r4)
                              else None
                          | "" => None
                          end
                      | None => None
                      end
                    else None
                | "" => None
                end
            | None => None
            end
          else None
      | "" => None
      end
  end.

(** [JSON.parse text]: one value, then nothing but white space.  A text
    that is not JSON throws a SyntaxError. *)
Definition parse (text : string) : Completion JsVal :=
  match parse_value (2 * String.length text + 2) text with
  | Some (v, rest) =>
      match skip_ws rest with
      | "" => Normal v
      | _ => Throw SyntaxError
      end
  | None => Throw SyntaxError
  end.

(** Values that [JSON.stringify] writes in full: no [undefined] anywhere
    (at the top it has no text, in an object the property is dropped, in
    an array it becomes [null]). *)
Fixpoint serializable (v : JsVal) : Prop :=
  match v with
  | JUndefined => False
  | JArr items => (fix all (l : list JsVal) : Prop :=
                     match l with [] => True | x :: r => serializable x /\ all r end) items
  | JObj props => (fix all (l : list (string * JsVal)) : Prop :=
                     match l with [] => True | (_, x) :: r => serializable x /\ all r end) props
  | _ => True
  end.

(** *** Notions for the facts about the two functions *)

(** What can follow a value inside a text: the end, or one of [,] []] [}]. *)
Definition boundary (s : string) : bool :=
  match s with
  | "" => true
  | String c _ =>
      let n := N_of_ascii c in ((n =? 44) || (n =? 93) || (n =? 125))%N
  end.

(** The first character of a text of [stringify]: not white space, and
    not a closing bracket. *)
Definition opens_value (s : string) : Prop :=
  match s with
  | "" => False
  | String c _ => is_ws c = false /\ (N_of_ascii c =? 93)%N = false
                  /\ (N_of_ascii c =? 125)%N = false
  end.

Definition element_text (x : JsVal) : string :=
  match stringify x with Some t => t | None => "null" end.

Fixpoint member_texts (l : list (string * JsVal)) : list string :=
  match l with
  | [] => []
  | (k, x) :: r =>
      match stringify x with
      | Some t => (quote k ++ ":" ++ t) :: member_texts r
      | None => member_texts r
      end
  end.


(** A serializable, well-formed value is read back from its text, whatever
    follows it, when the bound on nesting allows for twice the length of
    the text. *)
Definition reads_back (v : JsVal) : Prop :=
  serializable v -> wf v ->
  forall t, stringify v = Some t ->
  forall fuel rest, 2 * String.length t <= fuel -> boundary rest = true ->
  parse_value fuel (t ++ rest) = Some (v, rest).

(** What reading a text of [v] cut short may give: nothing, or, when [v]
    is a number, a shorter number with nothing left over. *)
Definition cut_result (v : JsVal) (r : option (JsVal * string)) : Prop :=
  match r with
  | None => True
  | Some (w, rest) => rest = "" /\ (exists n, v = JNum n) /\ (exists m, w = JNum m)
  end.

(** Every proper prefix of the text of [v] is read so. *)
Definition cuts (v : JsVal) : Prop :=
  serializable v -> wf v ->
  forall t, stringify v = Some t ->
  forall p q, q <> "" -> p ++ q = t ->
  forall fuel, cut_result v (parse_value fuel p).

End Json.


(** ** Computations with effects

    A call runs in a state, returns or throws, and leaves a state. *)
Module Effects.

Definition cbind {A B : Type} (c : Completion A) (k : A -> Completion B)
  : Completion B :=
  match c with
  | Normal a => k a
  | Throw e => Throw e
  end.

Definition Eff (S A : Type) : Type := S -> Completion A * S.

Definition ret {S A : Type} (a : A) : Eff S A := fun s => (Normal a, s).

Definition bind {S A B : Type} (c : Eff S A) (k : A -> Eff S B) : Eff S B :=
  fun s => match c s with
           | (Normal a, s') => k a s'
           | (Throw e, s') => (Throw e, s')
           end.

(** A computation without effect on the state. *)
Definition lift {S A : Type} (c : Completion A) : Eff S A := fun s => (c, s).

Definition throw {S A : Type} (e : JsError) : Eff S A := fun s => (Throw e, s).

Definition gets {S A : Type} (f : S -> A) : Eff S A := fun s => (Normal (f s), s).

Definition modify {S : Type} (f : S -> S) : Eff S unit := fun s => (Normal tt, f s).

(** [try { body } catch (e) { handler e }]: the effects of the body up to
    the throw are kept. *)
Definition try_catch {S A : Type} (body : Eff S A) (handler : JsError -> Eff S A)
  : Eff S A :=
  fun s => match body s with
           | (Normal a, s') => (Normal a, s')
           | (Throw e, s') => handler e s'
           end.

(** Running a computation on a part of the state. *)
Definition zoom {S T A : Type} (proj : S -> T) (inj : T -> S -> S) (c : Eff T A)
  : Eff S A :=
  fun s => let (r, t') := c (proj s) in (r, inj t' s).

End Effects.
Export Effects.

Notation "'let?' x ':=' c 'in' k" := (cbind c (fun x => k))
  (at level 10, x name, c at level 100, k at level 200).
Notation "'let!' x ':=' c 'in' k" := (bind c (fun x => k))
  (at level 10, x name, c at level 100, k at level 200).
Notation "c1 ';;' c2" := (bind c1 (fun _ => c2))
  (at level 100, c2 at level 200, right associativity).

(** JSON text is written below with apostrophes in the place of double
    quotes; [dq] puts the double quotes back. *)
Fixpoint dq (s : string) : string :=
  match s with
  | "" => ""
  | String c r => String (if (N_of_ascii c =? 39)%N then Json.dquote else c) (dq r)
  end.

(** ** The platform: clock, random numbers, console, dates, URLs *)
Module Platform.
#[local] Open Scope Z_scope.

(** What the utilities see of the page.  [now] is the clock in
    milliseconds since the epoch; a synchronous call runs within one
    reading of it.  [random_text i] is the text of the [i]-th draw,
    [Math.random().toString(36)], and [draws] counts the draws made. *)
Record World : Type := {
  now : Z;
  random_text : nat -> string;
  draws : nat;
  console : list string
}.

Definition Date_now : Eff World Z := gets now.

(** The world after one more draw. *)
Definition drawn (w : World) : World :=
  {| now := now w; random_text := random_text w; draws := S (draws w);
     console := console w |}.

Definition Math_random_toString36 : Eff World string :=
  fun w => (Normal (random_text w (draws w)), drawn w).

(** The world after one more line on the console. *)
Definition log (label : string) (w : World) : World :=
  {| now := now w; random_text := random_text w; draws := draws w;
     console := (console w ++ [label])%list |}.

(** [console.error(label, ...)] and [console.warn(label, ...)]: the label
    is kept. *)
Definition console_log (label : string) : Eff World unit := modify (log label).

(** A world for the examples: 2025-08-18T02:06:24.806Z on the clock,
    nothing on the console, and the same text at every draw. *)
Definition example_world : World :=
  {| now := 1755482784806; random_text := fun _ => "0.4fzyo82mvyr";
     draws := 0; console := [] |}.

(** *** Date.prototype.toISOString *)

Definition digit_char (d : Z) : ascii := ascii_of_N (48 + Z.to_N (d mod 10)).

Definition pad2 (n : Z) : string :=
  String (digit_char (n / 10)) (String (digit_char n) "").
Definition pad3 (n : Z) : string := String (digit_char (n / 100)) (pad2 n).
Definition pad4 (n : Z) : string := String (digit_char (n / 1000)) (pad3 n).
Definition pad6 (n : Z) : string :=
  String (digit_char (n / 100000)) (String (digit_char (n / 10000)) (pad4 n)).

(** Year, month and day of a day number counted from 1970-01-01, in the
    proleptic Gregorian calendar. *)
Definition civil_from_days (days : Z) : Z * Z * Z :=
  let z := days + 719468 in
  let era := z / 146097 in
  let doe := z - era * 146097 in
  let yoe := (doe - doe / 1460 + doe / 36524 - doe / 146096) / 365 in
  let doy := doe - (365 * yoe + yoe / 4 - yoe / 100) in
  let mp := (5 * doy + 2) / 153 in
  let d := doy - (153 * mp + 2) / 5 + 1 in
  let m := if mp <? 10 then mp + 3 else mp - 9 in
  let y := yoe + era * 400 + (if m <=? 2 then 1 else 0) in
  (y, m, d).

Definition year_text (y : Z) : string :=
  if (0 <=? y) && (y <=? 9999) then pad4 y
  else (if y <? 0 then "-" else "+") ++ pad6 (Z.abs y).

(** The text of a time value: [YYYY-MM-DDTHH:mm:ss.sssZ]. *)
Definition toISOString (ms : Z) : string :=
  let '(y, m, d) := civil_from_days (ms / 86400000) in
  let t := ms mod 86400000 in
  year_text y ++ "-" ++ pad2 m ++ "-" ++ pad2 d ++ "T" ++
  pad2 (t / 3600000) ++ ":" ++ pad2 (t / 60000 mod 60) ++ ":" ++
  pad2 (t / 1000 mod 60) ++ "." ++ pad3 (t mod 1000) ++ "Z".

(** [new Date().toISOString()] *)
Definition Date_new_toISOString : Eff World string :=
  let! t := Date_now in ret (toISOString t).

Definition is_digit (c : ascii) : bool :=
  let n := N_of_ascii c in ((48 <=? n) && (n <=? 57))%N.

(** The pattern of the protocol tests for a timestamp:
    four digits, [-], two, [-], two, [T], two, [:], two, [:], two, [.],
    three digits, [Z]. *)
Fixpoint matches (pattern : list (option ascii)) (s : string) : bool :=
  match pattern, s with
  | [], "" => true
  | None :: p, String c r => is_digit c && matches p r
  | Some x :: p, String c r => Ascii.eqb x c && matches p r
  | _, _ => false
  end.

Definition iso8601_pattern : list (option ascii) :=
  let D := @None ascii in
  let L (c : ascii) := Some c in
  [D; D; D; D; L "-"; D; D; L "-"; D; D; L "T"; D; D; L ":"; D; D; L ":";
   D; D; L "."; D; D; D; L "Z"]%char.

Definition is_iso8601 (s : string) : bool := matches iso8601_pattern s.

(** *** String.prototype.substr *)
Definition substr (start len : nat) (s : string) : string :=
  String.substring start len s.

(** *** URL and URLSearchParams *)

Fixpoint find_from (sep : string) (s : string) (i : nat) : option nat :=
  match s with
  | "" => if String.prefix sep "" then Some i else None
  | String _ r => if String.prefix sep s then Some i else find_from sep r (S i)
  end.

Fixpoint take_authority (s : string) : string :=
  match s with
  | "" => ""
  | String c r =>
      let n := N_of_ascii c in
      if ((n =? 47) || (n =? 63) || (n =? 35))%N then "" else String c (take_authority r)
  end.

(** The origin of a base URL, [scheme://authority]; [None] when the text
    is not a hierarchical URL, in which case [new URL(path, base)] throws
    a TypeError. *)
Definition url_origin (base : string) : option string :=
  match find_from "://" base 0 with
  | Some i =>
      let scheme := String.substring 0 i base in
      let rest := String.substring (i + 3)%nat (String.length base - (i + 3))%nat base in
      let authority := take_authority rest in
      if String.eqb scheme "" || String.eqb authority "" then None
      else Some (scheme ++ "://" ++ authority)
  | None => None
  end.

(** A URL under construction: origin, path and the list of its query
    parameters. *)
Record URL : Type := {
  origin : string;
  pathname : string;
  searchParams : list (string * string)
}.

(** [new URL(path, base)] for an absolute path. *)
Definition URL_new (path base : string) : Completion URL :=
  match url_origin base with
  | Some o => Normal {| origin := o; pathname := path; searchParams := [] |}
  | None => Throw TypeError
  end.

(** [searchParams.set(name, value)]: the first parameter of that name
    takes the value and the others of that name go; a new name is
    appended. *)
Fixpoint drop_name (name : string) (l : list (string * string)) : list (string * string) :=
  match l with
  | [] => []
  | (k, v) :: r => if String.eqb k name then drop_name name r else (k, v) :: drop_name name r
  end.

Fixpoint params_set (l : list (string * string)) (name value : string)
  : list (string * string) :=
  match l with
  | [] => [(name, value)]
  | (k, v) :: r =>
      if String.eqb k name then (k, value) :: drop_name name r
      else (k, v) :: params_set r name value
  end.

Definition searchParams_set (u : URL) (name value : string) : URL :=
  {| origin := origin u; pathname := pathname u;
     searchParams := params_set (searchParams u) name value |}.

Definition upper_hex (n : N) : ascii :=
  if (n <? 10)%N then ascii_of_N (48 + n) else ascii_of_N (55 + n).

Definition percent (n : N) : string :=
  String "%" (String (upper_hex (n / 16)) (String (upper_hex (n mod 16)) "")).

(** application/x-www-form-urlencoded: letters, digits and [*-._] stay, a
    space becomes [+], every other byte of the UTF-8 form is
    percent-encoded. *)
Definition form_encode_char (c : ascii) : string :=
  let n := N_of_ascii c in
  if ((48 <=? n) && (n <=? 57) || (65 <=? n) && (n <=? 90) || (97 <=? n) && (n <=? 122)
      || (n =? 42) || (n =? 45) || (n =? 46) || (n =? 95))%N then String c ""
  else if (n =? 32)%N then "+"
  else if (n <? 128)%N then percent n
  else percent (192 + n / 64) ++ percent (128 + n mod 64).

Fixpoint form_encode (s : string) : string :=
  match s with
  | "" => ""
  | String c r => form_encode_char c ++ form_encode r
  end.

Definition query_text (l : list (string * string)) : string :=
  Json.join "&" (List.map (fun kv => form_encode (fst kv) ++ "=" ++ form_encode (snd kv)) l).

(** [url.toString()] *)
Definition URL_toString (u : URL) : string :=
  origin u ++ pathname u ++
  (match searchParams u with [] => "" | l => "?" ++ query_text l end).

(** A text with no underscore in it. *)
Fixpoint no_underscore (s : string) : Prop :=
  match s with
  | "" => True
  | String c r => c <> "_"%char /\ no_underscore r
  end.

(** A second world: two draws that differ after their eleventh
    character. *)
Definition collision_world : World :=
  {| now := 1755482784806;
     random_text := fun i => match i with O => "0.4fzyo82mvyr" | _ => "0.4fzyo82mvzs" end;
     draws := 0; console := [] |}.

End Platform.
Export Platform.

(** ** frontend/src/utils/websocketUtils.ts *)
Module WebsocketUtils.

(** [enum MessageType] *)
Inductive MessageType : Type :=
| CONNECTION_ESTABLISHED | HEARTBEAT | ERROR
| AGENT_STATE_UPDATE | AGENT_ACTION_REQUEST | AGENT_ACTION_RESPONSE
| WORKFLOW_STATUS_UPDATE | WORKFLOW_STEP_COMPLETE | WORKFLOW_ERROR
| HITL_CHECKPOINT_CREATED | HITL_RESPONSE_REQUIRED | HITL_RESPONSE_SUBMITTED
| USER_MESSAGE | PREDICTION_REQUEST | PREDICTION_RESPONSE | STATE_CHANGE.

(** The string each member stands for. *)
Definition MessageType_value (t : MessageType) : string :=
  match t with
  | CONNECTION_ESTABLISHED => "connection_established"
  | HEARTBEAT => "heartbeat"
  | ERROR => "error"
  | AGENT_STATE_UPDATE => "agent_state_update"
  | AGENT_ACTION_REQUEST => "agent_action_request"
  | AGENT_ACTION_RESPONSE => "agent_action_response"
  | WORKFLOW_STATUS_UPDATE => "workflow_status_update"
  | WORKFLOW_STEP_COMPLETE => "workflow_step_complete"
  | WORKFLOW_ERROR => "workflow_error"
  | HITL_CHECKPOINT_CREATED => "hitl_checkpoint_created"
  | HITL_RESPONSE_REQUIRED => "hitl_response_required"
  | HITL_RESPONSE_SUBMITTED => "hitl_response_submitted"
  | USER_MESSAGE => "user_message"
  | PREDICTION_REQUEST => "prediction_request"
  | PREDICTION_RESPONSE => "prediction_response"
  | STATE_CHANGE => "state_change"
  end.

Definition all_MessageTypes : list MessageType :=
  [CONNECTION_ESTABLISHED; HEARTBEAT; ERROR; AGENT_STATE_UPDATE;
   AGENT_ACTION_REQUEST; AGENT_ACTION_RESPONSE; WORKFLOW_STATUS_UPDATE;
   WORKFLOW_STEP_COMPLETE; WORKFLOW_ERROR; HITL_CHECKPOINT_CREATED;
   HITL_RESPONSE_REQUIRED; HITL_RESPONSE_SUBMITTED; USER_MESSAGE;
   PREDICTION_REQUEST; PREDICTION_RESPONSE; STATE_CHANGE].

(** [interface WebSocketConnectionParams]; [workflow_id] is optional. *)
Record WebSocketConnectionParams : Type := {
  user_id : string;
  project_id : string;
  workflow_id : option string
}.

(** [buildWebSocketUrl(baseUrl = 'ws://localhost:8000', params)] *)
Definition buildWebSocketUrl (baseUrl : option string)
    (params : WebSocketConnectionParams) : Completion string :=
  let base := match baseUrl with Some b => b | None => "ws://localhost:8000" end in
  let? wsUrl := URL_new "/ws" base in
  let wsUrl := searchParams_set wsUrl "user_id" (user_id params) in
  let wsUrl := searchParams_set wsUrl "project_id" (project_id params) in
  let wsUrl :=
    match workflow_id params with
    | Some w => if negb (String.eqb w "") then searchParams_set wsUrl "workflow_id" w
                else wsUrl
    | None => wsUrl
    end in
  Normal (URL_toString wsUrl).

(** [createStandardMessage(type, data, messageId?)] *)
Definition createStandardMessage (type : MessageType) (data : JsVal)
    (messageId : option string) : Eff World JsVal :=
  let! timestamp := Date_new_toISOString in
  let! message_id :=
    match messageId with
    | Some m => if negb (String.eqb m "") then ret m
                else let! t := Date_now in
                     let! r := Math_random_toString36 in
                     ret ("msg_" ++ Json.number_text t ++ "_" ++ substr 2 9 r)
    | None => let! t := Date_now in
              let! r := Math_random_toString36 in
              ret ("msg_" ++ Json.number_text t ++ "_" ++ substr 2 9 r)
    end in
  ret (JObj [("type", JStr (MessageType_value type));
             ("data", data);
             ("timestamp", JStr timestamp);
             ("message_id", JStr message_id)]).

(** [validateMessage(message)] *)
Definition validateMessage (message : JsVal) : Completion bool :=
  if negb (String.eqb (typeof message) "object")
     || match message with JNull => true | _ => false end
  then Normal false
  else
    let? type := get message "type" in
    if negb (truthy type) || negb (String.eqb (typeof type) "string")
    then Normal false
    else
      let? data := get message "data" in
      if negb (truthy data) || negb (String.eqb (typeof data) "object")
      then Normal false
      else Normal true.

(** [parseWebSocketMessage(data)]; [None] is [null]. *)
Definition parseWebSocketMessage (data : string) : Eff World (option JsVal) :=
  try_catch
    (let! parsed := lift (Json.parse data) in
     let! ok := lift (validateMessage parsed) in
     if negb ok then
       console_log "Invalid message structure:" ;;
       ret None
     else ret (Some parsed))
    (fun _ =>
       console_log "Failed to parse WebSocket message:" ;;
       ret None).

(** [createHeartbeatMessage()] *)
Definition createHeartbeatMessage : Eff World JsVal :=
  let! client_time := Date_new_toISOString in
  createStandardMessage HEARTBEAT (JObj [("client_time", JStr client_time)]) None.

Definition of_optional (s : option string) : JsVal :=
  match s with
  | Some t => JStr t
  | None => JUndefined
  end.

(** [createHITLResponseMessage(checkpointId, approved, feedback?)] *)
Definition createHITLResponseMessage (checkpointId : string) (approved : bool)
    (feedback : option string) : Eff World JsVal :=
  createStandardMessage HITL_RESPONSE_SUBMITTED
    (JObj [("checkpoint_id", JStr checkpointId);
           ("response_data", JObj [("approved", JBool approved);
                                   ("feedback", of_optional feedback)])])
    None.

(** [createUserMessage(content)] *)
Definition createUserMessage (content : string) : Eff World JsVal :=
  createStandardMessage USER_MESSAGE (JObj [("content", JStr content)]) None.

(** [createPredictionRequestMessage(modelKey, point)] *)
Definition createPredictionRequestMessage (modelKey : string) (point : Z * Z * Z)
  : Eff World JsVal :=
  let '(x, y, z) := point in
  createStandardMessage PREDICTION_REQUEST
    (JObj [("model_key", JStr modelKey); ("point", JArr [JNum x; JNum y; JNum z])])
    None.

(** [createStateChangeMessage(workflowId, statePatch)] *)
Definition createStateChangeMessage (workflowId : string) (statePatch : JsVal)
  : Eff World JsVal :=
  createStandardMessage STATE_CHANGE
    (JObj [("workflow_id", JStr workflowId); ("state_patch", statePatch)])
    None.

(** [v === text] for a string literal. *)
Definition is_string (v : JsVal) (text : string) : bool :=
  match v with
  | JStr s => String.eqb s text
  | _ => false
  end.

(** [isValidationError(message)] *)
Definition isValidationError (message : JsVal) : Completion bool :=
  let? type := get message "type" in
  if is_string type (MessageType_value ERROR) then
    let? data := get message "data" in
    let? error := get data "error" in
    Normal (is_string error "Message validation failed")
  else Normal false.

(** [isHandlerError(message)] *)
Definition isHandlerError (message : JsVal) : Completion bool :=
  let? type := get message "type" in
  if is_string type (MessageType_value ERROR) then
    let? data := get message "data" in
    let? error := get data "error" in
    Normal (is_string error "Handler execution failed")
  else Normal false.

(** The record [extractErrorDetails] returns. *)
Record ErrorDetails : Type := {
  error : JsVal;
  details : JsVal;
  messageType : JsVal
}.

(** Reading a property of the message the call was given: the state of
    the computation is that message. *)
Definition read (path : list string) : Eff JsVal JsVal :=
  fun message =>
    (fold_left (fun acc k => let? v := acc in get v k) path (Normal message), message).

(** [extractErrorDetails(message)] *)
Definition extractErrorDetails : Eff JsVal ErrorDetails :=
  let! type := read ["type"] in
  if negb (is_string type (MessageType_value ERROR)) then
    throw (Error "Message is not an error message")
  else
    let! e := read ["data"; "error"] in
    let! d := read ["data"; "details"] in
    let! mt := read ["data"; "message_type"] in
    ret {| error := if truthy e then e else JStr "Unknown error";
           details := d;
           messageType := mt |}.

(** [enum WebSocketErrorCode] *)
Definition INVALID_PARAMETERS : Z := 1008.
Definition MESSAGE_VALIDATION_FAILED : Z := 1007.
Definition HANDLER_ERROR : Z := 1011.
Definition INTERNAL_ERROR : Z := 1012.

(** *** Notions for the facts about these functions *)

(** What [validateMessage] tests, as one expression. *)
Definition valid_structure (m : JsVal) : bool :=
  match m with
  | JObj _ | JArr _ =>
      match get_own m "type" with
      | JStr t => negb (String.eqb t "")
      | _ => false
      end
      && match get_own m "data" with
         | JObj _ | JArr _ => true
         | _ => false
         end
  | _ => false
  end.

(** The identifier [createStandardMessage] makes up in the world [w]. *)
Definition fresh_id (w : World) : string :=
  "msg_" ++ Json.number_text (now w) ++ "_" ++ substr 2 9 (random_text w (draws w)).

Definition message_id_of (messageId : option string) (w : World) : string :=
  match messageId with
  | Some m => if negb (String.eqb m "") then m else fresh_id w
  | None => fresh_id w
  end.

Definition world_after (messageId : option string) (w : World) : World :=
  match messageId with
  | Some m => if negb (String.eqb m "") then w else drawn w
  | None => drawn w
  end.

Definition standard_message (type : MessageType) (data : JsVal) (timestamp message_id : string)
  : JsVal :=
  JObj [("type", JStr (MessageType_value type)); ("data", data);
        ("timestamp", JStr timestamp); ("message_id", JStr message_id)].

(** The three tests of [validateMessage], each by what makes it fail. *)
Definition not_an_object (v : JsVal) : Prop :=
  match v with
  | JObj _ | JArr _ => False
  | _ => True
  end.

(** The [type] is absent, is no string, or is the empty string. *)
Definition type_refused (v : JsVal) : Prop :=
  match get_own v "type" with
  | JStr t => t = ""
  | _ => True
  end.

(** The [data] is absent, is [null], or is neither an object nor an array. *)
Definition data_refused (v : JsVal) : Prop :=
  match get_own v "data" with
  | JObj _ | JArr _ => False
  | _ => True
  end.

(** *** The decoder in the words of the specification

    The specification has [decode] fail exactly on a text that is not
    structured data, or whose [type] is absent or not a string, or whose
    [data] is absent or not a mapping. *)
Definition field (v : JsVal) (k : string) : option JsVal :=
  match v with
  | JObj props => lookup k props
  | _ => None
  end.

Definition type_is_a_string (v : JsVal) : Prop :=
  exists t, field v "type" = Some (JStr t).

Definition data_is_a_mapping (v : JsVal) : Prop :=
  exists props, field v "data" = Some (JObj props).

Definition spec_decode_fails (s : string) : Prop :=
  (exists e, Json.parse s = Throw e) \/
  (exists v, Json.parse s = Normal v /\ (~ type_is_a_string v \/ ~ data_is_a_mapping v)).

End WebsocketUtils.
Export WebsocketUtils.

(** ** frontend/src/hooks/useWebSocket.ts

    The hook as a state machine over the page: the state and the refs of
    the hook, the sockets it created, and the timers it set.  The page
    delivers the socket events ([onopen], [onmessage], [onclose],
    [onerror]) and fires the timers; the component calls [sendMessage],
    [sendRawMessage], [disconnect] and [reconnect].

    The callbacks are embedded one by one, as written.  The two effects of
    the hook are not: the first calls [connect] on mount and [disconnect]
    on unmount; the second, which calls [reconnect] while connected, lists
    the names [url] and [params] among its dependencies, and the hook
    declares neither. *)
Module UseWebSocket.
#[local] Open Scope Z_scope.

(** [WebSocket.readyState] *)
Inductive ReadyState : Type := CONNECTING | OPEN | CLOSING | CLOSED.

(** A socket: its URL, its state, and the frames handed to [send] while
    it was open, in order. *)
Record WebSocket : Type := {
  url : string;
  readyState : ReadyState;
  sent : list string
}.

(** The functions the hook hands to [setInterval] and [setTimeout]. *)
Inductive Callback : Type := SendHeartbeat | Connect.

Record Timer : Type := {
  timer_id : nat;
  repeating : bool;
  delay : Z;
  due : Z;
  callback : Callback
}.

(** ['connecting' | 'connected' | 'disconnected' | 'error'] *)
Inductive ConnectionState : Type := connecting | connected | disconnected | errored.

Record Stats : Type := {
  messagesSent : Z;
  messagesReceived : Z;
  reconnectAttempts : Z;
  validationErrors : Z;
  handlerErrors : Z;
  lastConnectedAt : option Z;
  lastDisconnectedAt : option Z
}.

(** The calls of the callbacks the component passed in the options. *)
Inductive Notice : Type :=
| onMessage (message : JsVal)
| onConnect
| onDisconnect
| onError
| onValidationError (error details : JsVal).

(** [interface WebSocketOptions], callbacks apart. *)
Record WebSocketOptions : Type := {
  connectionParams : WebSocketConnectionParams;
  baseUrl : option string;
  reconnectInterval : option Z;
  maxReconnectAttempts : option Z;
  heartbeatInterval : option Z
}.

(** The options after the defaults of the destructuring:
    [reconnectInterval = 3000], [maxReconnectAttempts = 5],
    [heartbeatInterval = 30000]. *)
Record Settings : Type := {
  params : WebSocketConnectionParams;
  base : option string;
  reconnect_ms : Z;
  max_attempts : Z;
  heartbeat_ms : Z
}.

Definition settings (options : WebSocketOptions) : Settings :=
  {| params := connectionParams options;
     base := baseUrl options;
     reconnect_ms := default 3000 (reconnectInterval options);
     max_attempts := default 5 (maxReconnectAttempts options);
     heartbeat_ms := default 30000 (heartbeatInterval options) |}.

Record Page : Type := {
  (* the platform *)
  world : World;
  sockets : list WebSocket;
  timers : list Timer;
  next_timer : nat;
  (* useState *)
  isConnected : bool;
  connectionState : ConnectionState;
  lastMessage : option JsVal;
  stats : Stats;
  (* useRef *)
  wsRef : option nat;
  reconnectTimeoutRef : option nat;
  heartbeatTimeoutRef : option nat;
  reconnectAttemptsRef : Z;
  shouldReconnectRef : bool;
  (* the callbacks called so far *)
  notices : list Notice
}.

Definition set_messagesSent (x : Z) (r : Stats) : Stats :=
  {| messagesSent := x; messagesReceived := messagesReceived r;
     reconnectAttempts := reconnectAttempts r;
     validationErrors := validationErrors r;
     handlerErrors := handlerErrors r;
     lastConnectedAt := lastConnectedAt r;
     lastDisconnectedAt := lastDisconnectedAt r |}.

Definition set_messagesReceived (x : Z) (r : Stats) : Stats :=
  {| messagesSent := messagesSent r; messagesReceived := x;
     reconnectAttempts := reconnectAttempts r;
     validationErrors := validationErrors r;
     handlerErrors := handlerErrors r;
     lastConnectedAt := lastConnectedAt r;
     lastDisconnectedAt := lastDisconnectedAt r |}.

Definition set_reconnectAttempts (x : Z) (r : Stats) : Stats :=
  {| messagesSent := messagesSent r;
     messagesReceived := messagesReceived r; reconnectAttempts := x;
     validationErrors := validationErrors r;
     handlerErrors := handlerErrors r;
     lastConnectedAt := lastConnectedAt r;
     lastDisconnectedAt := lastDisconnectedAt r |}.

Definition set_validationErrors (x : Z) (r : Stats) : Stats :=
  {| messagesSent := messagesSent r;
     messagesReceived := messagesReceived r;
     reconnectAttempts := reconnectAttempts r; validationErrors := x;
     handlerErrors := handlerErrors r;
     lastConnectedAt := lastConnectedAt r;
     lastDisconnectedAt := lastDisconnectedAt r |}.

Definition set_handlerErrors (x : Z) (r : Stats) : Stats :=
  {| messagesSent := messagesSent r;
     messagesReceived := messagesReceived r;
     reconnectAttempts := reconnectAttempts r;
     validationErrors := validationErrors r; handlerErrors := x;
     lastConnectedAt := lastConnectedAt r;
     lastDisconnectedAt := lastDisconnectedAt r |}.

Definition set_lastConnectedAt (x : option Z) (r : Stats) : Stats :=
  {| messagesSent := messagesSent r;
     messagesReceived := messagesReceived r;
     reconnectAttempts := reconnectAttempts r;
     validationErrors := validationErrors r;
     handlerErrors := handlerErrors r; lastConnectedAt := x;
     lastDisconnectedAt := lastDisconnectedAt r |}.

Definition set_lastDisconnectedAt (x : option Z) (r : Stats) : Stats :=
  {| messagesSent := messagesSent r;
     messagesReceived := messagesReceived r;
     reconnectAttempts := reconnectAttempts r;
     validationErrors := validationErrors r;
     handlerErrors := handlerErrors r;
     lastConnectedAt := lastConnectedAt r; lastDisconnectedAt := x |}.

Definition set_world (x : World) (r : Page) : Page :=
  {| world := x; sockets := sockets r; timers := timers r;
     next_timer := next_timer r; isConnected := isConnected r;
     connectionState := connectionState r; lastMessage := lastMessage r;
     stats := stats r; wsRef := wsRef r;
     reconnectTimeoutRef := reconnectTimeoutRef r;
     heartbeatTimeoutRef := heartbeatTimeoutRef r;
     reconnectAttemptsRef := reconnectAttemptsRef r;
     shouldReconnectRef := shouldReconnectRef r; notices := notices r |}.

Definition set_sockets (x : list WebSocket) (r : Page) : Page :=
  {| world := world r; sockets := x; timers := timers r;
     next_timer := next_timer r; isConnected := isConnected r;
     connectionState := connectionState r; lastMessage := lastMessage r;
     stats := stats r; wsRef := wsRef r;
     reconnectTimeoutRef := reconnectTimeoutRef r;
     heartbeatTimeoutRef := heartbeatTimeoutRef r;
     reconnectAttemptsRef := reconnectAttemptsRef r;
     shouldReconnectRef := shouldReconnectRef r; notices := notices r |}.

Definition set_timers (x : list Timer) (r : Page) : Page :=
  {| world := world r; sockets := sockets r; timers := x;
     next_timer := next_timer r; isConnected := isConnected r;
     connectionState := connectionState r; lastMessage := lastMessage r;
     stats := stats r; wsRef := wsRef r;
     reconnectTimeoutRef := reconnectTimeoutRef r;
     heartbeatTimeoutRef := heartbeatTimeoutRef r;
     reconnectAttemptsRef := reconnectAttemptsRef r;
     shouldReconnectRef := shouldReconnectRef r; notices := notices r |}.

Definition set_next_timer (x : nat) (r : Page) : Page :=
  {| world := world r; sockets := sockets r; timers := timers r;
     next_timer := x; isConnected := isConnected r;
     connectionState := connectionState r; lastMessage := lastMessage r;
     stats := stats r; wsRef := wsRef r;
     reconnectTimeoutRef := reconnectTimeoutRef r;
     heartbeatTimeoutRef := heartbeatTimeoutRef r;
     reconnectAttemptsRef := reconnectAttemptsRef r;
     shouldReconnectRef := shouldReconnectRef r; notices := notices r |}.

Definition set_isConnected (x : bool) (r : Page) : Page :=
  {| world := world r; sockets := sockets r; timers := timers r;
     next_timer := next_timer r; isConnected := x;
     connectionState := connectionState r; lastMessage := lastMessage r;
     stats := stats r; wsRef := wsRef r;
     reconnectTimeoutRef := reconnectTimeoutRef r;
     heartbeatTimeoutRef := heartbeatTimeoutRef r;
     reconnectAttemptsRef := reconnectAttemptsRef r;
     shouldReconnectRef := shouldReconnectRef r; notices := notices r |}.

Definition set_connectionState (x : ConnectionState) (r : Page) : Page :=
  {| world := world r; sockets := sockets r; timers := timers r;
     next_timer := next_timer r; isConnected := isConnected r;
     connectionState := x; lastMessage := lastMessage r; stats := stats r;
     wsRef := wsRef r; reconnectTimeoutRef := reconnectTimeoutRef r;
     heartbeatTimeoutRef := heartbeatTimeoutRef r;
     reconnectAttemptsRef := reconnectAttemptsRef r;
     shouldReconnectRef := shouldReconnectRef r; notices := notices r |}.

Definition set_lastMessage (x : option JsVal) (r : Page) : Page :=
  {| world := world r; sockets := sockets r; timers := timers r;
     next_timer := next_timer r; isConnected := isConnected r;
     connectionState := connectionState r; lastMessage := x;
     stats := stats r; wsRef := wsRef r;
     reconnectTimeoutRef := reconnectTimeoutRef r;
     heartbeatTimeoutRef := heartbeatTimeoutRef r;
     reconnectAttemptsRef := reconnectAttemptsRef r;
     shouldReconnectRef := shouldReconnectRef r; notices := notices r |}.

Definition set_stats (x : Stats) (r : Page) : Page :=
  {| world := world r; sockets := sockets r; timers := timers r;
     next_timer := next_timer r; isConnected := isConnected r;
     connectionState := connectionState r; lastMessage := lastMessage r;
     stats := x; wsRef := wsRef r;
     reconnectTimeoutRef := reconnectTimeoutRef r;
     heartbeatTimeoutRef := heartbeatTimeoutRef r;
     reconnectAttemptsRef := reconnectAttemptsRef r;
     shouldReconnectRef := shouldReconnectRef r; notices := notices r |}.

Definition set_wsRef (x : option nat) (r : Page) : Page :=
  {| world := world r; sockets := sockets r; timers := timers r;
     next_timer := next_timer r; isConnected := isConnected r;
     connectionState := connectionState r; lastMessage := lastMessage r;
     stats := stats r; wsRef := x;
     reconnectTimeoutRef := reconnectTimeoutRef r;
     heartbeatTimeoutRef := heartbeatTimeoutRef r;
     reconnectAttemptsRef := reconnectAttemptsRef r;
     shouldReconnectRef := shouldReconnectRef r; notices := notices r |}.

Definition set_reconnectTimeoutRef (x : option nat) (r : Page) : Page :=
  {| world := world r; sockets := sockets r; timers := timers r;
     next_timer := next_timer r; isConnected := isConnected r;
     connectionState := connectionState r; lastMessage := lastMessage r;
     stats := stats r; wsRef := wsRef r; reconnectTimeoutRef := x;
     heartbeatTimeoutRef := heartbeatTimeoutRef r;
     reconnectAttemptsRef := reconnectAttemptsRef r;
     shouldReconnectRef := shouldReconnectRef r; notices := notices r |}.

Definition set_heartbeatTimeoutRef (x : option nat) (r : Page) : Page :=
  {| world := world r; sockets := sockets r; timers := timers r;
     next_timer := next_timer r; isConnected := isConnected r;
     connectionState := connectionState r; lastMessage := lastMessage r;
     stats := stats r; wsRef := wsRef r;
     reconnectTimeoutRef := reconnectTimeoutRef r;
     heartbeatTimeoutRef := x;
     reconnectAttemptsRef := reconnectAttemptsRef r;
     shouldReconnectRef := shouldReconnectRef r; notices := notices r |}.

Definition set_reconnectAttemptsRef (x : Z) (r : Page) : Page :=
  {| world := world r; sockets := sockets r; timers := timers r;
     next_timer := next_timer r; isConnected := isConnected r;
     connectionState := connectionState r; lastMessage := lastMessage r;
     stats := stats r; wsRef := wsRef r;
     reconnectTimeoutRef := reconnectTimeoutRef r;
     heartbeatTimeoutRef := heartbeatTimeoutRef r;
     reconnectAttemptsRef := x; shouldReconnectRef := shouldReconnectRef r;
     notices := notices r |}.

Definition set_shouldReconnectRef (x : bool) (r : Page) : Page :=
  {| world := world r; sockets := sockets r; timers := timers r;
     next_timer := next_timer r; isConnected := isConnected r;
     connectionState := connectionState r; lastMessage := lastMessage r;
     stats := stats r; wsRef := wsRef r;
     reconnectTimeoutRef := reconnectTimeoutRef r;
     heartbeatTimeoutRef := heartbeatTimeoutRef r;
     reconnectAttemptsRef := reconnectAttemptsRef r;
     shouldReconnectRef := x; notices := notices r |}.

Definition set_notices (x : list Notice) (r : Page) : Page :=
  {| world := world r; sockets := sockets r; timers := timers r;
     next_timer := next_timer r; isConnected := isConnected r;
     connectionState := connectionState r; lastMessage := lastMessage r;
     stats := stats r; wsRef := wsRef r;
     reconnectTimeoutRef := reconnectTimeoutRef r;
     heartbeatTimeoutRef := heartbeatTimeoutRef r;
     reconnectAttemptsRef := reconnectAttemptsRef r;
     shouldReconnectRef := shouldReconnectRef r; notices := x |}.

(** The hook at its first render, in a given world. *)
Definition initial (w : World) : Page :=
  {| world := w; sockets := []; timers := []; next_timer := 1%nat;
     isConnected := false; connectionState := disconnected; lastMessage := None;
     stats := {| messagesSent := 0; messagesReceived := 0; reconnectAttempts := 0;
                 validationErrors := 0; handlerErrors := 0;
                 lastConnectedAt := None; lastDisconnectedAt := None |};
     wsRef := None; reconnectTimeoutRef := None; heartbeatTimeoutRef := None;
     reconnectAttemptsRef := 0; shouldReconnectRef := true; notices := [] |}.

Definition in_world {A : Type} (c : Eff World A) : Eff Page A :=
  zoom world set_world c.

Definition setStats (f : Stats -> Stats) : Eff Page unit :=
  modify (fun p => set_stats (f (stats p)) p).

Definition notify (n : Notice) : Eff Page unit :=
  modify (fun p => set_notices (notices p ++ [n]) p).

(** *** The platform: WebSocket *)

Definition valid_ws_url (u : string) : bool :=
  String.prefix "ws://" u || String.prefix "wss://" u
  || String.prefix "http://" u || String.prefix "https://" u.

(** [new WebSocket(url)]: a socket in state CONNECTING; a URL of another
    scheme throws a SyntaxError. *)
Definition WebSocket_new (u : string) : Eff Page nat :=
  fun p =>
    if valid_ws_url u then
      (Normal (List.length (sockets p)),
       set_sockets (sockets p ++ [{| url := u; readyState := CONNECTING; sent := [] |}]) p)
    else (Throw SyntaxError, p).

Definition socket_state (ws : nat) (p : Page) : option ReadyState :=
  readyState <$> (sockets p !! ws).

Definition update_socket (ws : nat) (f : WebSocket -> WebSocket) (p : Page) : Page :=
  set_sockets (alter f ws (sockets p)) p.

(** The frame [text] queued on the socket [ws]. *)
Definition transmit (ws : nat) (text : string) (p : Page) : Page :=
  update_socket ws (fun s => {| url := url s; readyState := readyState s;
                                sent := (sent s ++ [text])%list |}) p.

(** [ws.send(text)]: throws InvalidStateError while CONNECTING, queues the
    frame when OPEN, and drops it when CLOSING or CLOSED. *)
Definition WebSocket_send (ws : nat) (text : string) : Eff Page unit :=
  fun p =>
    match socket_state ws p with
    | Some CONNECTING => (Throw InvalidStateError, p)
    | Some OPEN => (Normal tt, transmit ws text p)
    | _ => (Normal tt, p)
    end.

Definition with_state (st : ReadyState) (s : WebSocket) : WebSocket :=
  {| url := url s; readyState := st; sent := sent s |}.

(** [ws.close()]: nothing on a closing or closed socket, CLOSING
    otherwise; the close event follows later. *)
Definition WebSocket_close (ws : nat) : Eff Page unit :=
  modify (fun p =>
    match socket_state ws p with
    | Some CONNECTING | Some OPEN => update_socket ws (with_state CLOSING) p
    | _ => p
    end).

(** *** The platform: timers *)

Definition add_timer (rep : bool) (cb : Callback) (ms : Z) : Eff Page nat :=
  fun p =>
    let id := next_timer p in
    (Normal id,
     set_next_timer (S id)
       (set_timers (timers p ++ [{| timer_id := id; repeating := rep;
                                    delay := Z.max 0 ms;
                                    due := now (world p) + Z.max 0 ms;
                                    callback := cb |}]) p)).

Definition setInterval (cb : Callback) (ms : Z) : Eff Page nat := add_timer true cb ms.
Definition setTimeout (cb : Callback) (ms : Z) : Eff Page nat := add_timer false cb ms.

Definition clear_timer (id : nat) : Eff Page unit :=
  modify (fun p =>
    set_timers (List.filter (fun t => negb (Nat.eqb (timer_id t) id)) (timers p)) p).

Definition clearInterval : nat -> Eff Page unit := clear_timer.
Definition clearTimeout : nat -> Eff Page unit := clear_timer.

(** *** The hook *)

(** [JSON.stringify(message)] as the argument of [send]: the text, or
    the text of [undefined]. *)
Definition stringify_text (message : JsVal) : string :=
  default "undefined" (Json.stringify message).

(** [wsRef.current?.readyState === WebSocket.OPEN] *)
Definition ws_is_open (p : Page) : bool :=
  match wsRef p with
  | Some ws => match socket_state ws p with Some OPEN => true | _ => false end
  | None => false
  end.

(** [baseUrl || getWebSocketBaseUrl()]; [defaultBase] is the value of
    [getWebSocketBaseUrl()]. *)
Definition wsBaseUrl (defaultBase : string) (o : Settings) : string :=
  match base o with
  | Some b => if negb (String.eqb b "") then b else defaultBase
  | None => defaultBase
  end.

(** [buildUrl] *)
Definition buildUrl (defaultBase : string) (o : Settings) : Completion string :=
  buildWebSocketUrl (Some (wsBaseUrl defaultBase o)) (params o).

(** [sendHeartbeat] *)
Definition sendHeartbeat : Eff Page unit :=
  let! p := gets id in
  match wsRef p with
  | Some ws =>
      if ws_is_open p then
        let! heartbeatMessage := in_world createHeartbeatMessage in
        WebSocket_send ws (stringify_text heartbeatMessage)
      else ret tt
  | None => ret tt
  end.

(** [startHeartbeat] *)
Definition startHeartbeat (o : Settings) : Eff Page unit :=
  let! current := gets heartbeatTimeoutRef in
  match current with Some t => clearInterval t | None => ret tt end ;;
  let! t := setInterval SendHeartbeat (heartbeat_ms o) in
  modify (set_heartbeatTimeoutRef (Some t)).

(** [stopHeartbeat] *)
Definition stopHeartbeat : Eff Page unit :=
  let! current := gets heartbeatTimeoutRef in
  match current with
  | Some t => clearInterval t ;; modify (set_heartbeatTimeoutRef None)
  | None => ret tt
  end.

(** [connect]: the handlers it attaches to the socket are [onopen],
    [onmessage], [onclose] and [onerror] below. *)
Definition connect (defaultBase : string) (o : Settings) : Eff Page unit :=
  let! p := gets id in
  if ws_is_open p then ret tt
  else
    modify (set_connectionState connecting) ;;
    try_catch
      (let! wsUrl := lift (buildUrl defaultBase o) in
       let! ws := WebSocket_new wsUrl in
       modify (set_wsRef (Some ws)))
      (fun _ =>
         modify (set_connectionState errored) ;;
         in_world (console_log "Error creating WebSocket connection:")).

(** [wsRef.current.onopen] *)
Definition onopen (o : Settings) : Eff Page unit :=
  modify (set_isConnected true) ;;
  modify (set_connectionState connected) ;;
  let! t := in_world Date_now in
  setStats (set_lastConnectedAt (Some t)) ;;
  modify (set_reconnectAttemptsRef 0) ;;
  startHeartbeat o ;;
  notify onConnect.

(** [wsRef.current.onmessage], for a text frame. *)
Definition onmessage (data : string) : Eff Page unit :=
  try_catch
    (let! parsed := in_world (parseWebSocketMessage data) in
     match parsed with
     | None => setStats (fun s => set_validationErrors (validationErrors s + 1) s)
     | Some message =>
         modify (set_lastMessage (Some message)) ;;
         setStats (fun s => set_messagesReceived (messagesReceived s + 1) s) ;;
         let! type := lift (get message "type") in
         (if is_string type (MessageType_value ERROR) then
            let! errorDetails := lift (fst (extractErrorDetails message)) in
            let! validation := lift (isValidationError message) in
            if validation then
              setStats (fun s => set_validationErrors (validationErrors s + 1) s) ;;
              notify (onValidationError (WebsocketUtils.error errorDetails)
                                        (details errorDetails))
            else
              let! handler := lift (isHandlerError message) in
              if handler then
                setStats (fun s => set_handlerErrors (handlerErrors s + 1) s)
              else ret tt
          else ret tt) ;;
         if negb (is_string type (MessageType_value HEARTBEAT))
         then notify (onMessage message)
         else ret tt
     end)
    (fun _ =>
       in_world (console_log "Error parsing WebSocket message:") ;;
       setStats (fun s => set_validationErrors (validationErrors s + 1) s)).

(** [wsRef.current.onclose] *)
Definition onclose (o : Settings) : Eff Page unit :=
  modify (set_isConnected false) ;;
  modify (set_connectionState disconnected) ;;
  let! t := in_world Date_now in
  setStats (set_lastDisconnectedAt (Some t)) ;;
  stopHeartbeat ;;
  notify onDisconnect ;;
  let! p := gets id in
  if shouldReconnectRef p && (reconnectAttemptsRef p <? max_attempts o) then
    modify (set_reconnectAttemptsRef (reconnectAttemptsRef p + 1)) ;;
    setStats (fun s => set_reconnectAttempts (reconnectAttempts s + 1) s) ;;
    let! t := setTimeout Connect (reconnect_ms o) in
    modify (set_reconnectTimeoutRef (Some t))
  else ret tt.

(** [wsRef.current.onerror] *)
Definition onerror : Eff Page unit :=
  modify (set_connectionState errored) ;;
  notify onError.

(** [disconnect] *)
Definition disconnect : Eff Page unit :=
  modify (set_shouldReconnectRef false) ;;
  let! pending := gets reconnectTimeoutRef in
  match pending with
  | Some t => clearTimeout t ;; modify (set_reconnectTimeoutRef None)
  | None => ret tt
  end ;;
  stopHeartbeat ;;
  let! ws := gets wsRef in
  match ws with
  | Some w => WebSocket_close w ;; modify (set_wsRef None)
  | None => ret tt
  end ;;
  modify (set_isConnected false) ;;
  modify (set_connectionState disconnected).

(** [reconnect] *)
Definition reconnect : Eff Page unit :=
  disconnect ;;
  modify (set_shouldReconnectRef true) ;;
  modify (set_reconnectAttemptsRef 0) ;;
  let! _ := setTimeout Connect 100 in
  ret tt.

(** [!wsRef.current || wsRef.current.readyState !== WebSocket.OPEN] *)
Definition not_open (p : Page) : bool := negb (ws_is_open p).

(** [sendMessage(type, data)] *)
Definition sendMessage (type : MessageType) (data : JsVal) : Eff Page bool :=
  let! p := gets id in
  match wsRef p with
  | Some ws =>
      if not_open p then
        in_world (console_log "WebSocket is not connected. Cannot send message.") ;;
        ret false
      else
        try_catch
          (let! message := in_world (createStandardMessage type data None) in
           WebSocket_send ws (stringify_text message) ;;
           setStats (fun s => set_messagesSent (messagesSent s + 1) s) ;;
           ret true)
          (fun _ =>
             in_world (console_log "Error sending WebSocket message:") ;;
             ret false)
  | None =>
      in_world (console_log "WebSocket is not connected. Cannot send message.") ;;
      ret false
  end.

(** [sendRawMessage(message)] *)
Definition sendRawMessage (message : JsVal) : Eff Page bool :=
  let! p := gets id in
  match wsRef p with
  | Some ws =>
      if not_open p then
        in_world (console_log "WebSocket is not connected. Cannot send message.") ;;
        ret false
      else
        try_catch
          (let! ok := lift (validateMessage message) in
           if negb ok then
             in_world (console_log "Invalid message structure:") ;;
             ret false
           else
             WebSocket_send ws (stringify_text message) ;;
             setStats (fun s => set_messagesSent (messagesSent s + 1) s) ;;
             ret true)
          (fun _ =>
             in_world (console_log "Error sending WebSocket message:") ;;
             ret false)
  | None =>
      in_world (console_log "WebSocket is not connected. Cannot send message.") ;;
      ret false
  end.

(** *** The page at work *)

(** What the page makes of a finished callback: an exception that leaves
    a handler is reported and goes no further. *)
Definition settle (c : Eff Page unit) (p : Page) : Page := snd (c p).

(** The socket [ws] opens, and its [onopen] runs. *)
Definition socket_opens (o : Settings) (ws : nat) (p : Page) : Page :=
  match socket_state ws p with
  | Some CONNECTING => settle (onopen o) (update_socket ws (with_state OPEN) p)
  | _ => p
  end.

(** A text frame arrives on the open socket [ws]. *)
Definition socket_receives (ws : nat) (data : string) (p : Page) : Page :=
  match socket_state ws p with
  | Some OPEN => settle (onmessage data) p
  | _ => p
  end.

(** The socket [ws] closes, by either side, and its [onclose] runs. *)
Definition socket_closes (o : Settings) (ws : nat) (p : Page) : Page :=
  match socket_state ws p with
  | Some CLOSED | None => p
  | Some _ => settle (onclose o) (update_socket ws (with_state CLOSED) p)
  end.

Definition run_callback (defaultBase : string) (o : Settings) (cb : Callback)
  : Eff Page unit :=
  match cb with
  | SendHeartbeat => sendHeartbeat
  | Connect => connect defaultBase o
  end.

(** The timer that fires next: the earliest due, the oldest first. *)
Fixpoint next_due (l : list Timer) : option Timer :=
  match l with
  | [] => None
  | t :: r =>
      match next_due r with
      | Some t' => if due t' <? due t then Some t' else Some t
      | None => Some t
      end
  end.

Definition set_clock (t : Z) (p : Page) : Page :=
  set_world {| now := t; random_text := random_text (world p);
               draws := draws (world p); console := console (world p) |} p.

(** One firing: an interval is set again one period later, a timeout is
    gone. *)
Definition fire (defaultBase : string) (o : Settings) (t : Timer) (p : Page) : Page :=
  let rest := List.filter (fun t' => negb (Nat.eqb (timer_id t') (timer_id t))) (timers p) in
  let again :=
    if repeating t
    then [{| timer_id := timer_id t; repeating := true; delay := delay t;
             due := due t + delay t; callback := callback t |}]
    else [] in
  settle (run_callback defaultBase o (callback t))
         (set_timers (rest ++ again) (set_clock (Z.max (now (world p)) (due t)) p)).

(** The page left alone until the clock reads [deadline]: the timers due
    by then fire in order.  [fuel] bounds the number of firings. *)
Fixpoint elapse (fuel : nat) (defaultBase : string) (o : Settings) (deadline : Z)
    (p : Page) : option Page :=
  match next_due (timers p) with
  | Some t =>
      if due t <=? deadline then
        match fuel with
        | O => None
        | S fuel => elapse fuel defaultBase o deadline (fire defaultBase o t p)
        end
      else Some (set_clock (Z.max (now (world p)) deadline) p)
  | None => Some (set_clock (Z.max (now (world p)) deadline) p)
  end.

(** The frames sent on the socket [ws] so far. *)
Definition frames (ws : nat) (p : Page) : list string :=
  match sockets p !! ws with
  | Some s => sent s
  | None => []
  end.

(** *** Notions for the facts about the hook *)

(** The query of a connection: [user_id], [project_id], and [workflow_id]
    when it is given and not empty. *)
Definition connection_query (ps : WebSocketConnectionParams) : string :=
  "user_id=" ++ form_encode (user_id ps) ++ "&project_id=" ++ form_encode (project_id ps)
  ++ match workflow_id ps with
     | Some wf => if String.eqb wf "" then "" else "&workflow_id=" ++ form_encode wf
     | None => ""
     end.

(** The page after a frame went out: the frame on the socket, one more
    message counted. *)
Definition sent_page (ws : nat) (text : string) (p : Page) : Page :=
  set_stats (set_messagesSent (messagesSent (stats p) + 1)%Z (stats p))
            (transmit ws text p).

(** The heartbeat message made in the world [w]. *)
Definition heartbeat_message (w : World) : JsVal :=
  standard_message HEARTBEAT (JObj [("client_time", JStr (toISOString (now w)))])
    (toISOString (now w)) (fresh_id w).

(** A frame that is the text of a heartbeat: a message of type [heartbeat]
    whose data has a string for [client_time]. *)
Definition is_heartbeat_text (text : string) : Prop :=
  exists message client_time,
    Json.parse text = Normal message
    /\ validateMessage message = Normal true
    /\ get_own message "type" = JStr "heartbeat"
    /\ get_own (get_own message "data") "client_time" = JStr client_time.

(** The heartbeat timer: an interval of [period] for [sendHeartbeat], due
    next at [next]. *)
Definition heartbeat_timer (id : nat) (period next : Z) : Timer :=
  {| timer_id := id; repeating := true; delay := period; due := next;
     callback := SendHeartbeat |}.

(** The hook at rest on an open channel: its socket [ws] is open, and the
    one timer that is set is the heartbeat timer. *)
Definition beating (ws id : nat) (period next : Z) (p : Page) : Prop :=
  wsRef p = Some ws
  /\ socket_state ws p = Some OPEN
  /\ timers p = [heartbeat_timer id period next]
  /\ (now (world p) <= next)%Z
  /\ isConnected p = true
  /\ connectionState p = connected.

(** How many times a timer due at [next], then every [period], has fired
    when the clock reads [deadline]. *)
Definition firings (period next deadline : Z) : nat :=
  if (deadline <? next)%Z then O else Z.to_nat ((deadline - next) / period + 1).

(** *** Example pages *)

(** A page for the examples: the hook connected, its socket open. *)
Definition example_options : WebSocketOptions :=
  {| connectionParams := {| user_id := "user123"; project_id := "proj456";
                            workflow_id := None |};
     baseUrl := None; reconnectInterval := None; maxReconnectAttempts := None;
     heartbeatInterval := None |}.

Definition connecting_page : Page :=
  settle (connect "ws://localhost:8000" (settings example_options)) (initial example_world).

Definition open_page : Page := socket_opens (settings example_options) 0 connecting_page.

End UseWebSocket.

(** ** frontend/src/hooks/useWorkflow.ts *)
Module UseWorkflow.

(** The connection parameters [useWorkflow(projectId?, userId = 'anonymous')]
    hands to [useWebSocket]:
    [{ user_id: userId, project_id: projectId || 'default' }]. *)
Definition connectionParams (projectId userId : option string)
  : WebSocketConnectionParams :=
  {| user_id := default "anonymous" userId;
     project_id := match projectId with
                   | Some p => if negb (String.eqb p "") then p else "default"
                   | None => "default"
                   end;
     workflow_id := None |}.

End UseWorkflow.

(** ** The workflow engine

    Modelled from the spec: the Workflow Engine of section 4.5, with the
    WorkflowThread of section 3 and the executor contract of section 4.4.
    The engine runs in the backend, which is not among the source files;
    they hold the client's view of its state only ([currentStep],
    [completedSteps], [iterationCount: 0], [maxIterations: 3] in
    [useSimulationState]). *)
Module WorkflowEngine.

(** Modelled from the spec: the [status] of a WorkflowThread (section 3),
    one of running, paused_for_review, completed, failed. *)
Inductive Status : Type := running | paused_for_review | completed | failed.

(** Modelled from the spec: what a step executor returns (section 4.4);
    [next_step] is [None] for the terminal marker. *)
Inductive StepOutcome : Type :=
| StepResult (next_step : option string) (payload_patch : gmap string JsVal)
| NeedsReview (checkpoint_type : string) (checkpoint_data : JsVal)
              (agent_recommendations : list string)
| StepFailure (reason : string).

(** Modelled from the spec: why a workflow failed (sections 4.4, 4.5). *)
Inductive Failure : Type :=
| IterationLimitExceeded
| Unregistered
| ExecutorFailure (reason : string).

(** Modelled from the spec: what a step that needs review hands to the
    HITL Checkpoint Manager (section 4.6). *)
Record Review : Type := {
  checkpoint_type : string;
  checkpoint_data : JsVal;
  agent_recommendations : list string
}.

(** Modelled from the spec: the WorkflowThread of section 3, less its
    identifiers, its progress and its warnings. *)
Record WorkflowThread : Type := {
  current_step : option string;
  completed_steps : list string;
  status : Status;
  payload : gmap string JsVal;
  max_iterations : nat;
  errors : list (string * Failure);
  pending : option Review
}.

(** Modelled from the spec: how many times a step name appears in
    [completed_steps] (section 4.5, iteration bound). *)
Definition occurrences (name : string) (steps : list string) : nat :=
  List.length (List.filter (String.eqb name) steps).

(** Modelled from the spec: the transition to [failed], with the reason
    appended to [errors] (section 4.5). *)
Definition fail (step : string) (why : Failure) (t : WorkflowThread) : WorkflowThread :=
  {| current_step := current_step t; completed_steps := completed_steps t;
     status := failed; payload := payload t; max_iterations := max_iterations t;
     errors := (errors t ++ [(step, why)])%list; pending := pending t |}.

(** Modelled from the spec: [start(initial_payload)], a running thread at
    the first step of the pipeline (section 4.5). *)
Definition start (first_step : string) (limit : nat) (initial_payload : gmap string JsVal)
  : WorkflowThread :=
  {| current_step := Some first_step; completed_steps := []; status := running;
     payload := initial_payload; max_iterations := limit; errors := [];
     pending := None |}.

(** Modelled from the spec: one turn of the step loop of section 4.5 on a
    running thread, checkpoint persistence apart: the executor of the
    current step is resolved and called; a StepResult is merged, the step
    appended to [completed_steps] and the thread advanced; a NeedsReview
    pauses the thread; a StepFailure fails it; and when the step now
    appears in [completed_steps] more than [max_iterations] times the
    workflow fails with IterationLimitExceeded.  With [bounded] unset the
    iteration bound is left out: that is the loop whose runs the bound is
    there to cut short. *)
Definition step_loop (bounded : bool) (registry : gmap string (gmap string JsVal -> StepOutcome))
    (t : WorkflowThread) : WorkflowThread :=
  match status t with
  | running =>
      match current_step t with
      | None =>
          {| current_step := None; completed_steps := completed_steps t;
             status := completed; payload := payload t;
             max_iterations := max_iterations t; errors := errors t;
             pending := pending t |}
      | Some name =>
          match registry !! name with
          | None => fail name Unregistered t
          | Some executor =>
              match executor (payload t) with
              | StepResult next_step payload_patch =>
                  let merged :=
                    {| current_step := next_step;
                       completed_steps := (completed_steps t ++ [name])%list;
                       status := match next_step with
                                 | Some _ => running
                                 | None => completed
                                 end;
                       payload := payload_patch ∪ payload t;
                       max_iterations := max_iterations t; errors := errors t;
                       pending := pending t |} in
                  if bounded
                     && (max_iterations t <? occurrences name (completed_steps merged))%nat
                  then fail name IterationLimitExceeded merged
                  else merged
              | NeedsReview ty data recommendations =>
                  {| current_step := current_step t;
                     completed_steps := completed_steps t;
                     status := paused_for_review; payload := payload t;
                     max_iterations := max_iterations t; errors := errors t;
                     pending := Some {| checkpoint_type := ty; checkpoint_data := data;
                                        agent_recommendations := recommendations |} |}
              | StepFailure reason => fail name (ExecutorFailure reason) t
              end
          end
      end
  | _ => t
  end.

(** Modelled from the spec: the turn of the engine, with the bound. *)
Definition step := step_loop true.

(** Modelled from the spec: the step loop, executed while the status is
    running.  [None] when the allowance of turns is used up with the
    thread still running. *)
Fixpoint run (fuel : nat) (registry : gmap string (gmap string JsVal -> StepOutcome))
    (t : WorkflowThread) : option WorkflowThread :=
  match status t with
  | running =>
      match fuel with
      | O => None
      | S fuel => run fuel registry (step registry t)
      end
  | _ => Some t
  end.

(** Modelled from the spec: [k] turns of the loop without the bound. *)
Fixpoint unbounded (k : nat) (registry : gmap string (gmap string JsVal -> StepOutcome))
    (t : WorkflowThread) : WorkflowThread :=
  match k with
  | O => t
  | S k => unbounded k registry (step_loop false registry t)
  end.

(** Modelled from the spec: the workflow failed with
    IterationLimitExceeded. *)
Definition iteration_limit_exceeded (t : WorkflowThread) : Prop :=
  status t = failed /\ exists name, last (errors t) = Some (name, IterationLimitExceeded).

(** Modelled from the spec: no step appears in [completed_steps] more than
    [max_iterations] times. *)
Definition within_bound (t : WorkflowThread) : Prop :=
  forall name, occurrences name (completed_steps t) <= max_iterations t.

(** The turns left to a thread at most: for each registered step, how many
    more times it may complete. *)
Definition room (registry : gmap string (gmap string JsVal -> StepOutcome))
    (t : WorkflowThread) : nat :=
  sum_list (List.map (fun name => max_iterations t - occurrences name (completed_steps t))
                     (elements (dom registry))).

(** Modelled from the spec: the executor of the test of section 8, which
    always asks for the same step again. *)
Definition always_revise (name : string) : gmap string JsVal -> StepOutcome :=
  fun _ => StepResult (Some name) ∅.

End WorkflowEngine.

(** ** The hook and its page: events, one after the other

    What can happen to the hook once it is mounted: the events of its
    sockets, the firing of a timer it set, and the calls of the functions
    it returns.  Each runs one handler to its end. *)
Module HookEvents.
Import UseWebSocket.
#[local] Open Scope Z_scope.

(** The socket [ws] reports an error, and its [onerror] runs. *)
Definition socket_errors (ws : nat) (p : Page) : Page :=
  match socket_state ws p with
  | Some CLOSED | None => p
  | Some _ => settle onerror p
  end.

(** The timer [id], when it is pending, fires. *)
Definition timer_fires (defaultBase : string) (o : Settings) (id : nat) (p : Page) : Page :=
  match List.find (fun t => Nat.eqb (timer_id t) id) (timers p) with
  | Some t => fire defaultBase o t p
  | None => p
  end.

Inductive Event : Type :=
| SocketOpens (ws : nat)
| SocketReceives (ws : nat) (data : string)
| SocketErrors (ws : nat)
| SocketCloses (ws : nat)
| TimerFires (id : nat)
| CallsSendMessage (type : MessageType) (data : JsVal)
| CallsSendRawMessage (message : JsVal)
| CallsDisconnect
| CallsReconnect.

Definition react (defaultBase : string) (o : Settings) (e : Event) (p : Page) : Page :=
  match e with
  | SocketOpens ws => socket_opens o ws p
  | SocketReceives ws data => socket_receives ws data p
  | SocketErrors ws => socket_errors ws p
  | SocketCloses ws => socket_closes o ws p
  | TimerFires id => timer_fires defaultBase o id p
  | CallsSendMessage type data => snd (sendMessage type data p)
  | CallsSendRawMessage message => snd (sendRawMessage message p)
  | CallsDisconnect => settle disconnect p
  | CallsReconnect => settle reconnect p
  end.

(** The hook mounted in the world [w]: the first effect has run
    ([shouldReconnectRef.current = true; connect()]). *)
Definition mounted (defaultBase : string) (o : Settings) (w : World) : Page :=
  settle (connect defaultBase o) (set_shouldReconnectRef true (initial w)).

Definition history (defaultBase : string) (o : Settings) (events : list Event) (p : Page)
  : Page :=
  fold_left (fun q e => react defaultBase o e q) events p.

(** The timers but the one of identifier [id]: what [clearInterval] and
    [clearTimeout] leave. *)
Definition without (id : nat) (l : list Timer) : list Timer :=
  List.filter (fun t => negb (Nat.eqb (timer_id t) id)) l.

(** The timer [setInterval] or [setTimeout] makes on the page [p]. *)
Definition new_timer (rep : bool) (cb : Callback) (ms : Z) (p : Page) : Timer :=
  {| timer_id := next_timer p; repeating := rep; delay := Z.max 0 ms;
     due := now (world p) + Z.max 0 ms; callback := cb |}.

(** The page with one more timer. *)
Definition with_timer (t : Timer) (p : Page) : Page :=
  set_next_timer (S (next_timer p)) (set_timers (timers p ++ [t]) p).

(** The page after [stopHeartbeat]. *)
Definition heartbeat_stopped (p : Page) : Page :=
  match heartbeatTimeoutRef p with
  | Some t => set_heartbeatTimeoutRef None (set_timers (without t (timers p)) p)
  | None => p
  end.

(** The page after [ws.close()]. *)
Definition closing (ws : nat) (p : Page) : Page :=
  match socket_state ws p with
  | Some CONNECTING | Some OPEN => update_socket ws (with_state CLOSING) p
  | _ => p
  end.

(** The sockets after [ws.close()] on the socket [ws]. *)
Definition closed_list (ws : nat) (l : list WebSocket) : list WebSocket :=
  match readyState <$> l !! ws with
  | Some CONNECTING | Some OPEN => alter (with_state CLOSING) ws l
  | _ => l
  end.

(** The page after [disconnect]. *)
Definition after_disconnect (p : Page) : Page :=
  let p0 := set_shouldReconnectRef false p in
  let p1 := match reconnectTimeoutRef p with
            | Some t => set_reconnectTimeoutRef None (set_timers (without t (timers p)) p0)
            | None => p0
            end in
  let p2 := heartbeat_stopped p1 in
  let p3 := match wsRef p with
            | Some ws => set_wsRef None (closing ws p2)
            | None => p2
            end in
  set_connectionState disconnected (set_isConnected false p3).

(** The timers of the page that run [cb]. *)
Definition timers_of (cb : Callback) (p : Page) : list Timer :=
  List.filter (fun t => match callback t, cb with
                        | SendHeartbeat, SendHeartbeat | Connect, Connect => true
                        | _, _ => false
                        end) (timers p).

(** What the hook keeps whatever happens. *)
Record steady (o : Settings) (p : Page) : Prop := {
  (* timer identifiers are given once *)
  timers_fresh : forall t, t ∈ timers p -> (timer_id t < next_timer p)%nat;
  timers_distinct : NoDup (List.map timer_id (timers p));
  (* a heartbeat timer is the one the ref holds, and the ref holds one
     exactly while the hook says it is connected *)
  heartbeat_known :
    forall t, t ∈ timers p -> callback t = SendHeartbeat ->
      heartbeatTimeoutRef p = Some (timer_id t);
  heartbeat_pending :
    forall id, heartbeatTimeoutRef p = Some id ->
      exists t, t ∈ timers p /\ timer_id t = id /\ callback t = SendHeartbeat;
  heartbeat_repeats :
    forall t, t ∈ timers p -> callback t = SendHeartbeat -> repeating t = true;
  heartbeat_while_connected :
    isConnected p = true <-> heartbeatTimeoutRef p <> None;
  (* the other ref holds the identifier of a timer that was set *)
  reconnect_known :
    forall id, reconnectTimeoutRef p = Some id ->
      (id < next_timer p)%nat /\ heartbeatTimeoutRef p <> Some id;
  attempts_bounded :
    0 <= reconnectAttemptsRef p <= Z.max 0 (max_attempts o);
  connected_means_isConnected :
    connectionState p = connected -> isConnected p = true;
  socket_known :
    forall ws, wsRef p = Some ws -> (ws < List.length (sockets p))%nat
}.

(** What a message is, for the counters of the hook. *)
Definition is_validation_error (m : JsVal) : bool :=
  is_string (get_own m "type") "error"
  && is_string (get_own (get_own m "data") "error") "Message validation failed".

Definition is_handler_error (m : JsVal) : bool :=
  is_string (get_own m "type") "error"
  && is_string (get_own (get_own m "data") "error") "Handler execution failed".


(** One round against a server that cannot be reached: the current
    socket closes before it opens, and the timer the hook then has
    pending, if any, fires. *)
Definition refused_round (defaultBase : string) (o : Settings) (p : Page) : Page :=
  match wsRef p with
  | Some ws =>
      let p1 := socket_closes o ws p in
      match next_due (timers p1) with
      | Some t => fire defaultBase o t p1
      | None => p1
      end
  | None => p
  end.

Fixpoint refused (n : nat) (defaultBase : string) (o : Settings) (p : Page) : Page :=
  match n with
  | O => p
  | S n => refused n defaultBase o (refused_round defaultBase o p)
  end.

(** The hook while it tries: [k] sockets closed, the next one connecting,
    and no timer pending. *)
Record trying (k : nat) (p : Page) : Prop := {
  trying_sockets : List.length (sockets p) = S k;
  trying_current : wsRef p = Some k;
  trying_state : socket_state k p = Some CONNECTING;
  trying_closed : forall ws, (ws < k)%nat -> socket_state ws p = Some CLOSED;
  trying_timers : timers p = [];
  trying_heartbeat : heartbeatTimeoutRef p = None;
  trying_isConnected : isConnected p = false;
  trying_attempts : reconnectAttemptsRef p = Z.of_nat k;
  trying_should : shouldReconnectRef p = true;
  trying_counted : reconnectAttempts (stats p) = Z.of_nat k;
  trying_connecting : connectionState p = connecting
}.

(** The hook after it gave up: [k] sockets closed and the last one too,
    and no timer pending. *)
Record given_up (k : nat) (p : Page) : Prop := {
  given_up_sockets : List.length (sockets p) = S k;
  given_up_current : wsRef p = Some k;
  given_up_closed : forall ws, (ws <= k)%nat -> socket_state ws p = Some CLOSED;
  given_up_timers : timers p = [];
  given_up_isConnected : isConnected p = false;
  given_up_counted : reconnectAttempts (stats p) = Z.of_nat k;
  given_up_disconnected : connectionState p = disconnected
}.

(** A page on which the hook says it is not connected although its
    current socket is open, with no heartbeat timer: firing timers
    changes neither. *)
Record stalled (ws : nat) (l : list WebSocket) (p : Page) : Prop := {
  stalled_sockets : sockets p = l;
  stalled_current : wsRef p = Some ws;
  stalled_open : readyState <$> l !! ws = Some OPEN;
  stalled_isConnected : isConnected p = false;
  stalled_timers : forall t, t ∈ timers p -> callback t = Connect
}.

(** What a send that answered [b] has done to the page: one more message
    sent in the statistics and one more frame on the current socket when
    [b] is [true], and neither when it is [false]; the other sockets, the
    timers, the refs and the state of the hook are as they were. *)
Definition send_outcome (b : bool) (p p' : Page) : Prop :=
  stats p' = (if b then set_messagesSent (messagesSent (stats p) + 1) (stats p)
              else stats p)
  /\ (forall ws, wsRef p = Some ws ->
        List.length (frames ws p')
        = (List.length (frames ws p) + if b then 1 else 0)%nat)
  /\ (forall ws, wsRef p <> Some ws -> frames ws p' = frames ws p)
  /\ timers p' = timers p /\ wsRef p' = wsRef p
  /\ isConnected p' = isConnected p /\ connectionState p' = connectionState p
  /\ lastMessage p' = lastMessage p /\ notices p' = notices p.

End HookEvents.

(** ** The query of the connection URL, read back

    Notions for the facts about [buildWebSocketUrl]: the characters the
    form encoding writes, and the first character of an encoded text read
    back. *)
Module FormEncoding.

(** Letters, digits, and [* - . _ + %]. *)
Definition query_safe (c : ascii) : bool :=
  let n := N_of_ascii c in
  ((48 <=? n) && (n <=? 57) || (65 <=? n) && (n <=? 90) || (97 <=? n) && (n <=? 122)
   || (n =? 42) || (n =? 45) || (n =? 46) || (n =? 95) || (n =? 43) || (n =? 37))%N.

Fixpoint all_chars (f : ascii -> bool) (s : string) : bool :=
  match s with
  | "" => true
  | String c r => f c && all_chars f r
  end.

(** The value of an upper-case hexadecimal digit. *)
Definition hex_of (c : ascii) : option N :=
  let n := N_of_ascii c in
  if ((48 <=? n) && (n <=? 57))%N then Some (n - 48)%N
  else if ((65 <=? n) && (n <=? 70))%N then Some (n - 55)%N
  else None.

(** The byte [%XY] at the head of a text. *)
Definition percent_byte (s : string) : option (N * string) :=
  match s with
  | String p (String x (String y r)) =>
      if (N_of_ascii p =? 37)%N then
        match hex_of x, hex_of y with
        | Some a, Some b => Some ((16 * a + b)%N, r)
        | _, _ => None
        end
      else None
  | _ => None
  end.

(** The first character of a form-encoded text of characters below 256,
    and the rest of the text. *)
Definition decode_first (s : string) : option (ascii * string) :=
  match s with
  | "" => None
  | String c r =>
      if (N_of_ascii c =? 43)%N then Some (" "%char, r)
      else if (N_of_ascii c =? 37)%N then
        match percent_byte s with
        | Some (b, r1) =>
            if (b <? 128)%N then Some (ascii_of_N b, r1)
            else match percent_byte r1 with
                 | Some (b2, r2) => Some (ascii_of_N ((b - 192) * 64 + (b2 - 128)), r2)
                 | None => None
                 end
        | None => None
        end
      else Some (c, r)
  end.

(** The workflow a connection URL names: none when [workflow_id] is
    absent or empty. *)
Definition named_workflow (ps : WebSocketConnectionParams) : option string :=
  match workflow_id ps with
  | Some wf => if String.eqb wf "" then None else Some wf
  | None => None
  end.

(** The query [buildWebSocketUrl] writes. *)
Definition written_query (ps : WebSocketConnectionParams) : string :=
  "user_id=" ++ form_encode (user_id ps) ++ "&project_id=" ++ form_encode (project_id ps)
  ++ match named_workflow ps with
     | Some wf => "&workflow_id=" ++ form_encode wf
     | None => ""
     end.

End FormEncoding.

(** ** A message on the wire *)
Module Wire.

(** The message passes [validateMessage], has a JSON text, and
    [parseWebSocketMessage] reads that text back as the message, with
    nothing written to the console. *)
Definition survives_the_wire (m : JsVal) : Prop :=
  validateMessage m = Normal true
  /\ exists text,
       Json.stringify m = Some text
       /\ forall w, parseWebSocketMessage text w = (Normal (Some m), w).

End Wire.

(** ** Object literals, spreads and conversions

    What the state updates of the hooks use of the language beyond the
    property reads of [Js]: the spread of a value into an object literal,
    the conversion of a computed key, strict equality and
    [Array.prototype.map]. *)
Module Objects.

(** The own enumerable properties of a value, in the order [{...v}]
    copies them: the properties of an object, the elements of an array
    and the characters of a string under their indices, and nothing for
    the other values ([undefined] and [null] included). *)
Definition indexed (items : list JsVal) : list (string * JsVal) :=
  imap (fun i x => (index_key i, x)) items.

Definition characters (s : string) : list JsVal :=
  List.map (fun c => JStr (String c "")) (list_ascii_of_string s).

Definition own_enumerable (v : JsVal) : list (string * JsVal) :=
  match v with
  | JObj props => props
  | JArr items => indexed items
  | JStr s => indexed (characters s)
  | _ => []
  end.

(** The properties of an object literal after [more] has been defined
    on [props], one after the other.  (A new property goes to the end:
    the place an engine gives to a new name that is an array index is
    not modelled, and no statement below depends on the order.) *)
Definition with_props (props more : list (string * JsVal)) : list (string * JsVal) :=
  fold_left (fun acc kv => set_prop acc (fst kv) (snd kv)) more props.

(** [[...v]]: the elements of an array, the characters of a string, and
    a TypeError for a value that is not iterable. *)
Definition iterate (v : JsVal) : Completion (list JsVal) :=
  match v with
  | JArr items => Normal items
  | JStr s => Normal (characters s)
  | _ => Throw TypeError
  end.

(** [a === b] where one side at least comes from a frame just parsed or
    is a literal: primitives are compared by value, and an object or an
    array is a new one, identical to no other value. *)
Definition strict_equal (a b : JsVal) : bool :=
  match a, b with
  | JUndefined, JUndefined => true
  | JNull, JNull => true
  | JBool x, JBool y => Bool.eqb x y
  | JNum x, JNum y => Z.eqb x y
  | JStr x, JStr y => String.eqb x y
  | _, _ => false
  end.

(** [undefined] and [null], the values no property can be read of. *)
Definition nullish (v : JsVal) : bool :=
  match v with
  | JUndefined | JNull => true
  | _ => false
  end.

(** [v?.k] *)
Definition optional_get (v : JsVal) (k : string) : JsVal :=
  match v with
  | JUndefined | JNull => JUndefined
  | _ => get_own v k
  end.

(** ToString, which is also ToPropertyKey on these values.  An array is
    joined with commas, [undefined] and [null] elements giving the empty
    text; an object gives [[object Object]], unless it has a property
    [toString] of its own: that one is no function, [valueOf] returns no
    primitive, and the conversion throws a TypeError.  A number is
    written as [Json.number_text] writes it. *)
Fixpoint ToString (v : JsVal) : Completion string :=
  match v with
  | JUndefined => Normal "undefined"
  | JNull => Normal "null"
  | JBool b => Normal (if b then "true" else "false")
  | JNum n => Normal (Json.number_text n)
  | JStr s => Normal s
  | JArr items =>
      (fix join (l : list JsVal) : Completion string :=
         match l with
         | [] => Normal ""
         | x :: rest =>
             let? first := match x with
                           | JUndefined | JNull => Normal ""
                           | _ => ToString x
                           end in
             match rest with
             | [] => Normal first
             | _ => let? others := join rest in Normal (first ++ "," ++ others)
             end
         end) items
  | JObj props =>
      match lookup "toString" props with
      | Some _ => Throw TypeError
      | None => Normal "[object Object]"
      end
  end.

Definition ToPropertyKey : JsVal -> Completion string := ToString.

(** [items.map(f)], for a callback that can throw. *)
Fixpoint array_map (f : JsVal -> Completion JsVal) (items : list JsVal)
  : Completion (list JsVal) :=
  match items with
  | [] => Normal []
  | x :: rest =>
      let? y := f x in
      let? ys := array_map f rest in
      Normal (y :: ys)
  end.

(** [v.map(f)]: only an array has a [map] to call. *)
Definition call_map (v : JsVal) (f : JsVal -> Completion JsVal) : Completion JsVal :=
  match v with
  | JArr items => let? r := array_map f items in Normal (JArr r)
  | _ => Throw TypeError
  end.

(** The names every object inherits from [Object.prototype]. *)
Definition Object_prototype_names : list string :=
  ["constructor"; "__defineGetter__"; "__defineSetter__"; "hasOwnProperty";
   "__lookupGetter__"; "__lookupSetter__"; "isPrototypeOf";
   "propertyIsEnumerable"; "toString"; "valueOf"; "__proto__";
   "toLocaleString"].

(** What [obj[key]] finds in an object used as a map: a property of its
    own, else what [Object.prototype] has under that name (a function, or
    the prototype itself for [__proto__]), else [undefined]. *)
Inductive Found : Type :=
| Own (v : JsVal)
| Inherited
| Absent.

Definition find_in (obj : gmap string JsVal) (key : string) : Found :=
  match obj !! key with
  | Some v => Own v
  | None => if bool_decide (key ∈ Object_prototype_names) then Inherited else Absent
  end.

(** [{...obj[key]}]: a built-in function and [Object.prototype] have no
    enumerable property. *)
Definition spread_found (f : Found) : list (string * JsVal) :=
  match f with
  | Own v => own_enumerable v
  | Inherited | Absent => []
  end.

End Objects.

(** ** The state of useWorkflow and the messages that update it

    [frontend/src/hooks/useWorkflow.ts].  The hook keeps [workflows], an
    object used as a map from workflow identifiers to workflow records,
    [currentWorkflow], [hitlCheckpoints] and [error].  A handler does not
    change them: it queues updates, most of them functions of the
    previous state, which are run afterwards, one after the other. *)
Module WorkflowUpdates.
Import Objects.

Record View : Type := {
  workflows : gmap string JsVal;
  currentWorkflow : JsVal;
  hitlCheckpoints : list JsVal;
  error : JsVal
}.

(** [useState({})], [useState(null)], [useState([])], [useState(null)] *)
Definition initial : View :=
  {| workflows := ∅; currentWorkflow := JNull; hitlCheckpoints := []; error := JNull |}.

(** A queued update. *)
Inductive Update : Type :=
| setWorkflows (updater : gmap string JsVal -> Eff World (gmap string JsVal))
| setCurrentWorkflow (updater : JsVal -> Eff World JsVal)
| setHitlCheckpoints (updater : list JsVal -> Eff World (list JsVal))
| setError (value : JsVal).

(** Running one queued update on the state. *)
Definition apply_update (u : Update) (v : View) : Eff World View :=
  match u with
  | setWorkflows updater =>
      let! next := updater (workflows v) in
      ret {| workflows := next; currentWorkflow := currentWorkflow v;
             hitlCheckpoints := hitlCheckpoints v; error := error v |}
  | setCurrentWorkflow updater =>
      let! next := updater (currentWorkflow v) in
      ret {| workflows := workflows v; currentWorkflow := next;
             hitlCheckpoints := hitlCheckpoints v; error := error v |}
  | setHitlCheckpoints updater =>
      let! next := updater (hitlCheckpoints v) in
      ret {| workflows := workflows v; currentWorkflow := currentWorkflow v;
             hitlCheckpoints := next; error := error v |}
  | setError value =>
      ret {| workflows := workflows v; currentWorkflow := currentWorkflow v;
             hitlCheckpoints := hitlCheckpoints v; error := value |}
  end.

(** Running the queued updates in the order of their calls. *)
Fixpoint apply_updates (us : list Update) (v : View) : Eff World View :=
  match us with
  | [] => ret v
  | u :: rest => let! v' := apply_update u v in apply_updates rest v'
  end.

(** *** handleWorkflowStatusUpdate *)

(** [prev => ({ ...prev, [workflow_id]: { ...prev[workflow_id], workflowId:
    workflow_id, status, currentStep: current_step, progress, updatedAt:
    new Date().toISOString() } })] *)
Definition handleWorkflowStatusUpdate_workflows
    (workflow_id status current_step progress : JsVal)
    (prev : gmap string JsVal) : Eff World (gmap string JsVal) :=
  let! key := lift (ToPropertyKey workflow_id) in
  let! updatedAt := Date_new_toISOString in
  ret (<[key := JObj (with_props (spread_found (find_in prev key))
                        [("workflowId", workflow_id); ("status", status);
                         ("currentStep", current_step); ("progress", progress);
                         ("updatedAt", JStr updatedAt)])]> prev).

(** [prev => prev ? { ...prev, status, currentStep: current_step, progress,
    updatedAt: new Date().toISOString() } : null] *)
Definition handleWorkflowStatusUpdate_current (status current_step progress : JsVal)
    (prev : JsVal) : Eff World JsVal :=
  if truthy prev then
    let! updatedAt := Date_new_toISOString in
    ret (JObj (with_props (own_enumerable prev)
                 [("status", status); ("currentStep", current_step);
                  ("progress", progress); ("updatedAt", JStr updatedAt)]))
  else ret JNull.

(** [handleWorkflowStatusUpdate(data)]; [seen] is the [currentWorkflow] of
    the render the callback was made in. *)
Definition handleWorkflowStatusUpdate (seen : JsVal) (data : JsVal)
  : Eff World (list Update) :=
  let! workflow_id := lift (get data "workflow_id") in
  let status := get_own data "status" in
  let current_step := get_own data "current_step" in
  let progress := get_own data "progress" in
  ret (setWorkflows
         (handleWorkflowStatusUpdate_workflows workflow_id status current_step progress)
       :: if strict_equal (optional_get seen "workflowId") workflow_id
          then [setCurrentWorkflow
                  (handleWorkflowStatusUpdate_current status current_step progress)]
          else []).

(** *** handleWorkflowStepComplete *)

(** [step => step.name === step_name ? { ...step, status: 'completed',
    result } : step] *)
Definition complete_step (step_name result : JsVal) (step : JsVal) : Completion JsVal :=
  let? name := get step "name" in
  Normal (if strict_equal name step_name
          then JObj (with_props (own_enumerable step)
                       [("status", JStr "completed"); ("result", result)])
          else step).

(** The updater of [workflows]: [prev] itself when [prev[workflow_id]] is
    falsy. *)
Definition handleWorkflowStepComplete_workflows (workflow_id step_name result : JsVal)
    (prev : gmap string JsVal) : Eff World (gmap string JsVal) :=
  let! key := lift (ToPropertyKey workflow_id) in
  match find_in prev key with
  | Absent => ret prev
  | Inherited => throw TypeError
  | Own workflow =>
      if truthy workflow then
        let! updatedSteps :=
          lift (call_map (get_own workflow "steps") (complete_step step_name result)) in
        let! updatedAt := Date_new_toISOString in
        ret (<[key := JObj (with_props (own_enumerable workflow)
                              [("steps", updatedSteps);
                               ("updatedAt", JStr updatedAt)])]> prev)
      else ret prev
  end.

(** The updater of [currentWorkflow]. *)
Definition handleWorkflowStepComplete_current (step_name result : JsVal)
    (prev : JsVal) : Eff World JsVal :=
  if truthy prev then
    let! updatedSteps :=
      lift (call_map (get_own prev "steps") (complete_step step_name result)) in
    let! updatedAt := Date_new_toISOString in
    ret (JObj (with_props (own_enumerable prev)
                 [("steps", updatedSteps); ("updatedAt", JStr updatedAt)]))
  else ret JNull.

(** [handleWorkflowStepComplete(data)] *)
Definition handleWorkflowStepComplete (seen : JsVal) (data : JsVal)
  : Eff World (list Update) :=
  let! workflow_id := lift (get data "workflow_id") in
  let step_name := get_own data "step_name" in
  let result := get_own data "result" in
  ret (setWorkflows (handleWorkflowStepComplete_workflows workflow_id step_name result)
       :: if strict_equal (optional_get seen "workflowId") workflow_id
          then [setCurrentWorkflow (handleWorkflowStepComplete_current step_name result)]
          else []).

(** *** handleHITLCheckpointCreated *)

(** [const newCheckpoint = { checkpointId: checkpoint_id, workflowId:
    workflow_id, checkpointType: checkpoint_data.checkpoint_type ||
    'quality_review', status: 'pending', checkpointData: checkpoint_data,
    createdAt: new Date().toISOString() }], the property of
    [checkpoint_data] and the clock read. *)
Definition newCheckpoint (workflow_id checkpoint_id checkpoint_data checkpoint_type : JsVal)
    (createdAt : string) : JsVal :=
  JObj [("checkpointId", checkpoint_id);
        ("workflowId", workflow_id);
        ("checkpointType",
         if truthy checkpoint_type then checkpoint_type else JStr "quality_review");
        ("status", JStr "pending");
        ("checkpointData", checkpoint_data);
        ("createdAt", JStr createdAt)].

(** [handleHITLCheckpointCreated(data)]: the checkpoint is built, and the
    clock read, when the message is handled. *)
Definition handleHITLCheckpointCreated (data : JsVal) : Eff World (list Update) :=
  let! workflow_id := lift (get data "workflow_id") in
  let checkpoint_id := get_own data "checkpoint_id" in
  let checkpoint_data := get_own data "checkpoint_data" in
  let! checkpoint_type := lift (get checkpoint_data "checkpoint_type") in
  let! createdAt := Date_new_toISOString in
  let checkpoint :=
    newCheckpoint workflow_id checkpoint_id checkpoint_data checkpoint_type createdAt in
  ret [setHitlCheckpoints (fun prev => ret (prev ++ [checkpoint])%list)].

(** *** handleWorkflowError *)

(** [prev => ({ ...prev, [workflow_id]: { ...prev[workflow_id], status:
    'failed', updatedAt: new Date().toISOString() } })] *)
Definition handleWorkflowError_workflows (workflow_id : JsVal)
    (prev : gmap string JsVal) : Eff World (gmap string JsVal) :=
  let! key := lift (ToPropertyKey workflow_id) in
  let! updatedAt := Date_new_toISOString in
  ret (<[key := JObj (with_props (spread_found (find_in prev key))
                        [("status", JStr "failed");
                         ("updatedAt", JStr updatedAt)])]> prev).

(** [prev => prev ? { ...prev, status: 'failed', updatedAt: new
    Date().toISOString() } : null] *)
Definition handleWorkflowError_current (prev : JsVal) : Eff World JsVal :=
  if truthy prev then
    let! updatedAt := Date_new_toISOString in
    ret (JObj (with_props (own_enumerable prev)
                 [("status", JStr "failed"); ("updatedAt", JStr updatedAt)]))
  else ret JNull.

(** [handleWorkflowError(data)] *)
Definition handleWorkflowError (seen : JsVal) (data : JsVal) : Eff World (list Update) :=
  let! workflow_id := lift (get data "workflow_id") in
  let errorMessage := get_own data "error" in
  ret (setError errorMessage
       :: setWorkflows (handleWorkflowError_workflows workflow_id)
       :: if strict_equal (optional_get seen "workflowId") workflow_id
          then [setCurrentWorkflow handleWorkflowError_current]
          else []).

(** *** handleWebSocketMessage *)

(** [handleWebSocketMessage(message)]: the [switch] on [message.type]. *)
Definition handleWebSocketMessage (seen : JsVal) (message : JsVal)
  : Eff World (list Update) :=
  let! type := lift (get message "type") in
  let data := get_own message "data" in
  if is_string type (MessageType_value WORKFLOW_STATUS_UPDATE) then
    handleWorkflowStatusUpdate seen data
  else if is_string type (MessageType_value WORKFLOW_STEP_COMPLETE) then
    handleWorkflowStepComplete seen data
  else if is_string type (MessageType_value HITL_CHECKPOINT_CREATED) then
    handleHITLCheckpointCreated data
  else if is_string type (MessageType_value WORKFLOW_ERROR) then
    handleWorkflowError seen data
  else ret [].

(** A message as it is delivered to the hook: the [currentWorkflow] its
    callback has seen, the page at the moment it is handled, and the page
    at the render that follows, when the queued updates are run (the
    updaters read the clock then). *)
Record Delivery : Type := {
  seen : JsVal;
  message : JsVal;
  arrival : World;
  render : World
}.

(** A message handled and the updates it queued run. *)
Definition receive (d : Delivery) (v : View) : Completion View :=
  let? updates := fst (handleWebSocketMessage (seen d) (message d) (arrival d)) in
  fst (apply_updates updates v (render d)).

(** Messages handled one after the other. *)
Fixpoint receive_all (deliveries : list Delivery) (v : View) : Completion View :=
  match deliveries with
  | [] => Normal v
  | d :: rest => let? v' := receive d v in receive_all rest v'
  end.

(** Two steps, objects both, of one name. *)
Definition same_step (step step' : JsVal) : Prop :=
  exists props props',
    step = JObj props /\ step' = JObj props'
    /\ lookup "name" props' = lookup "name" props.

(** The map holds, under [key], a record whose steps are those of
    [steps], one for one. *)
Definition holds_steps (key : string) (steps : list JsVal) (m : gmap string JsVal) : Prop :=
  exists record steps',
    m !! key = Some (JObj record)
    /\ lookup "steps" record = Some (JArr steps')
    /\ Forall2 same_step steps steps'.

(** *** respondToHITL *)

(** The update [respondToHITL(checkpointId, response)] queues once the
    server has accepted the response: [prev => prev.map(checkpoint =>
    checkpoint.checkpointId === checkpointId ? { ...checkpoint, status:
    'completed' } : checkpoint)]. *)
Definition respondToHITL_checkpoints (checkpointId : string) (prev : list JsVal)
  : Completion (list JsVal) :=
  array_map (fun checkpoint =>
               let? id := get checkpoint "checkpointId" in
               Normal (if is_string id checkpointId
                       then JObj (with_props (own_enumerable checkpoint)
                                    [("status", JStr "completed")])
                       else checkpoint))
            prev.

End WorkflowUpdates.

(** ** The simulation state

    [useSimulationState(projectId)]: the state is the one the agent
    framework holds; the hook's functions queue updates of it. *)
Module SimulationState.
Import Objects.

(** The update [updateSimulationState(updates)] queues: [prevState => ({
    ...prevState, ...updates, lastUpdated: new Date().toISOString() })]. *)
Definition updateSimulationState (updates : JsVal) (prevState : JsVal) : Eff World JsVal :=
  let! lastUpdated := Date_new_toISOString in
  ret (JObj (with_props (with_props (own_enumerable prevState) (own_enumerable updates))
               [("lastUpdated", JStr lastUpdated)])).

(** [addError(step, error)], called in a render whose state is [state]:
    the update it queues. *)
Definition addError (state : JsVal) (step error : string)
  : Eff World (JsVal -> Eff World JsVal) :=
  let! errors := lift (get state "errors") in
  let! items := lift (iterate errors) in
  let! timestamp := Date_new_toISOString in
  ret (updateSimulationState
         (JObj [("errors",
                 JArr (items ++ [JObj [("step", JStr step); ("error", JStr error);
                                       ("timestamp", JStr timestamp)]])%list)])).

(** [addWarning(step, warning)] *)
Definition addWarning (state : JsVal) (step warning : string)
  : Eff World (JsVal -> Eff World JsVal) :=
  let! warnings := lift (get state "warnings") in
  let! items := lift (iterate warnings) in
  let! timestamp := Date_new_toISOString in
  ret (updateSimulationState
         (JObj [("warnings",
                 JArr (items ++ [JObj [("step", JStr step); ("warning", JStr warning);
                                       ("timestamp", JStr timestamp)]])%list)])).

(** [clearErrors()] and [clearWarnings()] *)
Definition clearErrors : JsVal -> Eff World JsVal :=
  updateSimulationState (JObj [("errors", JArr [])]).

Definition clearWarnings : JsVal -> Eff World JsVal :=
  updateSimulationState (JObj [("warnings", JArr [])]).

(** The state [resetSimulationState()] sets, and the hook starts from. *)
Definition initialState (projectId : string) : JsVal :=
  JObj [("projectId", JStr projectId); ("userGoal", JStr "");
        ("physicsType", JStr "cfd"); ("cadFiles", JArr []);
        ("geometryStatus", JStr "pending"); ("meshStatus", JStr "pending");
        ("materialsStatus", JStr "pending"); ("physicsStatus", JStr "pending");
        ("currentStep", JStr "initialization"); ("completedSteps", JArr []);
        ("progress", JNum 0); ("isProcessing", JBool false);
        ("errors", JArr []); ("warnings", JArr []);
        ("iterationCount", JNum 0); ("maxIterations", JNum 3)].

End SimulationState.


(* ===================================================================== *)
(** * Part II: facts *)
(* ===================================================================== *)

(** ** JSON text: reading back what was written *)
Module JsonFacts.
Import Json.

Lemma string_app_assoc (a b c : string) : (a ++ b) ++ c = a ++ (b ++ c).
Proof. induction a; simpl; congruence. Qed.

Lemma parse_chars_escape_char (c : ascii) (s : string) :
  parse_chars (escape_char c ++ s) = with_char c (parse_chars s).
Proof.
  destruct c as [[] [] [] [] [] [] [] []]; reflexivity.
Qed.

Lemma parse_chars_escape (s rest : string) :
  parse_chars (escape s ++ String dquote rest) = Some (s, rest).
Proof.
  induction s as [|c s IH]; simpl.
  - reflexivity.
  - rewrite string_app_assoc, parse_chars_escape_char, IH. reflexivity.
Qed.

Lemma boundary_no_digit (s : string) :
  boundary s = true -> scan_digits s = (Nil, s) /\ starts_fraction s = false.
Proof.
  destruct s as [|c s]; [easy|].
  unfold boundary. intros H. simpl.
  unfold digit_of, starts_fraction.
  destruct (N_of_ascii c =? 44)%N eqn:E1.
  { apply N.eqb_eq in E1. rewrite E1. easy. }
  destruct (N_of_ascii c =? 93)%N eqn:E2.
  { apply N.eqb_eq in E2. rewrite E2. easy. }
  destruct (N_of_ascii c =? 125)%N eqn:E3; [|easy].
  apply N.eqb_eq in E3. rewrite E3. easy.
Qed.

Lemma scan_digits_text (u : uint) (rest : string) :
  boundary rest = true ->
  scan_digits (NilEmpty.string_of_uint u ++ rest) = (u, rest).
Proof.
  intros H. induction u; simpl; try (rewrite IHu; reflexivity).
  apply boundary_no_digit, H.
Qed.

Lemma unorm_to_uint (p : positive) : unorm (Pos.to_uint p) = Pos.to_uint p.
Proof.
  pose proof (DecimalZ.to_of (Z.to_int (Z.pos p))) as H.
  rewrite DecimalZ.of_to in H. simpl in H. congruence.
Qed.

Lemma to_uint_text (p : positive) :
  NilZero.string_of_uint (Pos.to_uint p) = NilEmpty.string_of_uint (Pos.to_uint p).
Proof.
  pose proof (unorm_to_uint p) as H.
  destruct (Pos.to_uint p) eqn:E; try reflexivity.
  discriminate H.
Qed.

Lemma parse_digits_to_uint (neg : bool) (p : positive) (rest : string) :
  boundary rest = true ->
  parse_digits neg (NilEmpty.string_of_uint (Pos.to_uint p) ++ rest)
  = Some (JNum (Z.of_int (if neg then Neg (Pos.to_uint p) else Pos (Pos.to_uint p))), rest).
Proof.
  intros H. unfold parse_digits. rewrite scan_digits_text by exact H.
  destruct (uint_eq_dec _ _) as [_|Hn].
  - destruct (boundary_no_digit _ H) as [_ ->]. reflexivity.
  - destruct Hn. apply unorm_to_uint.
Qed.


Lemma parse_number_digits (u : uint) (rest : string) :
  u <> Nil ->
  parse_number (NilEmpty.string_of_uint u ++ rest)
  = parse_digits false (NilEmpty.string_of_uint u ++ rest).
Proof. destruct u; intros H; try reflexivity. now destruct H. Qed.

Lemma to_uint_not_nil (p : positive) : Pos.to_uint p <> Nil.
Proof.
  intros E. pose proof (unorm_to_uint p) as H. rewrite E in H. discriminate H.
Qed.

Lemma parse_number_text (n : Z) (rest : string) :
  boundary rest = true ->
  parse_number (number_text n ++ rest) = Some (JNum n, rest).
Proof.
  intros H. unfold number_text.
  pose proof (DecimalZ.of_to n) as Hz.
  destruct n as [|p|p]; simpl Z.to_int in *; simpl NilZero.string_of_int.
  - simpl. unfold parse_digits. simpl.
    destruct (boundary_no_digit _ H) as [-> ->]. reflexivity.
  - rewrite to_uint_text, parse_number_digits by apply to_uint_not_nil.
    rewrite parse_digits_to_uint by exact H. now rewrite Hz.
  - rewrite to_uint_text. simpl.
    rewrite parse_digits_to_uint by exact H. now rewrite Hz.
Qed.

Lemma number_text_opens (n : Z) (rest : string) : opens_value (number_text n ++ rest).
Proof.
  unfold number_text. destruct n as [|p|p]; simpl Z.to_int; simpl NilZero.string_of_int.
  - simpl. auto.
  - rewrite to_uint_text. pose proof (to_uint_not_nil p).
    destruct (Pos.to_uint p); simpl; auto. contradiction.
  - simpl. auto.
Qed.

Lemma parse_value_number (fuel : nat) (n : Z) (rest : string) :
  boundary rest = true ->
  parse_value (S fuel) (number_text n ++ rest) = Some (JNum n, rest).
Proof.
  intros H. rewrite <- (parse_number_text n rest H).
  unfold number_text. destruct n as [|p|p]; simpl Z.to_int; simpl NilZero.string_of_int.
  - reflexivity.
  - rewrite to_uint_text. pose proof (to_uint_not_nil p).
    destruct (Pos.to_uint p); try reflexivity. contradiction.
  - reflexivity.
Qed.

Lemma stringify_arr (items : list JsVal) :
  stringify (JArr items) = Some ("[" ++ join "," (List.map element_text items) ++ "]").
Proof. reflexivity. Qed.

Lemma stringify_obj (props : list (string * JsVal)) :
  stringify (JObj props) = Some ("{" ++ join "," (member_texts props) ++ "}").
Proof.
  reflexivity.
Qed.

Lemma serializable_arr (items : list JsVal) :
  serializable (JArr items) <-> Forall serializable items.
Proof.
  simpl. induction items as [|x r IH].
  - split; auto.
  - split.
    + intros [H1 H2]. constructor; [exact H1 | apply IH, H2].
    + intros H. inversion H; subst. split; [assumption | apply IH; assumption].
Qed.

Lemma serializable_obj (props : list (string * JsVal)) :
  serializable (JObj props) <-> Forall (fun kv => serializable (snd kv)) props.
Proof.
  simpl. induction props as [|[k x] r IH].
  - split; auto.
  - split.
    + intros [H1 H2]. constructor; [exact H1 | apply IH, H2].
    + intros H. inversion H; subst. split; [assumption | apply IH; assumption].
Qed.

Lemma wf_arr (items : list JsVal) : wf (JArr items) <-> Forall wf items.
Proof.
  simpl. induction items as [|x r IH].
  - split; auto.
  - split.
    + intros [H1 H2]. constructor; [exact H1 | apply IH, H2].
    + intros H. inversion H; subst. split; [assumption | apply IH; assumption].
Qed.

Lemma wf_obj (props : list (string * JsVal)) :
  wf (JObj props) <->
  NoDup (List.map fst props) /\ Forall (fun kv => wf (snd kv)) props.
Proof.
  simpl. apply and_iff_compat_l. induction props as [|[k x] r IH].
  - split; auto.
  - split.
    + intros [H1 H2]. constructor; [exact H1 | apply IH, H2].
    + intros H. inversion H; subst. split; [assumption | apply IH; assumption].
Qed.

Lemma serializable_has_text (v : JsVal) :
  serializable v -> exists t, stringify v = Some t.
Proof.
  destruct v as [| |[]| | | |]; simpl; try (intros; eexists; reflexivity).
  contradiction.
Qed.

Lemma length_app (a b : string) :
  String.length (a ++ b) = (String.length a + String.length b)%nat.
Proof. induction a; simpl; auto. Qed.

Lemma app_empty_r (a : string) : a ++ "" = a.
Proof. induction a; simpl; congruence. Qed.

(** The text of a value opens with a character that starts a value. *)
Lemma stringify_opens (v : JsVal) (t rest : string) :
  stringify v = Some t -> opens_value (t ++ rest).
Proof.
  destruct v as [| |[]| | | |]; simpl; intros H; try discriminate H;
    injection H as <-; try (simpl; auto; fail).
  apply number_text_opens.
Qed.

Lemma skip_ws_opens (s : string) : opens_value s -> skip_ws s = s.
Proof. destruct s as [|c s]; simpl; [easy|]. intros [-> _]. reflexivity. Qed.

Lemma set_prop_fresh (acc : list (string * JsVal)) (k : string) (x : JsVal) :
  k ∉ List.map fst acc -> set_prop acc k x = (acc ++ [(k, x)])%list.
Proof.
  induction acc as [|[k' v] r IH]; simpl; intros H; [reflexivity|].
  apply not_elem_of_cons in H as [Hne H].
  destruct (String.eqb_spec k k') as [->|_]; [contradiction|].
  now rewrite IH.
Qed.

Lemma fold_set_prop (props acc : list (string * JsVal)) :
  NoDup (List.map fst (acc ++ props)%list) ->
  fold_left (fun a kv => set_prop a (fst kv) (snd kv)) props acc = (acc ++ props)%list.
Proof.
  revert acc. induction props as [|[k x] r IH]; intros acc H; simpl.
  - now rewrite List.app_nil_r.
  - rewrite set_prop_fresh.
    + rewrite IH; rewrite <- List.app_assoc; [reflexivity | exact H].
    + rewrite List.map_app in H. simpl in H.
      apply NoDup_app in H as (_ & H & _). intros Hin.
      apply (H k Hin). now left.
Qed.

(** The equations of the parser at the texts [stringify] writes. *)
Lemma parse_value_arr (fuel : nat) (r : string) :
  parse_value (S fuel) (String "[" r) =
  match skip_ws r with
  | String c1 r1 as body =>
      if (N_of_ascii c1 =? 93)%N then Some (JArr [], r1)
      else match parse_elements fuel body with
           | Some (items, rest) => Some (JArr items, rest)
           | None => None
           end
  | "" => None
  end.
Proof. reflexivity. Qed.

Lemma parse_value_obj (fuel : nat) (r : string) :
  parse_value (S fuel) (String "{" r) =
  match skip_ws r with
  | String c1 r1 as body =>
      if (N_of_ascii c1 =? 125)%N then Some (JObj [], r1)
      else match parse_members fuel body with
           | Some (members, rest) =>
               Some (JObj (fold_left (fun acc kv => set_prop acc (fst kv) (snd kv))
                                     members []), rest)
           | None => None
           end
  | "" => None
  end.
Proof. reflexivity. Qed.

Lemma parse_value_str (fuel : nat) (r : string) :
  parse_value (S fuel) (String dquote r) =
  match parse_chars r with
  | Some (t, rest) => Some (JStr t, rest)
  | None => None
  end.
Proof. reflexivity. Qed.

Lemma parse_elements_eq (fuel : nat) (s : string) :
  parse_elements (S fuel) s =
  match parse_value fuel s with
  | Some (v, r) =>
      match skip_ws r with
      | String c r1 =>
          if (N_of_ascii c =? 44)%N then
            match parse_elements fuel r1 with
            | Some (vs, rest) => Some (v :: vs, rest)
            | None => None
            end
          else if (N_of_ascii c =? 93)%N then Some ([v], r1)
          else None
      | "" => None
      end
  | None => None
  end.
Proof. reflexivity. Qed.

Lemma parse_members_eq (fuel : nat) (r : string) :
  parse_members (S fuel) (String dquote r) =
  match parse_chars r with
  | Some (k, r1) =>
      match skip_ws r1 with
      | String colon r2 =>
          if (N_of_ascii colon =? 58)%N then
            match parse_value fuel r2 with
            | Some (v, r3) =>
                match skip_ws r3 with
                | String c r4 =>
                    if (N_of_ascii c =? 44)%N then
                      match parse_members fuel r4 with
                      | Some (ms, rest) => Some ((k, v) :: ms, rest)
                      | None => None
                      end
                    else if (N_of_ascii c =? 125)%N then Some ([(k, v)], r4)
                    else None
                | "" => None
                end
            | None => None
            end
          else None
      | "" => None
      end
  | None => None
  end.
Proof. reflexivity. Qed.

Lemma element_text_serializable (x : JsVal) :
  serializable x -> stringify x = Some (element_text x).
Proof.
  intros H. destruct (serializable_has_text x H) as [t Ht].
  unfold element_text. now rewrite Ht.
Qed.

Lemma parse_elements_texts (items : list JsVal) :
  items <> [] ->
  Forall reads_back items -> Forall serializable items -> Forall wf items ->
  forall fuel rest,
    2 * String.length (join "," (List.map element_text items)) + 1 <= fuel ->
    parse_elements fuel (join "," (List.map element_text items) ++ "]" ++ rest)
    = Some (items, rest).
Proof.
  induction items as [|x r IH]; [congruence|].
  intros _ Hrb Hs Hw fuel rest Hfuel.
  apply Forall_cons in Hrb as [Hx Hrb].
  apply Forall_cons in Hs as [Hsx Hs].
  apply Forall_cons in Hw as [Hwx Hw].
  destruct fuel as [|fuel]; [lia|].
  rewrite parse_elements_eq.
  destruct r as [|y r].
  - simpl List.map in *. simpl join in *.
    rewrite (Hx Hsx Hwx _ (element_text_serializable x Hsx)); [|lia|reflexivity].
    reflexivity.
  - specialize (IH ltac:(congruence) Hrb Hs Hw).
    change (join "," (List.map element_text (x :: y :: r)))
      with (element_text x ++ "," ++ join "," (List.map element_text (y :: r))) in *.
    remember (join "," (List.map element_text (y :: r))) as J eqn:EJ. clear EJ.
    rewrite !length_app in Hfuel. change (String.length ",") with 1%nat in Hfuel.
    rewrite !string_app_assoc.
    rewrite (Hx Hsx Hwx _ (element_text_serializable x Hsx)); [|lia|reflexivity].
    change ("," ++ J ++ "]" ++ rest) with (String "," (J ++ "]" ++ rest)).
    cbn [skip_ws is_ws]. change (is_ws ",") with false. cbv iota.
    change (N_of_ascii "," =? 44)%N with true. cbv iota.
    rewrite IH by lia. reflexivity.
Qed.

Lemma app_cons (c : ascii) (a b : string) : String c a ++ b = String c (a ++ b).
Proof. reflexivity. Qed.

Lemma quote_app (k rest : string) :
  quote k ++ rest = String dquote (escape k ++ String dquote rest).
Proof. unfold quote. simpl. now rewrite string_app_assoc. Qed.

Lemma member_texts_cons (k : string) (x : JsVal) (r : list (string * JsVal)) :
  serializable x ->
  member_texts ((k, x) :: r) = (quote k ++ ":" ++ element_text x) :: member_texts r.
Proof.
  intros H. simpl. rewrite (element_text_serializable x H). reflexivity.
Qed.

Lemma parse_members_texts (props : list (string * JsVal)) :
  props <> [] ->
  Forall (fun kv => reads_back (snd kv)) props ->
  Forall (fun kv => serializable (snd kv)) props ->
  Forall (fun kv => wf (snd kv)) props ->
  forall fuel rest,
    2 * String.length (join "," (member_texts props)) + 1 <= fuel ->
    parse_members fuel (join "," (member_texts props) ++ "}" ++ rest)
    = Some (props, rest).
Proof.
  induction props as [|[k x] r IH]; [congruence|].
  intros _ Hrb Hs Hw fuel rest Hfuel.
  apply Forall_cons in Hrb as [Hx Hrb].
  apply Forall_cons in Hs as [Hsx Hs].
  apply Forall_cons in Hw as [Hwx Hw].
  simpl snd in *.
  destruct fuel as [|fuel]; [lia|].
  rewrite member_texts_cons in * by exact Hsx.
  pose proof (element_text_serializable x Hsx) as Ht.
  destruct r as [|[k' y] r].
  - change (member_texts []) with (@nil string) in *.
    change (join "," [quote k ++ ":" ++ element_text x])
      with (quote k ++ ":" ++ element_text x) in *.
    rewrite !length_app in Hfuel.
    rewrite !string_app_assoc, quote_app, parse_members_eq, parse_chars_escape.
    change (":" ++ element_text x ++ "}" ++ rest)
      with (String ":" (element_text x ++ "}" ++ rest)).
    cbn [skip_ws]. change (is_ws ":") with false. cbv iota.
    change (N_of_ascii ":" =? 58)%N with true. cbv iota.
    rewrite (Hx Hsx Hwx _ Ht); [|lia|reflexivity].
    reflexivity.
  - specialize (IH ltac:(congruence) Hrb Hs Hw).
    apply Forall_cons in Hs as [Hsy _]. simpl snd in Hsy.
    rewrite member_texts_cons in * by exact Hsy.
    remember ((quote k' ++ ":" ++ element_text y) :: member_texts r) as ms eqn:Ems.
    change (join "," ((quote k ++ ":" ++ element_text x) :: ms))
      with (match ms with
            | [] => quote k ++ ":" ++ element_text x
            | _ :: _ => (quote k ++ ":" ++ element_text x) ++ "," ++ join "," ms
            end) in *.
    rewrite Ems in Hfuel |- * at 1. rewrite <- Ems in *.
    remember (join "," ms) as J eqn:EJ. clear EJ Ems.
    rewrite !length_app in Hfuel. change (String.length ",") with 1%nat in Hfuel.
    rewrite !string_app_assoc.
    rewrite quote_app, parse_members_eq, parse_chars_escape.
    change (":" ++ element_text x ++ "," ++ J ++ "}" ++ rest)
      with (String ":" (element_text x ++ "," ++ J ++ "}" ++ rest)).
    cbn [skip_ws]. change (is_ws ":") with false. cbv iota.
    change (N_of_ascii ":" =? 58)%N with true. cbv iota.
    rewrite (Hx Hsx Hwx _ Ht); [|lia|reflexivity].
    change ("," ++ J ++ "}" ++ rest) with (String "," (J ++ "}" ++ rest)).
    cbn [skip_ws]. change (is_ws ",") with false. cbv iota.
    change (N_of_ascii "," =? 44)%N with true. cbv iota.
    rewrite IH by lia. reflexivity.
Qed.

Lemma join_opens (x : JsVal) (r : list string) (rest : string) :
  serializable x -> opens_value (join "," (element_text x :: r) ++ rest).
Proof.
  intros H. pose proof (element_text_serializable x H) as Ht.
  destruct r as [|y r].
  - apply (stringify_opens x), Ht.
  - change (join "," (element_text x :: y :: r))
      with (element_text x ++ "," ++ join "," (y :: r)).
    rewrite string_app_assoc. apply (stringify_opens x), Ht.
Qed.

(** Reading back the text of a value. *)
Lemma parse_value_stringify (v : JsVal) : reads_back v.
Proof.
  induction v as [| |b|n|s|items IH|props IH] using JsVal_nested_ind;
    intros Hs Hw t Ht fuel rest Hfuel Hb.
  - contradiction.
  - injection Ht as <-. destruct fuel as [|fuel]; [simpl in Hfuel; lia|]. reflexivity.
  - destruct b; injection Ht as <-;
      (destruct fuel as [|fuel]; [simpl in Hfuel; lia|]); reflexivity.
  - injection Ht as <-.
    destruct fuel as [|fuel].
    + pose proof (number_text_opens n "") as Ho. rewrite app_empty_r in Ho.
      destruct (number_text n); [contradiction | simpl in Hfuel; lia].
    + apply parse_value_number, Hb.
  - injection Ht as <-. destruct fuel as [|fuel]; [simpl in Hfuel; lia|].
    rewrite quote_app, parse_value_str, parse_chars_escape. reflexivity.
  - rewrite stringify_arr in Ht. injection Ht as <-.
    apply serializable_arr in Hs. apply wf_arr in Hw.
    destruct fuel as [|fuel]; [simpl in Hfuel; lia|].
    destruct items as [|x r]; [reflexivity|].
    rewrite app_cons, string_app_assoc.
    change (String.length (String "[" (join "," (List.map element_text (x :: r)) ++ "]")))
      with (S (String.length (join "," (List.map element_text (x :: r)) ++ "]"))) in Hfuel.
    rewrite length_app in Hfuel.
    pose proof (parse_elements_texts (x :: r) ltac:(congruence) IH Hs Hw fuel rest
                  ltac:(lia)) as Hp.
    rewrite parse_value_arr.
    pose proof (join_opens x (List.map element_text r) ("]" ++ rest)
                  (Forall_inv Hs)) as Ho.
    change (element_text x :: List.map element_text r)
      with (List.map element_text (x :: r)) in Ho.
    rewrite (skip_ws_opens _ Ho).
    destruct (join "," (List.map element_text (x :: r)) ++ "]" ++ rest) as [|c body];
      [contradiction|].
    destruct Ho as (_ & -> & _). rewrite Hp. reflexivity.
  - rewrite stringify_obj in Ht. injection Ht as <-.
    apply serializable_obj in Hs. apply wf_obj in Hw as [Hnd Hw].
    destruct fuel as [|fuel]; [simpl in Hfuel; lia|].
    destruct props as [|[k x] r]; [reflexivity|].
    rewrite app_cons, string_app_assoc.
    change (String.length (String "{" (join "," (member_texts ((k, x) :: r)) ++ "}")))
      with (S (String.length (join "," (member_texts ((k, x) :: r)) ++ "}"))) in Hfuel.
    rewrite length_app in Hfuel.
    pose proof (parse_members_texts ((k, x) :: r) ltac:(congruence) IH Hs Hw fuel rest
                  ltac:(lia)) as Hp.
    rewrite parse_value_obj.
    assert (Ho : exists body, join "," (member_texts ((k, x) :: r)) ++ "}" ++ rest
                              = String dquote body).
    { rewrite member_texts_cons by exact (Forall_inv Hs).
      destruct (member_texts r) as [|m ms].
      - change (join "," [quote k ++ ":" ++ element_text x])
          with (quote k ++ ":" ++ element_text x).
        rewrite !string_app_assoc, quote_app. eauto.
      - change (join "," ((quote k ++ ":" ++ element_text x) :: m :: ms))
          with ((quote k ++ ":" ++ element_text x) ++ "," ++ join "," (m :: ms)).
        rewrite !string_app_assoc, quote_app. eauto. }
    destruct Ho as [body Ho]. rewrite Ho in *.
    change (skip_ws (String dquote body)) with (String dquote body).
    change (N_of_ascii dquote =? 125)%N with false. cbv iota.
    rewrite Hp, (fold_set_prop _ []); [reflexivity | exact Hnd].
Qed.

(** [JSON.parse(JSON.stringify(v))] is [v]. *)
Lemma parse_stringify (v : JsVal) (t : string) :
  serializable v -> wf v -> stringify v = Some t -> parse t = Normal v.
Proof.
  intros Hs Hw Ht. unfold parse.
  pose proof (parse_value_stringify v Hs Hw t Ht (2 * String.length t + 2) ""
                ltac:(lia) eq_refl) as H.
  rewrite app_empty_r in H. rewrite H. reflexivity.
Qed.
End JsonFacts.

(** ** JSON text: a text cut short *)
Module TruncationFacts.
Import Json JsonFacts.

Ltac unroll f :=
  let g := fresh "g" in
  match goal with
  | H : f (S ?n) ?s = Some _ |- f (S (S ?n)) ?s = Some _ =>
      cbn [f] in H; remember (S n) as g in |- *; cbn [f]; subst g
  end.

Ltac follow H :=
  repeat match type of H with
         | match ?x with _ => _ end = Some _ =>
             match x with
             | context [parse_value] => fail 1
             | context [parse_elements] => fail 1
             | context [parse_members] => fail 1
             | _ => destruct x
             end; try discriminate H; try exact H
         | (if ?b then _ else _) = Some _ =>
             destruct b; try discriminate H; try exact H
         end.

(** More fuel changes no result. *)
Lemma parse_fuel_step (fuel : nat) :
  (forall s r, parse_value fuel s = Some r -> parse_value (S fuel) s = Some r)
  /\ (forall s r, parse_elements fuel s = Some r -> parse_elements (S fuel) s = Some r)
  /\ (forall s r, parse_members fuel s = Some r -> parse_members (S fuel) s = Some r).
Proof.
  induction fuel as [|fuel (IHv & IHe & IHm)].
  - repeat split; intros s r H; discriminate H.
  - split; [|split]; intros s r H.
    + unroll parse_value. cbv zeta in *. follow H.
      * destruct (parse_elements fuel _) as [[items rest]|] eqn:E; [|discriminate H].
        now rewrite (IHe _ _ E).
      * destruct (parse_members fuel _) as [[ms rest]|] eqn:E; [|discriminate H].
        now rewrite (IHm _ _ E).
    + unroll parse_elements.
      destruct (parse_value fuel s) as [[v r0]|] eqn:E; [|discriminate H].
      rewrite (IHv _ _ E). follow H.
      destruct (parse_elements fuel _) as [[vs rest]|] eqn:E2; [|discriminate H].
      now rewrite (IHe _ _ E2).
    + unroll parse_members. follow H.
      destruct (parse_value fuel _) as [[v r3]|] eqn:E; [|discriminate H].
      rewrite (IHv _ _ E). follow H.
      destruct (parse_members fuel _) as [[ms rest]|] eqn:E2; [|discriminate H].
      now rewrite (IHm _ _ E2).
Qed.
Lemma parse_value_fuel (fuel fuel' : nat) (s : string) (r : JsVal * string) :
  fuel <= fuel' -> parse_value fuel s = Some r -> parse_value fuel' s = Some r.
Proof.
  intros Hle H. induction Hle as [|m _ IH]; [exact H|].
  now apply (proj1 (parse_fuel_step m)).
Qed.


Lemma app_split (p q a b : string) :
  p ++ q = a ++ b ->
  (exists m, a = p ++ m /\ q = m ++ b) \/ (exists m, m <> "" /\ p = a ++ m /\ b = m ++ q).
Proof.
  revert a. induction p as [|c p IH]; intros a H.
  - left. exists a. auto.
  - destruct a as [|d a].
    + right. exists (String c p). repeat split; [discriminate | exact (eq_sym H)].
    + cbn [String.append] in H. injection H as -> H.
      destruct (IH a H) as [(m & -> & ->) | (m & Hm & -> & ->)].
      * left. exists m. auto.
      * right. exists m. auto.
Qed.

Ltac chew :=
  match goal with
  | H : ?p ++ ?q = String _ _ |- _ =>
      destruct p as [|? p];
      [right; reflexivity
      | cbn [String.append] in H; injection H as -> H; chew]
  | H : ?p ++ ?q = ?rest |- _ =>
      left; eexists; split; [reflexivity | exact H]
  end.

(** A text cut inside the escape of a character is no string literal; a
    text cut after it goes on after it. *)
Lemma escape_char_cut (c : ascii) (p q rest : string) :
  p ++ q = escape_char c ++ rest ->
  (exists p', p = escape_char c ++ p' /\ p' ++ q = rest) \/ parse_chars p = None.
Proof.
  destruct c as [[] [] [] [] [] [] [] []]; intros H;
    match type of H with
    | context [escape_char ?c] =>
        let e := eval vm_compute in (escape_char c) in
        change (escape_char c) with e in *
    end;
    cbn [String.append] in H; chew.
Qed.

Lemma parse_chars_cut (s p q : string) :
  p ++ q = escape s -> parse_chars p = None.
Proof.
  revert p. induction s as [|c s IH]; intros p H.
  - destruct p; [reflexivity | discriminate H].
  - cbn [escape] in H.
    destruct (escape_char_cut c p q (escape s) H) as [(p' & -> & H') | Hnone];
      [|exact Hnone].
    rewrite parse_chars_escape_char, (IH p' H'). reflexivity.
Qed.


(** What reading a cut text can give: nothing, or, when the text was a
    number, a shorter number with nothing after it. *)
Lemma app_eq_empty (p q : string) : p ++ q = "" -> p = "" /\ q = "".
Proof. destruct p; [auto | discriminate]. Qed.

Lemma scan_digits_cut (u : uint) (p q : string) :
  p ++ q = NilEmpty.string_of_uint u -> exists u', scan_digits p = (u', "").
Proof.
  revert p. induction u; intros p H; cbn in H;
    (destruct p as [|c p]; [eexists; reflexivity|]);
    cbn [String.append] in H; try discriminate H; injection H as -> H;
    destruct (IHu p H) as [u' Hu']; cbn; rewrite Hu'; eexists; reflexivity.
Qed.

Lemma parse_digits_cut (negative : bool) (u : uint) (p q : string) (n : Z) :
  p ++ q = NilEmpty.string_of_uint u ->
  cut_result (JNum n) (parse_digits negative p).
Proof.
  intros H. destruct (scan_digits_cut u p q H) as [u' Hu'].
  unfold parse_digits. rewrite Hu'.
  destruct (uint_eq_dec (unorm u') u'); cbn; eauto.
Qed.

Lemma parse_value_digits (u : uint) (p q : string) (fuel : nat) :
  p ++ q = NilEmpty.string_of_uint u ->
  parse_value (S fuel) p = parse_digits false p.
Proof.
  intros H. destruct p as [|c p]; [reflexivity|].
  destruct u; cbn in H; try discriminate H; injection H as -> H; reflexivity.
Qed.

Lemma number_cut (n : Z) : cuts (JNum n).
Proof.
  intros _ _ t Ht p q Hq H fuel. injection Ht as <-.
  destruct fuel as [|fuel]; [exact I|].
  unfold number_text in H.
  destruct n as [|n|n]; cbn [Z.to_int NilZero.string_of_int] in H.
  - change (NilZero.string_of_uint zero) with "0" in H.
    destruct p as [|c p]; [exact I|]. cbn [String.append] in H. injection H as -> H.
    apply app_eq_empty in H as [-> ->]. now destruct Hq.
  - rewrite to_uint_text in H.
    rewrite (parse_value_digits _ _ _ fuel H).
    apply (parse_digits_cut false _ _ _ _ H).
  - rewrite to_uint_text in H.
    destruct p as [|c p]; [exact I|]. cbn [String.append] in H. injection H as -> H.
    change (parse_value (S fuel) (String "-" p)) with (parse_digits true p).
    apply (parse_digits_cut true _ _ _ _ H).
Qed.

Ltac chew_word :=
  match goal with
  | H : ?p ++ ?q = String _ _ |- _ =>
      destruct p as [|? p];
      [match goal with |- cut_result _ (parse_value ?f _) => destruct f; exact I end
      | cbn [String.append] in H; injection H as -> H; chew_word]
  | H : ?p ++ ?q = "", Hq : ?q <> "" |- _ =>
      apply app_eq_empty in H as [_ ->]; now destruct Hq
  end.

Lemma literal_cut (v : JsVal) :
  match v with JNull | JBool _ => True | _ => False end -> cuts v.
Proof.
  intros Hv _ _ t Ht p q Hq H fuel.
  destruct v as [| |[]| | | |]; try contradiction;
    injection Ht as <-; chew_word.
Qed.

Lemma string_cut (s : string) : cuts (JStr s).
Proof.
  intros _ _ t Ht p q Hq H fuel. injection Ht as <-.
  destruct fuel as [|fuel]; [exact I|].
  destruct p as [|c p]; [exact I|].
  unfold quote in H. cbn [String.append] in H. injection H as -> H.
  rewrite parse_value_str.
  destruct (app_split _ _ _ _ H) as [(m & Hm & _) | (m & Hm & -> & Hd)].
  - now rewrite (parse_chars_cut s p m (eq_sym Hm)).
  - destruct m as [|d m]; [now destruct Hm|].
    cbn [String.append] in Hd. injection Hd as _ Hd.
    symmetry in Hd. apply app_eq_empty in Hd as [_ ->]. now destruct Hq.
Qed.

(** A value followed by a separator, cut anywhere: nothing is read, or a
    shorter number up to the cut, or the value with the start of the
    separator left. *)
Lemma value_then_cut (x : JsVal) (tail p q : string) (fuel : nat) :
  cuts x -> serializable x -> wf x ->
  (forall m, (exists m', tail = m ++ m') -> boundary m = true) ->
  q <> "" -> p ++ q = element_text x ++ tail ->
  parse_value fuel p = None
  \/ (exists w, parse_value fuel p = Some (w, ""))
  \/ (exists m, m <> "" /\ parse_value fuel p = Some (x, m) /\ tail = m ++ q).
Proof.
  intros Hcut Hs Hw Htail Hq H.
  pose proof (element_text_serializable x Hs) as Ht.
  destruct (parse_value fuel p) as [[w rest]|] eqn:E; [|left; reflexivity].
  right.
  destruct (app_split _ _ _ _ H) as [(m & Hm & Hq') | (m & Hm & -> & Htl)].
  - destruct m as [|c m].
    + rewrite app_empty_r in Hm. subst p.
      pose proof (parse_value_stringify x Hs Hw _ Ht
                    (Nat.max fuel (2 * String.length (element_text x))) ""
                    (Nat.le_max_r _ _) eq_refl) as Hbig.
      rewrite app_empty_r in Hbig.
      rewrite (parse_value_fuel fuel _ _ _ (Nat.le_max_l _ _) E) in Hbig.
      injection Hbig as -> ->. left. eauto.
    + specialize (Hcut Hs Hw _ Ht p (String c m) ltac:(discriminate) (eq_sym Hm) fuel).
      rewrite E in Hcut. destruct Hcut as [-> _]. left. eauto.
  - assert (Hb : boundary m = true) by (apply Htail; eauto).
    pose proof (parse_value_stringify x Hs Hw _ Ht
                  (Nat.max fuel (2 * String.length (element_text x))) m
                  (Nat.le_max_r _ _) Hb) as Hbig.
    rewrite (parse_value_fuel fuel _ _ _ (Nat.le_max_l _ _) E) in Hbig.
    injection Hbig as -> ->. right. exists m. auto.
Qed.


Lemma boundary_of_prefix (c : ascii) (rest m : string) :
  boundary (String c rest) = true ->
  (exists m', String c rest = m ++ m') -> boundary m = true.
Proof.
  intros Hb [m' H]. destruct m as [|d m]; [reflexivity|].
  cbn [String.append] in H. injection H as <- _. exact Hb.
Qed.

Lemma join_cons (x : string) (r : list string) (close : string) :
  join "," (x :: r) ++ close
  = x ++ match r with [] => close | _ => String "," (join "," r ++ close) end.
Proof.
  destruct r as [|y r]; [reflexivity|].
  change (join "," (x :: y :: r)) with (x ++ "," ++ join "," (y :: r)).
  now rewrite !string_app_assoc.
Qed.

Lemma parse_elements_cut (items : list JsVal) :
  items <> [] ->
  Forall cuts items -> Forall serializable items -> Forall wf items ->
  forall p q, q <> "" ->
    p ++ q = join "," (List.map element_text items) ++ "]" ->
    forall fuel, parse_elements fuel p = None.
Proof.
  induction items as [|x r IH]; [congruence|].
  intros _ Hc Hs Hw p q Hq H fuel.
  apply Forall_cons in Hc as [Hcx Hc].
  apply Forall_cons in Hs as [Hsx Hs].
  apply Forall_cons in Hw as [Hwx Hw].
  destruct fuel as [|fuel]; [reflexivity|].
  rewrite parse_elements_eq.
  cbn [List.map] in H. rewrite join_cons in H.
  set (tail := match List.map element_text r with
               | [] => "]"
               | _ :: _ => String "," (join "," (List.map element_text r) ++ "]")
               end) in H.
  assert (Htail : forall m, (exists m', tail = m ++ m') -> boundary m = true).
  { intros m. subst tail. destruct (List.map element_text r);
      apply boundary_of_prefix; reflexivity. }
  destruct (value_then_cut x tail p q fuel Hcx Hsx Hwx Htail Hq H)
    as [-> | [(w & ->) | (m & Hm & -> & Htl)]]; try reflexivity.
  destruct m as [|c m]; [now destruct Hm|].
  subst tail. destruct r as [|y r].
  - cbn [List.map] in Htl. cbn [String.append] in Htl. injection Htl as <- Htl.
    symmetry in Htl. apply app_eq_empty in Htl as [_ ->]. now destruct Hq.
  - cbn [List.map] in Htl. cbn [String.append] in Htl. injection Htl as <- Htl.
    cbn [skip_ws]. change (is_ws ",") with false. cbv iota.
    change (N_of_ascii "," =? 44)%N with true. cbv iota.
    rewrite (IH ltac:(congruence) Hc Hs Hw m q Hq (eq_sym Htl) fuel). reflexivity.
Qed.

Lemma parse_members_cut (props : list (string * JsVal)) :
  props <> [] ->
  Forall (fun kv => cuts (snd kv)) props ->
  Forall (fun kv => serializable (snd kv)) props ->
  Forall (fun kv => wf (snd kv)) props ->
  forall p q, q <> "" ->
    p ++ q = join "," (member_texts props) ++ "}" ->
    forall fuel, parse_members fuel p = None.
Proof.
  induction props as [|[k x] r IH]; [congruence|].
  intros _ Hc Hs Hw p q Hq H fuel.
  apply Forall_cons in Hc as [Hcx Hc].
  apply Forall_cons in Hs as [Hsx Hs].
  apply Forall_cons in Hw as [Hwx Hw].
  cbn [snd] in *.
  destruct fuel as [|fuel]; [reflexivity|].
  rewrite member_texts_cons in H by exact Hsx.
  rewrite join_cons, !string_app_assoc, quote_app in H.
  set (tail := match member_texts r with
               | [] => "}"
               | _ :: _ => String "," (join "," (member_texts r) ++ "}")
               end) in H.
  assert (Htail : forall m, (exists m', tail = m ++ m') -> boundary m = true).
  { intros m. subst tail. destruct (member_texts r);
      apply boundary_of_prefix; reflexivity. }
  destruct p as [|c p]; [reflexivity|].
  cbn [String.append] in H. injection H as -> H.
  rewrite parse_members_eq.
  destruct (app_split _ _ _ _ H) as [(m & Hm & _) | (m & Hm & -> & Hd)].
  { now rewrite (parse_chars_cut k p m (eq_sym Hm)). }
  destruct m as [|d m]; [now destruct Hm|].
  cbn [String.append] in Hd. injection Hd as <- Hd.
  rewrite parse_chars_escape.
  destruct m as [|colon m]; [reflexivity|].
  cbn [String.append] in Hd. injection Hd as <- Hd.
  cbn [skip_ws]. change (is_ws ":") with false. cbv iota.
  change (N_of_ascii ":" =? 58)%N with true. cbv iota.
  destruct (value_then_cut x tail m q fuel Hcx Hsx Hwx Htail Hq (eq_sym Hd))
    as [-> | [(w & ->) | (m2 & Hm2 & -> & Htl)]]; try reflexivity.
  destruct m2 as [|c m2]; [now destruct Hm2|].
  subst tail. destruct r as [|[k' y] r].
  - cbn [member_texts] in Htl. cbn [String.append] in Htl. injection Htl as <- Htl.
    symmetry in Htl. apply app_eq_empty in Htl as [_ ->]. now destruct Hq.
  - pose proof (Forall_inv Hs) as Hsy. cbn [snd] in Hsy.
    pose proof (member_texts_cons k' y r Hsy) as E.
    remember (member_texts ((k', y) :: r)) as mt eqn:Hmt.
    destruct mt as [|t0 mt]; [discriminate E|]. clear E.
    rewrite Hmt in Htl, IH.
    set (body := join "," (member_texts ((k', y) :: r)) ++ "}") in Htl.
    cbn [String.append] in Htl. injection Htl as <- Htl. subst body.
    cbn [skip_ws]. change (is_ws ",") with false. cbv iota.
    change (N_of_ascii "," =? 44)%N with true. cbv iota.
    rewrite (IH ltac:(congruence) Hc Hs Hw m2 q Hq (eq_sym Htl) fuel). reflexivity.
Qed.

Lemma parse_value_empty (fuel : nat) : parse_value fuel "" = None.
Proof. destruct fuel; reflexivity. Qed.

Lemma opens_prefix (p q t : string) :
  opens_value t -> p ++ q = t -> p = "" \/ (opens_value p /\ exists c p', p = String c p').
Proof.
  intros Ho H. destruct p as [|c p]; [now left|right].
  subst t. cbn [String.append opens_value] in Ho. split; [exact Ho | eauto].
Qed.

Lemma array_cut (items : list JsVal) :
  Forall cuts items -> cuts (JArr items).
Proof.
  intros Hc Hs Hw t Ht p q Hq H fuel.
  rewrite stringify_arr in Ht. injection Ht as <-.
  apply serializable_arr in Hs. apply wf_arr in Hw.
  destruct p as [|c p]; [now rewrite parse_value_empty|].
  cbn [String.append] in H. injection H as -> H.
  destruct fuel as [|fuel]; [exact I|].
  rewrite parse_value_arr.
  destruct items as [|x r].
  - cbn [List.map join] in H. cbn [String.append] in H.
    destruct p as [|c p]; [exact I|].
    cbn [String.append] in H. injection H as -> H.
    apply app_eq_empty in H as [_ ->]. now destruct Hq.
  - pose proof (Forall_inv Hs) as Hsx.
    pose proof (join_opens x (List.map element_text r) "]" Hsx) as Ho.
    change (element_text x :: List.map element_text r)
      with (List.map element_text (x :: r)) in Ho.
    destruct (opens_prefix _ _ _ Ho H) as [-> | [Hp (c & p' & ->)]]; [exact I|].
    rewrite (skip_ws_opens _ Hp). destruct Hp as (_ & -> & _).
    rewrite (parse_elements_cut (x :: r) ltac:(discriminate) Hc Hs Hw _ q Hq H).
    exact I.
Qed.

Lemma object_cut (props : list (string * JsVal)) :
  Forall (fun kv => cuts (snd kv)) props -> cuts (JObj props).
Proof.
  intros Hc Hs Hw t Ht p q Hq H fuel.
  rewrite stringify_obj in Ht. injection Ht as <-.
  apply serializable_obj in Hs. apply wf_obj in Hw as [_ Hw].
  destruct p as [|c p]; [now rewrite parse_value_empty|].
  cbn [String.append] in H. injection H as -> H.
  destruct fuel as [|fuel]; [exact I|].
  rewrite parse_value_obj.
  destruct props as [|[k x] r].
  - cbn [member_texts join] in H. cbn [String.append] in H.
    destruct p as [|c p]; [exact I|].
    cbn [String.append] in H. injection H as -> H.
    apply app_eq_empty in H as [_ ->]. now destruct Hq.
  - pose proof (Forall_inv Hs) as Hsx. cbn [snd] in Hsx.
    assert (Ho : opens_value (join "," (member_texts ((k, x) :: r)) ++ "}")).
    { rewrite member_texts_cons by exact Hsx.
      rewrite join_cons, !string_app_assoc, quote_app. now cbn. }
    destruct (opens_prefix _ _ _ Ho H) as [-> | [Hp (c & p' & ->)]]; [exact I|].
    rewrite (skip_ws_opens _ Hp). destruct Hp as (_ & _ & ->).
    rewrite (parse_members_cut ((k, x) :: r) ltac:(discriminate) Hc Hs Hw _ q Hq H).
    exact I.
Qed.

Lemma stringify_cuts (v : JsVal) : cuts v.
Proof.
  induction v as [| |b|n|s|items IH|props IH] using JsVal_nested_ind.
  - intros [].
  - now apply literal_cut.
  - now apply literal_cut.
  - apply number_cut.
  - apply string_cut.
  - apply array_cut, IH.
  - apply object_cut, IH.
Qed.

(** A text of [stringify] cut short is not JSON, or is a number (a number
    cut short is a shorter number). *)
Lemma parse_truncated (v : JsVal) (t p q : string) :
  serializable v -> wf v -> stringify v = Some t -> q <> "" -> p ++ q = t ->
  parse p = Throw SyntaxError \/ exists m, parse p = Normal (JNum m).
Proof.
  intros Hs Hw Ht Hq H. unfold parse.
  pose proof (stringify_cuts v Hs Hw t Ht p q Hq H (2 * String.length p + 2)) as Hc.
  destruct (parse_value _ p) as [[w rest]|]; [|now left].
  destruct Hc as (-> & _ & m & ->). right. now exists m.
Qed.

End TruncationFacts.

(** ** Dates and numbers *)
Module PlatformFacts.
#[local] Open Scope Z_scope.

Lemma is_digit_digit_char (d : Z) : is_digit (digit_char d) = true.
Proof.
  unfold is_digit, digit_char.
  assert (H : 0 <= d mod 10 < 10) by (apply Z.mod_pos_bound; lia).
  rewrite N_ascii_embedding by lia.
  apply andb_true_intro. split; apply N.leb_le; lia.
Qed.

Lemma civil_year_range (days : Z) :
  0 <= days < 2932897 ->
  let '(y, m, d) := civil_from_days days in 1970 <= y <= 9999.
Proof.
  intros H. unfold civil_from_days.
  set (z := days + 719468).
  set (era := z / 146097).
  set (doe := z - era * 146097).
  set (yoe := (doe - doe / 1460 + doe / 36524 - doe / 146096) / 365).
  set (doy := doe - (365 * yoe + yoe / 4 - yoe / 100)).
  set (mp := (5 * doy + 2) / 153).
  cbv zeta.
  destruct (mp <? 10) eqn:E1.
  - apply Z.ltb_lt in E1.
    destruct (mp + 3 <=? 2) eqn:E2; [apply Z.leb_le in E2|apply Z.leb_gt in E2];
    subst mp doy yoe doe era z; Z.div_mod_to_equations; lia.
  - apply Z.ltb_ge in E1.
    destruct (mp - 9 <=? 2) eqn:E2; [apply Z.leb_le in E2|apply Z.leb_gt in E2];
    subst mp doy yoe doe era z; Z.div_mod_to_equations; lia.
Qed.

Lemma toISOString_iso8601 (ms : Z) :
  0 <= ms < 253402300800000 -> is_iso8601 (toISOString ms) = true.
Proof.
  intros H. unfold toISOString.
  assert (Hd : 0 <= ms / 86400000 < 2932897)
    by (Z.div_mod_to_equations; lia).
  pose proof (civil_year_range _ Hd) as Hy.
  destruct (civil_from_days (ms / 86400000)) as [[y m] d].
  unfold year_text.
  replace ((0 <=? y) && (y <=? 9999)) with true
    by (symmetry; apply andb_true_intro; split; apply Z.leb_le; lia).
  unfold is_iso8601, iso8601_pattern, pad4, pad3, pad2.
  cbn [String.append matches].
  rewrite !is_digit_digit_char. reflexivity.
Qed.

Lemma split_at_underscore (a b x y : string) :
  no_underscore a -> no_underscore b ->
  a ++ String "_" x = b ++ String "_" y -> a = b /\ x = y.
Proof.
  revert b. induction a as [|c a IH]; intros [|d b] Ha Hb H; simpl in *.
  - injection H as ->. auto.
  - injection H as <- _. now destruct Hb.
  - injection H as -> _. now destruct Ha.
  - injection H as -> H. destruct Ha as [_ Ha], Hb as [_ Hb].
    destruct (IH b Ha Hb H) as [-> ->]. auto.
Qed.

Lemma uint_text_no_underscore (u : uint) :
  no_underscore (NilEmpty.string_of_uint u).
Proof. induction u; simpl; auto; split; auto; discriminate. Qed.

Lemma number_text_no_underscore (n : Z) : no_underscore (Json.number_text n).
Proof.
  unfold Json.number_text. destruct n as [|p|p]; simpl.
  - split; [discriminate | exact I].
  - rewrite JsonFacts.to_uint_text. apply uint_text_no_underscore.
  - split; [discriminate|]. rewrite JsonFacts.to_uint_text. apply uint_text_no_underscore.
Qed.

Lemma number_text_inj (n m : Z) : Json.number_text n = Json.number_text m -> n = m.
Proof.
  intros H.
  pose proof (JsonFacts.parse_number_text n "" eq_refl) as Hn.
  pose proof (JsonFacts.parse_number_text m "" eq_refl) as Hm.
  rewrite H in Hn. congruence.
Qed.

End PlatformFacts.

(** ** The protocol utilities *)
Module UtilsFacts.

Ltac case_condition :=
  match goal with
  | |- context [(?n =? 0)%Z] => destruct (n =? 0)%Z
  | |- context [String.eqb ?x ""] => destruct (String.eqb x "")
  end.

Lemma validateMessage_fields (m type data : JsVal) :
  String.eqb (typeof m) "object" = true -> m <> JNull ->
  get_own m "type" = type -> get_own m "data" = data ->
  validateMessage m =
  Normal (match type with JStr t => negb (String.eqb t "") | _ => false end
          && match data with JObj _ | JArr _ => true | _ => false end).
Proof.
  intros Ho Hn <- <-. unfold validateMessage. rewrite Ho.
  assert (Hg : forall k, get m k = Normal (get_own m k))
    by (intros k; destruct m; try reflexivity; discriminate Ho || contradiction).
  assert (Hnull : match m with JNull => true | _ => false end = false)
    by (destruct m; try reflexivity; contradiction).
  rewrite Hnull, !Hg. cbn [negb orb cbind].
  generalize (get_own m "type") (get_own m "data"). clear.
  intros [| |[]|n|s|i|p] [| |[]|n'|s'|i'|p']; simpl;
    repeat case_condition; reflexivity.
Qed.

Lemma validateMessage_spec (m : JsVal) :
  validateMessage m = Normal (valid_structure m).
Proof.
  destruct m as [| |b|n|s|items|props]; try reflexivity.
  - apply validateMessage_fields; easy.
  - apply validateMessage_fields; easy.
Qed.

Lemma parseWebSocketMessage_spec (s : string) (w : World) :
  parseWebSocketMessage s w =
  match Json.parse s with
  | Normal v =>
      if valid_structure v then (Normal (Some v), w)
      else (Normal None, log "Invalid message structure:" w)
  | Throw _ => (Normal None, log "Failed to parse WebSocket message:" w)
  end.
Proof.
  unfold parseWebSocketMessage, try_catch, bind, lift.
  destruct (Json.parse s) as [v|e]; [|reflexivity].
  rewrite validateMessage_spec.
  destruct (valid_structure v); reflexivity.
Qed.

(** The text of a value cut short is refused: it is not JSON, or it is a
    number. *)
Lemma parseWebSocketMessage_truncated (v : JsVal) (t p q : string) (w : World) :
  Json.serializable v -> wf v -> Json.stringify v = Some t -> q <> "" -> p ++ q = t ->
  exists w1, parseWebSocketMessage p w = (Normal None, w1).
Proof.
  intros Hs Hw Ht Hq H. rewrite parseWebSocketMessage_spec.
  destruct (TruncationFacts.parse_truncated v t p q Hs Hw Ht Hq H) as [-> | [m ->]];
    cbn; eauto.
Qed.

Lemma MessageType_value_nonempty (t : MessageType) :
  String.eqb (MessageType_value t) "" = false.
Proof. destruct t; reflexivity. Qed.

Lemma createStandardMessage_spec (type : MessageType) (data : JsVal)
    (messageId : option string) (w : World) :
  createStandardMessage type data messageId w =
  (Normal (standard_message type data (toISOString (now w)) (message_id_of messageId w)),
   world_after messageId w).
Proof.
  destruct messageId as [m|]; [|reflexivity].
  unfold createStandardMessage, message_id_of, world_after.
  destruct (negb (String.eqb m "")); reflexivity.
Qed.

Lemma standard_message_valid (type : MessageType) (props : list (string * JsVal))
    (timestamp message_id : string) :
  valid_structure (standard_message type (JObj props) timestamp message_id) = true.
Proof.
  destruct type; reflexivity.
Qed.

Lemma standard_message_serializable (type : MessageType) (data : JsVal)
    (timestamp message_id : string) :
  Json.serializable data ->
  Json.serializable (standard_message type data timestamp message_id).
Proof. intros H. simpl. tauto. Qed.

Lemma standard_message_wf (type : MessageType) (data : JsVal)
    (timestamp message_id : string) :
  wf data -> wf (standard_message type data timestamp message_id).
Proof.
  intros H. simpl. split; [|tauto].
  apply (bool_decide_unpack _). vm_compute. reflexivity.
Qed.

(** The text [send] is given for a standard message is read back as that
    message, and passes the validation. *)
Lemma standard_message_on_the_wire (type : MessageType) (props : list (string * JsVal))
    (timestamp message_id : string) (w : World) :
  Json.serializable (JObj props) -> wf (JObj props) ->
  exists text,
    Json.stringify (standard_message type (JObj props) timestamp message_id) = Some text /\
    Json.parse text = Normal (standard_message type (JObj props) timestamp message_id) /\
    parseWebSocketMessage text w =
      (Normal (Some (standard_message type (JObj props) timestamp message_id)), w).
Proof.
  intros Hs Hw.
  pose proof (standard_message_serializable type _ timestamp message_id Hs) as Hs'.
  pose proof (standard_message_wf type _ timestamp message_id Hw) as Hw'.
  destruct (JsonFacts.serializable_has_text _ Hs') as [text Ht].
  exists text. split; [exact Ht|].
  pose proof (JsonFacts.parse_stringify _ _ Hs' Hw' Ht) as Hp.
  split; [exact Hp|].
  now rewrite parseWebSocketMessage_spec, Hp, standard_message_valid.
Qed.


Lemma valid_structure_true (v : JsVal) :
  valid_structure v = true <->
  ~ not_an_object v /\ ~ type_refused v /\ ~ data_refused v.
Proof.
  unfold valid_structure, not_an_object, type_refused, data_refused.
  destruct v as [| |b|n|s|items|props]; try (split; [discriminate | tauto]).
  all: repeat match goal with
         | |- context [get_own ?m ?k] => generalize (get_own m k); intro
         end.
  all: match goal with
       | ty : JsVal, da : JsVal |- _ =>
           destruct da as [| |b|n|s| |]; destruct ty as [| |b'|n'|s'| |]
       end;
       try (split; [discriminate | tauto]).
  all: destruct (String.eqb_spec s' ""); cbn [negb andb];
       try (split; [discriminate | tauto]); split; tauto.
Qed.

Lemma fresh_id_eq (w1 w2 : World) :
  fresh_id w1 = fresh_id w2 <->
  now w1 = now w2 /\
  substr 2 9 (random_text w1 (draws w1)) = substr 2 9 (random_text w2 (draws w2)).
Proof.
  unfold fresh_id. split.
  - intros H. cbn [String.append] in H. injection H as H.
    apply PlatformFacts.split_at_underscore in H as [Hn Hs]; try apply PlatformFacts.number_text_no_underscore.
    split; [now apply PlatformFacts.number_text_inj | exact Hs].
  - intros [-> ->]. reflexivity.
Qed.

Lemma is_string_true (v : JsVal) (text : string) :
  is_string v text = true <-> v = JStr text.
Proof.
  destruct v; simpl; try (split; discriminate).
  rewrite String.eqb_eq. split; congruence.
Qed.

Lemma get_of_object (v : JsVal) (k : string) :
  ~ not_an_object v -> get v k = Normal (get_own v k).
Proof. destruct v; simpl; tauto. Qed.

Lemma data_is_object (v : JsVal) : ~ data_refused v -> ~ not_an_object (get_own v "data").
Proof. unfold data_refused. destruct (get_own v "data"); simpl; tauto. Qed.

End UtilsFacts.

(** ** The hook *)
Module HookFacts.
Import UseWebSocket UtilsFacts.

Lemma prefix_app (a b c : string) :
  String.prefix a b = true -> String.prefix a (b ++ c) = true.
Proof.
  revert a. induction b as [|y b IH]; intros a H.
  - destruct a as [|x a]; [destruct c; reflexivity | discriminate H].
  - destruct a as [|x a]; [reflexivity|].
    change (String y b ++ c) with (String y (b ++ c)).
    cbn [String.prefix] in *.
    destruct (ascii_dec x y); [auto | discriminate H].
Qed.

Lemma valid_ws_url_app (u rest : string) :
  valid_ws_url u = true -> valid_ws_url (u ++ rest) = true.
Proof.
  unfold valid_ws_url. rewrite !orb_true_iff.
  intros [[[H|H]|H]|H]; rewrite (prefix_app _ _ rest H); auto.
Qed.

Lemma buildWebSocketUrl_spec (baseUrl : option string) (o : string)
    (ps : WebSocketConnectionParams) :
  url_origin (default "ws://localhost:8000" baseUrl) = Some o ->
  buildWebSocketUrl baseUrl ps = Normal (o ++ "/ws?" ++ connection_query ps).
Proof.
  intros Ho. unfold buildWebSocketUrl, URL_new.
  change (match baseUrl with Some b => b | None => "ws://localhost:8000" end)
    with (default "ws://localhost:8000" baseUrl).
  rewrite Ho. cbn [cbind]. unfold connection_query.
  destruct (workflow_id ps) as [wf|]; [destruct (String.eqb wf "")|];
    cbn; rewrite ?JsonFacts.app_empty_r; reflexivity.
Qed.

Lemma in_world_spec {A : Type} (c : Eff World A) (p : Page) :
  in_world c p = (fst (c (world p)), set_world (snd (c (world p))) p).
Proof. unfold in_world, zoom. destruct (c (world p)); reflexivity. Qed.

Lemma socket_state_transmit (ws ws' : nat) (text : string) (p : Page) :
  socket_state ws' (transmit ws text p) = socket_state ws' p.
Proof.
  unfold socket_state, transmit, update_socket. simpl sockets.
  destruct (decide (ws = ws')) as [->|Hne].
  - rewrite list_lookup_alter_eq. destruct (sockets p !! ws'); reflexivity.
  - now rewrite list_lookup_alter_ne.
Qed.

Lemma frames_transmit (ws : nat) (text : string) (p : Page) (st : ReadyState) :
  socket_state ws p = Some st ->
  frames ws (transmit ws text p) = (frames ws p ++ [text])%list.
Proof.
  unfold socket_state, frames, transmit, update_socket. simpl sockets.
  rewrite list_lookup_alter_eq. destruct (sockets p !! ws); [reflexivity | discriminate].
Qed.

Lemma frames_transmit_other (ws ws' : nat) (text : string) (p : Page) :
  ws <> ws' -> frames ws' (transmit ws text p) = frames ws' p.
Proof.
  intros Hne. unfold frames, transmit, update_socket. simpl sockets.
  now rewrite list_lookup_alter_ne.
Qed.

Lemma not_open_false (p : Page) :
  not_open p = false <-> exists ws, wsRef p = Some ws /\ socket_state ws p = Some OPEN.
Proof.
  unfold not_open, ws_is_open.
  destruct (wsRef p) as [ws|]; [destruct (socket_state ws p) as [[]|] eqn:E|];
    simpl; (split; [intros H; try discriminate H; eauto |]).
  all: intros (ws' & H1 & H2); try discriminate H1; try reflexivity.
  all: injection H1 as <-; congruence.
Qed.

(** A send on a channel that is not open: [false], a warning on the
    console, and nothing else. *)
Lemma sendMessage_not_open (type : MessageType) (data : JsVal) (p : Page) :
  not_open p = true ->
  sendMessage type data p =
  (Normal false,
   set_world (log "WebSocket is not connected. Cannot send message." (world p)) p).
Proof.
  intros H. unfold sendMessage, bind, gets, id.
  destruct (wsRef p); [rewrite H|]; reflexivity.
Qed.

Lemma sendRawMessage_not_open (message : JsVal) (p : Page) :
  not_open p = true ->
  sendRawMessage message p =
  (Normal false,
   set_world (log "WebSocket is not connected. Cannot send message." (world p)) p).
Proof.
  intros H. unfold sendRawMessage, bind, gets, id.
  destruct (wsRef p); [rewrite H|]; reflexivity.
Qed.

Lemma sendMessage_open (type : MessageType) (data : JsVal) (p : Page) (ws : nat) :
  wsRef p = Some ws -> socket_state ws p = Some OPEN ->
  sendMessage type data p =
  (Normal true,
   sent_page ws
     (stringify_text (standard_message type data (toISOString (now (world p)))
                        (fresh_id (world p))))
     (set_world (drawn (world p)) p)).
Proof.
  intros Hws Hst.
  assert (Hno : not_open p = false) by (apply not_open_false; eauto).
  unfold sendMessage, bind, gets, id, try_catch. rewrite Hws, Hno.
  rewrite in_world_spec, createStandardMessage_spec. cbn [fst snd bind].
  unfold WebSocket_send.
  change (socket_state ws (set_world (world_after None (world p)) p))
    with (socket_state ws p).
  rewrite Hst. reflexivity.
Qed.

Lemma sendRawMessage_open (message : JsVal) (p : Page) (ws : nat) :
  wsRef p = Some ws -> socket_state ws p = Some OPEN ->
  sendRawMessage message p =
  if valid_structure message
  then (Normal true, sent_page ws (stringify_text message) p)
  else (Normal false, set_world (log "Invalid message structure:" (world p)) p).
Proof.
  intros Hws Hst.
  assert (Hno : not_open p = false) by (apply not_open_false; eauto).
  unfold sendRawMessage, bind, gets, id, try_catch, lift. rewrite Hws, Hno.
  rewrite validateMessage_spec.
  destruct (valid_structure message); cbn [negb]; [|reflexivity].
  unfold WebSocket_send. rewrite Hst. reflexivity.
Qed.

(** A connection attempt, when no socket is open and the base URL is a
    WebSocket URL: a socket in state CONNECTING for the URL of the
    parameters, whatever they are. *)
Lemma connect_spec (defaultBase o : string) (opts : Settings) (p : Page) :
  ws_is_open p = false ->
  url_origin (wsBaseUrl defaultBase opts) = Some o -> valid_ws_url o = true ->
  settle (connect defaultBase opts) p =
  set_wsRef (Some (List.length (sockets p)))
    (set_sockets (sockets p ++ [{| url := o ++ "/ws?" ++ connection_query (params opts);
                                   readyState := CONNECTING; sent := [] |}])%list
       (set_connectionState connecting p)).
Proof.
  intros Hopen Ho Hv.
  unfold settle, connect, bind, gets, id, try_catch, lift, modify, buildUrl.
  rewrite Hopen. cbn [snd].
  rewrite (buildWebSocketUrl_spec _ o) by exact Ho.
  unfold WebSocket_new. rewrite (valid_ws_url_app o _ Hv). reflexivity.
Qed.

End HookFacts.

(** ** The heartbeat *)
Module HeartbeatFacts.
Import UseWebSocket UtilsFacts HookFacts.
#[local] Open Scope Z_scope.

Lemma heartbeat_text (w : World) :
  is_heartbeat_text (stringify_text (heartbeat_message w)).
Proof.
  unfold heartbeat_message.
  assert (Hs : Json.serializable (JObj [("client_time", JStr (toISOString (now w)))]))
    by (simpl; tauto).
  assert (Hw : wf (JObj [("client_time", JStr (toISOString (now w)))])).
  { simpl. split; [apply NoDup_singleton | tauto]. }
  destruct (standard_message_on_the_wire HEARTBEAT _ (toISOString (now w)) (fresh_id w)
              w Hs Hw) as (text & Ht & Hp & _).
  unfold stringify_text. rewrite Ht. cbn [default].
  eexists _, (toISOString (now w)). split; [exact Hp|].
  split; [|split; reflexivity].
  now rewrite validateMessage_spec, standard_message_valid.
Qed.

Lemma createHeartbeatMessage_spec (w : World) :
  createHeartbeatMessage w = (Normal (heartbeat_message w), drawn w).
Proof. reflexivity. Qed.

Lemma sendHeartbeat_open (p : Page) (ws : nat) :
  wsRef p = Some ws -> socket_state ws p = Some OPEN ->
  sendHeartbeat p =
  (Normal tt,
   transmit ws (stringify_text (heartbeat_message (world p)))
     (set_world (drawn (world p)) p)).
Proof.
  intros Hws Hst. unfold sendHeartbeat, bind, gets, id, ws_is_open.
  rewrite Hws, Hst. rewrite in_world_spec, createHeartbeatMessage_spec.
  cbn [fst snd]. unfold WebSocket_send.
  change (socket_state ws (set_world (drawn (world p)) p)) with (socket_state ws p).
  rewrite Hst. reflexivity.
Qed.

Lemma sendHeartbeat_not_open (p : Page) :
  ws_is_open p = false -> sendHeartbeat p = (Normal tt, p).
Proof.
  intros H. unfold sendHeartbeat, bind, gets, id. rewrite H.
  destruct (wsRef p); reflexivity.
Qed.

Lemma firings_none (period next deadline : Z) :
  deadline < next -> firings period next deadline = O.
Proof. intros H. unfold firings. apply Z.ltb_lt in H. now rewrite H. Qed.

Lemma firings_step (period next deadline : Z) :
  0 < period -> next <= deadline ->
  firings period next deadline = S (firings period (next + period) deadline).
Proof.
  intros Hp Hd. unfold firings.
  destruct (Z.ltb_spec deadline next) as [?|_]; [lia|].
  destruct (Z.ltb_spec deadline (next + period)) as [Hlt|Hge].
  - rewrite Z.div_small by lia. reflexivity.
  - replace (deadline - next) with ((deadline - (next + period)) + 1 * period) by lia.
    rewrite Z.div_add by lia.
    assert (0 <= (deadline - (next + period)) / period) by (apply Z.div_pos; lia).
    rewrite <- Z2Nat.inj_succ by lia. f_equal; lia.
Qed.

(** One firing of the heartbeat timer on the hook at rest: one heartbeat
    goes out, stamped with the time the timer was due, and the hook is at
    rest again, the timer due one period later. *)
Lemma fire_beating (defaultBase : string) (o : Settings) (ws id : nat)
    (period next : Z) (p : Page) :
  0 <= period -> beating ws id period next p ->
  beating ws id period (next + period)
    (fire defaultBase o (heartbeat_timer id period next) p)
  /\ exists text,
       is_heartbeat_text text
       /\ frames ws (fire defaultBase o (heartbeat_timer id period next) p)
          = (frames ws p ++ [text])%list.
Proof.
  intros Hp (Hws & Hst & Ht & Hnow & Hc & Hcs).
  unfold fire. rewrite Ht.
  cbn [List.filter heartbeat_timer timer_id repeating delay due callback run_callback].
  rewrite Nat.eqb_refl. cbn [negb app].
  set (p1 := set_timers _ _).
  assert (Hws1 : wsRef p1 = Some ws) by exact Hws.
  assert (Hst1 : socket_state ws p1 = Some OPEN) by exact Hst.
  unfold settle. rewrite (sendHeartbeat_open p1 ws Hws1 Hst1). cbn [snd].
  split.
  - unfold beating. rewrite socket_state_transmit.
    repeat split; try assumption; try reflexivity.
    cbn. lia.
  - exists (stringify_text (heartbeat_message (world p1))).
    split; [apply heartbeat_text|].
    now rewrite (frames_transmit ws _ _ OPEN).
Qed.

(** The hook at rest left alone until the clock reads [deadline]. *)
Lemma elapse_beating (defaultBase : string) (o : Settings) (ws id : nat)
    (period deadline : Z) (n : nat) :
  0 < period ->
  forall (next : Z) (p : Page) (fuel : nat),
    beating ws id period next p ->
    firings period next deadline = n -> (n <= fuel)%nat ->
    exists p' texts,
      elapse fuel defaultBase o deadline p = Some p'
      /\ beating ws id period (next + Z.of_nat n * period) p'
      /\ frames ws p' = (frames ws p ++ texts)%list
      /\ List.length texts = n
      /\ Forall is_heartbeat_text texts
      /\ deadline <= now (world p').
Proof.
  intros Hp. induction n as [|n IH]; intros next p fuel Hb Hn Hfuel.
  - assert (Hlt : deadline < next).
    { destruct (Z.ltb_spec deadline next) as [?|Hge]; [assumption|].
      rewrite (firings_step _ _ _ Hp Hge) in Hn. discriminate Hn. }
    destruct Hb as (Hws & Hst & Ht & Hnow & Hc & Hcs).
    exists (set_clock (Z.max (now (world p)) deadline) p), [].
    split.
    + destruct fuel; unfold elapse; rewrite Ht; cbn [next_due heartbeat_timer due];
        destruct (Z.leb_spec next deadline); try lia; reflexivity.
    + split; [|split; [|split; [|split]]].
      * replace (next + Z.of_nat 0 * period) with next by lia.
        unfold beating. repeat split; try assumption.
        change (now (world (set_clock (Z.max (now (world p)) deadline) p)))
          with (Z.max (now (world p)) deadline). lia.
      * now rewrite List.app_nil_r.
      * reflexivity.
      * constructor.
      * change (now (world (set_clock (Z.max (now (world p)) deadline) p)))
          with (Z.max (now (world p)) deadline). lia.
  - assert (Hge : next <= deadline).
    { destruct (Z.ltb_spec deadline next) as [Hlt|?]; [|assumption].
      rewrite (firings_none _ _ _ Hlt) in Hn. discriminate Hn. }
    rewrite (firings_step _ _ _ Hp Hge) in Hn. injection Hn as Hn.
    destruct fuel as [|fuel]; [lia|].
    destruct (fire_beating defaultBase o ws id period next p ltac:(lia) Hb)
      as (Hb1 & text & Htext & Hframes).
    destruct (IH (next + period) _ fuel Hb1 Hn ltac:(lia))
      as (p' & texts & Hrun & Hb' & Hf' & Hlen & Hall & Hclock).
    exists p', (text :: texts).
    split.
    + destruct Hb as (_ & _ & Ht & _).
      cbn [elapse]. rewrite Ht. cbn [next_due heartbeat_timer due].
      destruct (Z.leb_spec next deadline); [|lia].
      exact Hrun.
    + split; [|split; [|split; [|split]]].
      * replace (next + Z.of_nat (S n) * period)
          with (next + period + Z.of_nat n * period) by lia.
        exact Hb'.
      * rewrite Hf', Hframes, <- List.app_assoc. reflexivity.
      * simpl. now rewrite Hlen.
      * constructor; assumption.
      * exact Hclock.
Qed.

(** The hook when its socket opens: connected, and the heartbeat timer set
    with the interval of the options. *)
Lemma socket_opens_beating (o : Settings) (ws : nat) (p : Page) :
  wsRef p = Some ws -> socket_state ws p = Some CONNECTING ->
  timers p = [] -> heartbeatTimeoutRef p = None ->
  beating ws (next_timer p) (Z.max 0 (heartbeat_ms o))
    (now (world p) + Z.max 0 (heartbeat_ms o)) (socket_opens o ws p).
Proof.
  intros Hws Hst Ht Hh. unfold socket_opens. rewrite Hst.
  destruct p as [w socks tms nt ic cs lm st wr rt hr ra sr nts].
  cbn [wsRef timers heartbeatTimeoutRef] in Hws, Ht, Hh. subst wr tms hr.
  unfold socket_state in Hst. cbn [sockets] in Hst.
  unfold beating, socket_state.
  cbn -[Z.max Z.add alter lookup].
  rewrite list_lookup_alter_eq.
  destruct (socks !! ws) as [s|]; [|discriminate Hst].
  cbn -[Z.max Z.add]. repeat split; try reflexivity. lia.
Qed.

End HeartbeatFacts.

(** ** The workflow engine *)
Module EngineFacts.
Import WorkflowEngine.

Section Registry.
Context (registry : gmap string (gmap string JsVal -> StepOutcome)).

Lemma occurrences_app (name : string) (steps more : list string) :
  occurrences name (steps ++ more)%list = occurrences name steps + occurrences name more.
Proof. unfold occurrences. now rewrite List.filter_app, List.length_app. Qed.

Lemma occurrences_one (name other : string) :
  occurrences name [other] = if String.eqb name other then 1 else 0.
Proof. unfold occurrences. simpl. now destruct (String.eqb name other). Qed.

Lemma sum_list_decrease (f g : string -> nat) (name : string) (l : list string) :
  NoDup l -> name ∈ l ->
  (forall x, x <> name -> g x = f x) -> g name < f name ->
  sum_list (List.map g l) < sum_list (List.map f l).
Proof.
  intros Hnd Hin Hsame Hless. induction l as [|x l IH]; [inversion Hin|].
  apply NoDup_cons in Hnd as [Hx Hnd]. simpl.
  destruct (decide (x = name)) as [->|Hne].
  - assert (Heq : List.map g l = List.map f l).
    { apply List.map_ext_in. intros y Hy. apply Hsame. intros ->.
      apply Hx, list_elem_of_In, Hy. }
    rewrite Heq. lia.
  - rewrite (Hsame x Hne). apply elem_of_cons in Hin as [->|Hin]; [congruence|].
    specialize (IH Hnd Hin). lia.
Qed.

(** What a turn that leaves the thread running did: it completed the
    current step, a registered one, within the bound. *)
Lemma step_running (t : WorkflowThread) :
  status (step registry t) = running ->
  exists name,
    name ∈ dom registry
    /\ completed_steps (step registry t) = (completed_steps t ++ [name])%list
    /\ occurrences name (completed_steps t ++ [name])%list <= max_iterations t
    /\ max_iterations (step registry t) = max_iterations t.
Proof.
  unfold step, step_loop.
  destruct (status t) eqn:Est; try (intros H; congruence).
  destruct (current_step t) as [name|]; [|discriminate].
  destruct (registry !! name) as [executor|] eqn:Er; [|discriminate].
  destruct (executor (payload t)) as [next patch| |]; try discriminate.
  cbn [andb completed_steps].
  destruct (Nat.ltb_spec (max_iterations t) (occurrences name (completed_steps t ++ [name])%list));
    [discriminate|].
  intros _. exists name. repeat split; try assumption.
  apply elem_of_dom. eauto.
Qed.

Lemma step_room (t : WorkflowThread) :
  status (step registry t) = running ->
  room registry (step registry t) < room registry t.
Proof.
  intros H. destruct (step_running t H) as (name & Hin & Hdone & Hocc & Hmax).
  unfold room. rewrite Hdone, Hmax.
  apply (sum_list_decrease _ _ name).
  - apply NoDup_elements.
  - now apply elem_of_elements.
  - intros x Hne. rewrite occurrences_app, occurrences_one.
    destruct (String.eqb_spec x name); [congruence | lia].
  - rewrite occurrences_app, occurrences_one, String.eqb_refl in *. lia.
Qed.

(** The step loop ends: within one turn more than the room of the thread. *)
Lemma run_ends (n : nat) :
  forall (t : WorkflowThread) (fuel : nat),
    room registry t <= n -> n < fuel ->
    exists t', run fuel registry t = Some t' /\ status t' <> running.
Proof.
  induction n as [|n IH]; intros t fuel Hroom Hfuel.
  - destruct fuel as [|fuel]; [lia|]. cbn [run].
    destruct (status t) eqn:Est; try (eexists; split; [reflexivity | congruence]).
    destruct (status (step registry t)) eqn:E1.
    + pose proof (step_room t E1). lia.
    + destruct fuel; cbn [run]; rewrite E1; eexists; (split; [reflexivity | congruence]).
    + destruct fuel; cbn [run]; rewrite E1; eexists; (split; [reflexivity | congruence]).
    + destruct fuel; cbn [run]; rewrite E1; eexists; (split; [reflexivity | congruence]).
  - destruct fuel as [|fuel]; [lia|]. cbn [run].
    destruct (status t) eqn:Est; try (eexists; split; [reflexivity | congruence]).
    destruct (status (step registry t)) eqn:E1.
    + pose proof (step_room t E1). apply IH; lia.
    + destruct fuel; cbn [run]; rewrite E1; eexists; (split; [reflexivity | congruence]).
    + destruct fuel; cbn [run]; rewrite E1; eexists; (split; [reflexivity | congruence]).
    + destruct fuel; cbn [run]; rewrite E1; eexists; (split; [reflexivity | congruence]).
Qed.

Lemma room_bound (t : WorkflowThread) :
  room registry t <= size registry * max_iterations t.
Proof.
  unfold room. rewrite <- size_dom. unfold size, set_size. simpl.
  induction (elements (dom registry)) as [|x l IH]; simpl; lia.
Qed.


Lemma step_loop_stopped (bounded : bool) (t : WorkflowThread) :
  status t <> running -> step_loop bounded registry t = t.
Proof. unfold step_loop. destruct (status t); congruence. Qed.

Lemma unbounded_stopped (k : nat) (t : WorkflowThread) :
  status t <> running -> unbounded k registry t = t.
Proof.
  intros H. induction k as [|k IH]; [reflexivity|].
  cbn [unbounded]. now rewrite step_loop_stopped.
Qed.

(** A turn of the engine on a running thread: either the bound cuts it
    short, or it is the turn of the loop without the bound, and the thread
    stays within the bound. *)
Lemma step_or_limit (t : WorkflowThread) :
  status t = running -> within_bound t ->
  iteration_limit_exceeded (step registry t)
  \/ (step registry t = step_loop false registry t
      /\ within_bound (step registry t)
      /\ max_iterations (step registry t) = max_iterations t).
Proof.
  intros Hrun Hwb. unfold step, step_loop. rewrite Hrun.
  destruct (current_step t) as [name|]; [|right; auto].
  destruct (registry !! name) as [executor|]; [|right; auto].
  destruct (executor (payload t)) as [next patch|ty data recs|reason];
    [|right; auto..].
  cbn [andb completed_steps max_iterations].
  destruct (Nat.ltb_spec (max_iterations t)
              (occurrences name (completed_steps t ++ [name])%list)) as [Hover|Hok].
  - left. split; [reflexivity|]. exists name. cbn [errors fail]. apply last_snoc.
  - right. split; [reflexivity|]. split; [|reflexivity].
    intros x. cbn [completed_steps max_iterations].
    destruct (String.eqb_spec x name) as [->|Hne]; [exact Hok|].
    rewrite occurrences_app, occurrences_one.
    apply String.eqb_neq in Hne. rewrite Hne. specialize (Hwb x). lia.
Qed.

Lemma run_stopped (fuel : nat) (t : WorkflowThread) :
  status t <> running -> run fuel registry t = Some t.
Proof. destruct fuel; cbn [run]; destruct (status t); congruence. Qed.

(** When the loop without the bound would bring a step over the bound, the
    engine ends the workflow with IterationLimitExceeded. *)
Lemma run_limit (k : nat) :
  forall t : WorkflowThread,
    within_bound t ->
    (exists name,
        max_iterations t < occurrences name (completed_steps (unbounded k registry t))) ->
    exists n t',
      (forall fuel, n <= fuel -> run fuel registry t = Some t')
      /\ iteration_limit_exceeded t'.
Proof.
  induction k as [|k IH]; intros t Hwb [name Hover].
  - specialize (Hwb name). cbn [unbounded] in Hover. lia.
  - assert (Hcase : status t = running \/ status t <> running)
      by (destruct (status t); auto; right; discriminate).
    destruct Hcase as [Hrun|Hstop].
    + cbn [unbounded] in Hover.
      destruct (step_or_limit t Hrun Hwb) as [Hlimit | (Hsame & Hwb1 & Hmax)].
      * exists 1, (step registry t). split; [|exact Hlimit].
        intros [|fuel] Hfuel; [lia|]. cbn [run]. rewrite Hrun.
        apply run_stopped. destruct Hlimit as [-> _]. discriminate.
      * rewrite <- Hsame, <- Hmax in Hover.
        destruct (IH (step registry t) Hwb1 (ex_intro _ name Hover))
          as (n & t' & Hn & Hlimit).
        exists (S n), t'. split; [|exact Hlimit].
        intros [|fuel] Hfuel; [lia|]. cbn [run]. rewrite Hrun. apply Hn. lia.
    + rewrite (unbounded_stopped _ _ Hstop) in Hover. specialize (Hwb name). lia.
Qed.

End Registry.

End EngineFacts.

(** ** More on the protocol utilities *)
Module MoreUtilsFacts.
Import UtilsFacts.

Lemma valid_structure_shape (m : JsVal) :
  valid_structure m = true ->
  ~ not_an_object m
  /\ (exists t, get_own m "type" = JStr t /\ t <> "")
  /\ ~ not_an_object (get_own m "data").
Proof.
  intros H. unfold valid_structure in H.
  destruct m; try discriminate H; (split; [simpl; tauto|]);
    apply andb_true_iff in H as [Ht Hd];
    (split; [destruct (get_own _ "type"); try discriminate Ht;
             eexists; split; [reflexivity|];
             intros ->; discriminate Ht
            | destruct (get_own _ "data"); try discriminate Hd; simpl; tauto]).
Qed.

(** The two tests of an error message, for a valid message. *)
Lemma isValidationError_spec (m : JsVal) :
  ~ not_an_object m -> ~ not_an_object (get_own m "data") ->
  isValidationError m
  = Normal (is_string (get_own m "type") "error"
            && is_string (get_own (get_own m "data") "error") "Message validation failed").
Proof.
  intros Hm Hd. unfold isValidationError.
  rewrite (get_of_object m) by exact Hm. cbn [cbind].
  change (MessageType_value ERROR) with "error".
  destruct (is_string (get_own m "type") "error"); [|reflexivity].
  rewrite (get_of_object m) by exact Hm. cbn [cbind].
  rewrite (get_of_object (get_own m "data")) by exact Hd. reflexivity.
Qed.

Lemma isHandlerError_spec (m : JsVal) :
  ~ not_an_object m -> ~ not_an_object (get_own m "data") ->
  isHandlerError m
  = Normal (is_string (get_own m "type") "error"
            && is_string (get_own (get_own m "data") "error") "Handler execution failed").
Proof.
  intros Hm Hd. unfold isHandlerError.
  rewrite (get_of_object m) by exact Hm. cbn [cbind].
  change (MessageType_value ERROR) with "error".
  destruct (is_string (get_own m "type") "error"); [|reflexivity].
  rewrite (get_of_object m) by exact Hm. cbn [cbind].
  rewrite (get_of_object (get_own m "data")) by exact Hd. reflexivity.
Qed.

Lemma is_string_false (v : JsVal) (text : string) :
  is_string v text = false <-> v <> JStr text.
Proof.
  rewrite <- is_string_true. destruct (is_string v text); split; congruence.
Qed.

(** What the two tests read when either answers [true]. *)
Lemma error_test_true (m : JsVal) (text : string) :
  (let? type := get m "type" in
   if is_string type "error" then
     let? data := get m "data" in
     let? error := get data "error" in
     Normal (is_string error text)
   else Normal false) = Normal true ->
  get m "type" = Normal (JStr "error")
  /\ exists data, get m "data" = Normal data
                  /\ get data "error" = Normal (JStr text).
Proof.
  intros H. destruct (get m "type") as [type|] eqn:Et; [|discriminate H].
  cbn [cbind] in H.
  destruct (is_string type "error") eqn:Es; [|discriminate H].
  apply is_string_true in Es as ->. split; [reflexivity|].
  destruct (get m "data") as [data|] eqn:Ed; [|discriminate H].
  cbn [cbind] in H. exists data. split; [reflexivity|].
  destruct (get data "error") as [e|] eqn:Ee; [|discriminate H].
  cbn [cbind] in H. injection H as H. apply is_string_true in H as ->. reflexivity.
Qed.

Lemma extractErrorDetails_of_error (m data : JsVal) (text : string) :
  text <> "" ->
  get m "type" = Normal (JStr "error") -> get m "data" = Normal data ->
  get data "error" = Normal (JStr text) ->
  exists d mt,
    extractErrorDetails m
    = (Normal {| error := JStr text; details := d; messageType := mt |}, m).
Proof.
  intros Hne Ht Hd He.
  unfold extractErrorDetails, bind, read, ret, throw. cbn [fold_left cbind].
  rewrite Ht. change (MessageType_value ERROR) with "error".
  cbn [is_string String.eqb Ascii.eqb Bool.eqb negb].
  rewrite Hd. cbn [cbind]. rewrite He.
  destruct data; try discriminate He; unfold get; cbn [cbind];
    (eexists _, _; cbn [truthy];
     apply String.eqb_neq in Hne; rewrite Hne; reflexivity).
Qed.

Lemma extractErrorDetails_valid (m : JsVal) :
  valid_structure m = true -> is_string (get_own m "type") "error" = true ->
  fst (extractErrorDetails m)
  = Normal {| error := if truthy (get_own (get_own m "data") "error")
                       then get_own (get_own m "data") "error"
                       else JStr "Unknown error";
              details := get_own (get_own m "data") "details";
              messageType := get_own (get_own m "data") "message_type" |}.
Proof.
  intros Hv Ht. destruct (valid_structure_shape m Hv) as (Hm & _ & Hd).
  unfold extractErrorDetails, bind, read, ret. cbn [fold_left cbind].
  rewrite !(get_of_object m) by exact Hm.
  change (MessageType_value ERROR) with "error". rewrite Ht. cbn [negb cbind].
  rewrite !(get_of_object m) by exact Hm. cbn [cbind].
  rewrite !(get_of_object (get_own m "data")) by exact Hd. reflexivity.
Qed.

End MoreUtilsFacts.

(** ** More on the hook: its handlers one by one *)
Module HandlerFacts.
Import UseWebSocket HookEvents UtilsFacts MoreUtilsFacts HookFacts.
#[local] Open Scope Z_scope.

(** Two pages with the same fields are the same page. *)
Lemma Stats_ext (s t : Stats) :
  messagesSent s = messagesSent t -> messagesReceived s = messagesReceived t ->
  reconnectAttempts s = reconnectAttempts t -> validationErrors s = validationErrors t ->
  handlerErrors s = handlerErrors t -> lastConnectedAt s = lastConnectedAt t ->
  lastDisconnectedAt s = lastDisconnectedAt t -> s = t.
Proof. destruct s, t; cbn; intros; subst; reflexivity. Qed.

Lemma Page_ext (p q : Page) :
  world p = world q -> sockets p = sockets q -> timers p = timers q ->
  next_timer p = next_timer q -> isConnected p = isConnected q ->
  connectionState p = connectionState q -> lastMessage p = lastMessage q ->
  stats p = stats q -> wsRef p = wsRef q ->
  reconnectTimeoutRef p = reconnectTimeoutRef q ->
  heartbeatTimeoutRef p = heartbeatTimeoutRef q ->
  reconnectAttemptsRef p = reconnectAttemptsRef q ->
  shouldReconnectRef p = shouldReconnectRef q -> notices p = notices q -> p = q.
Proof. destruct p, q; cbn; intros; subst; reflexivity. Qed.

Ltac fields :=
  cbn [world sockets timers next_timer isConnected connectionState lastMessage stats
       wsRef reconnectTimeoutRef heartbeatTimeoutRef reconnectAttemptsRef
       shouldReconnectRef notices messagesSent messagesReceived reconnectAttempts
       validationErrors handlerErrors lastConnectedAt lastDisconnectedAt
       set_world set_sockets set_timers set_next_timer set_isConnected
       set_connectionState set_lastMessage set_stats set_wsRef
       set_reconnectTimeoutRef set_heartbeatTimeoutRef set_reconnectAttemptsRef
       set_shouldReconnectRef set_notices set_messagesSent set_messagesReceived
       set_reconnectAttempts set_validationErrors set_handlerErrors
       set_lastConnectedAt set_lastDisconnectedAt
       WebsocketUtils.error details messageType fst snd].

Ltac page_eq :=
  unfold setStats, notify, modify, ret, bind, lift;
  try refine (f_equal (pair (Normal tt)) _);
  apply Page_ext; fields;
  try (apply Stats_ext; fields);
  rewrite <- ?app_assoc, ?app_nil_r; reflexivity.

Lemma onmessage_refused (data : string) (p : Page) :
  fst (parseWebSocketMessage data (world p)) = Normal None ->
  onmessage data p
  = (Normal tt,
     set_stats (set_validationErrors (validationErrors (stats p) + 1) (stats p))
       (set_world (snd (parseWebSocketMessage data (world p))) p)).
Proof.
  intros H. unfold onmessage, try_catch, bind. rewrite in_world_spec, H. reflexivity.
Qed.

Lemma onmessage_accepted (data : string) (m : JsVal) (p : Page) :
  Json.parse data = Normal m -> valid_structure m = true ->
  onmessage data p
  = (Normal tt,
     let s := stats p in
     let s := set_messagesReceived (messagesReceived s + 1) s in
     let s := if is_validation_error m
              then set_validationErrors (validationErrors s + 1) s
              else if is_handler_error m
                   then set_handlerErrors (handlerErrors s + 1) s else s in
     set_notices
       (notices p
        ++ (if is_validation_error m
            then [onValidationError (JStr "Message validation failed")
                    (get_own (get_own m "data") "details")]
            else [])
        ++ (if is_string (get_own m "type") "heartbeat" then [] else [onMessage m]))%list
       (set_stats s (set_lastMessage (Some m) p))).
Proof.
  intros Hp Hv. destruct (valid_structure_shape m Hv) as (Hm & _ & Hd).
  unfold onmessage, try_catch, bind.
  rewrite in_world_spec, parseWebSocketMessage_spec, Hp, Hv. cbn [fst snd].
  unfold modify, setStats, lift, notify, ret, is_validation_error, is_handler_error.
  rewrite (get_of_object m) by exact Hm.
  change (MessageType_value ERROR) with "error".
  change (MessageType_value HEARTBEAT) with "heartbeat".
  destruct (is_string (get_own m "type") "error") eqn:Et.
  - rewrite (extractErrorDetails_valid m Hv Et).
    rewrite (isValidationError_spec m Hm Hd), (isHandlerError_spec m Hm Hd), Et.
    cbn [andb].
    apply is_string_true in Et. rewrite Et.
    cbn [is_string String.eqb Ascii.eqb Bool.eqb negb].
    destruct (is_string (get_own (get_own m "data") "error") "Message validation failed")
      eqn:Ev.
    + apply is_string_true in Ev. rewrite Ev. page_eq.
    + destruct (is_string (get_own (get_own m "data") "error") "Handler execution failed");
        page_eq.
  - cbn [andb]. destruct (is_string (get_own m "type") "heartbeat"); page_eq.
Qed.

End HandlerFacts.

(** ** The handlers of the hook, each by the page it leaves *)
Module HandlerSpecs.
Import UseWebSocket HookEvents UtilsFacts MoreUtilsFacts HookFacts HandlerFacts.
#[local] Open Scope Z_scope.

Ltac run_handler :=
  repeat progress
    (unfold settle, in_world, zoom, setStats, notify, clearInterval, clearTimeout,
       clear_timer, setTimeout, setInterval, add_timer, Date_now, console_log,
       bind, modify, gets, ret, lift, id;
     cbv beta iota zeta; fields).

Ltac same_page :=
  try refine (f_equal (pair (Normal tt)) _);
  apply Page_ext; fields;
  try (apply Stats_ext; fields);
  rewrite <- ?app_assoc, ?app_nil_r; reflexivity.

Lemma stopHeartbeat_spec (p : Page) :
  stopHeartbeat p = (Normal tt, heartbeat_stopped p).
Proof.
  unfold stopHeartbeat, heartbeat_stopped. run_handler.
  destruct (heartbeatTimeoutRef p); reflexivity.
Qed.

Lemma startHeartbeat_spec (o : Settings) (p : Page) :
  startHeartbeat o p
  = (Normal tt,
     let p1 := match heartbeatTimeoutRef p with
               | Some t => set_timers (without t (timers p)) p
               | None => p
               end in
     set_heartbeatTimeoutRef (Some (next_timer p))
       (with_timer (new_timer true SendHeartbeat (heartbeat_ms o) p) p1)).
Proof.
  unfold startHeartbeat, with_timer, new_timer. run_handler.
  destruct (heartbeatTimeoutRef p); run_handler; same_page.
Qed.

Lemma onopen_spec (o : Settings) (p : Page) :
  onopen o p
  = (Normal tt,
     let p1 := match heartbeatTimeoutRef p with
               | Some t => set_timers (without t (timers p)) p
               | None => p
               end in
     set_notices (notices p ++ [onConnect])%list
       (set_heartbeatTimeoutRef (Some (next_timer p))
          (with_timer (new_timer true SendHeartbeat (heartbeat_ms o) p)
             (set_reconnectAttemptsRef 0
                (set_stats (set_lastConnectedAt (Some (now (world p))) (stats p))
                   (set_connectionState connected (set_isConnected true p1))))))).
Proof.
  unfold onopen. run_handler. rewrite startHeartbeat_spec. run_handler.
  unfold with_timer, new_timer.
  destruct (heartbeatTimeoutRef p) eqn:E; fields; rewrite ?E; same_page.
Qed.

Lemma onclose_spec (o : Settings) (p : Page) :
  onclose o p
  = (Normal tt,
     let p1 :=
       set_notices (notices p ++ [onDisconnect])%list
         (set_stats (set_lastDisconnectedAt (Some (now (world p))) (stats p))
            (set_connectionState disconnected
               (set_isConnected false (heartbeat_stopped p)))) in
     if shouldReconnectRef p && (reconnectAttemptsRef p <? max_attempts o)
     then set_reconnectTimeoutRef (Some (next_timer p))
            (with_timer (new_timer false Connect (reconnect_ms o) p)
               (set_stats (set_reconnectAttempts (reconnectAttempts (stats p) + 1)
                             (stats p1))
                  (set_reconnectAttemptsRef (reconnectAttemptsRef p + 1) p1)))
     else p1).
Proof.
  unfold onclose. run_handler. rewrite stopHeartbeat_spec. run_handler.
  unfold heartbeat_stopped, with_timer, new_timer.
  fields. destruct (heartbeatTimeoutRef p) eqn:E; fields;
    destruct (shouldReconnectRef p && (reconnectAttemptsRef p <? max_attempts o));
    run_handler; same_page.
Qed.

Lemma onerror_spec (p : Page) :
  onerror p = (Normal tt, set_notices (notices p ++ [onError])%list
                            (set_connectionState errored p)).
Proof. unfold onerror. run_handler. same_page. Qed.

Lemma WebSocket_close_spec (ws : nat) (p : Page) :
  WebSocket_close ws p = (Normal tt, closing ws p).
Proof. reflexivity. Qed.

Lemma fields_closing (ws : nat) (p : Page) :
  world (closing ws p) = world p /\ timers (closing ws p) = timers p
  /\ next_timer (closing ws p) = next_timer p /\ isConnected (closing ws p) = isConnected p
  /\ connectionState (closing ws p) = connectionState p
  /\ lastMessage (closing ws p) = lastMessage p /\ stats (closing ws p) = stats p
  /\ wsRef (closing ws p) = wsRef p
  /\ reconnectTimeoutRef (closing ws p) = reconnectTimeoutRef p
  /\ heartbeatTimeoutRef (closing ws p) = heartbeatTimeoutRef p
  /\ reconnectAttemptsRef (closing ws p) = reconnectAttemptsRef p
  /\ shouldReconnectRef (closing ws p) = shouldReconnectRef p
  /\ notices (closing ws p) = notices p
  /\ List.length (sockets (closing ws p)) = List.length (sockets p).
Proof.
  unfold closing, update_socket.
  destruct (socket_state ws p) as [[]|]; fields; repeat split;
    try reflexivity; apply length_alter.
Qed.

Lemma disconnect_spec (p : Page) :
  disconnect p = (Normal tt, after_disconnect p).
Proof.
  unfold disconnect, after_disconnect. run_handler.
  destruct (reconnectTimeoutRef p) eqn:Er; run_handler;
    rewrite stopHeartbeat_spec; run_handler; unfold heartbeat_stopped; fields;
    destruct (heartbeatTimeoutRef p) eqn:Eh; fields;
    destruct (wsRef p) eqn:Ew; run_handler; fields; rewrite ?WebSocket_close_spec;
    run_handler; reflexivity.
Qed.

Lemma reconnect_spec (p : Page) :
  reconnect p
  = (Normal tt,
     let q := set_reconnectAttemptsRef 0 (set_shouldReconnectRef true (after_disconnect p)) in
     with_timer (new_timer false Connect 100 q) q).
Proof.
  unfold reconnect. run_handler. rewrite disconnect_spec. run_handler.
  unfold with_timer, new_timer. fields. reflexivity.
Qed.

(** A send: the answer, and a page that differs in the socket, the
    statistics and the world only. *)
Lemma send_cases (c : Eff Page bool) (p : Page) :
  (forall ws, wsRef p = Some ws -> socket_state ws p = Some OPEN ->
     (exists text w, c p = (Normal true, sent_page ws text (set_world w p)))
     \/ (exists w, c p = (Normal false, set_world w p))) ->
  (not_open p = true -> exists w, c p = (Normal false, set_world w p)) ->
  exists b p',
    c p = (Normal b, p')
    /\ timers p' = timers p /\ next_timer p' = next_timer p
    /\ isConnected p' = isConnected p /\ connectionState p' = connectionState p
    /\ lastMessage p' = lastMessage p
    /\ wsRef p' = wsRef p /\ reconnectTimeoutRef p' = reconnectTimeoutRef p
    /\ heartbeatTimeoutRef p' = heartbeatTimeoutRef p
    /\ reconnectAttemptsRef p' = reconnectAttemptsRef p
    /\ shouldReconnectRef p' = shouldReconnectRef p
    /\ notices p' = notices p
    /\ List.length (sockets p') = List.length (sockets p)
    /\ stats p' = (if b then set_messagesSent (messagesSent (stats p) + 1) (stats p)
                   else stats p)
    /\ (forall ws, wsRef p = Some ws ->
          List.length (frames ws p')
          = (List.length (frames ws p) + if b then 1 else 0)%nat)
    /\ (forall ws, wsRef p <> Some ws -> frames ws p' = frames ws p).
Proof.
  intros Hopen Hclosed.
  destruct (not_open p) eqn:Hn.
  - destruct (Hclosed eq_refl) as [w ->]. eexists _, _. split; [reflexivity|].
    unfold frames. fields. repeat split; try reflexivity. intros. lia.
  - apply not_open_false in Hn as (ws & Hws & Hst).
    destruct (Hopen ws Hws Hst) as [(text & w & ->) | (w & ->)].
    + eexists _, _. split; [reflexivity|].
      unfold sent_page, transmit, update_socket. fields.
      repeat split; try reflexivity.
      * apply length_alter.
      * intros ws' Hws'. rewrite Hws in Hws'. injection Hws' as <-.
        unfold frames. fields. rewrite list_lookup_alter_eq.
        unfold socket_state in Hst.
        destruct (sockets p !! ws) as [s|]; [|discriminate Hst].
        cbn. rewrite length_app. reflexivity.
      * intros ws' Hws'. unfold frames. fields.
        rewrite list_lookup_alter_ne by congruence. reflexivity.
    + eexists _, _. split; [reflexivity|].
      unfold frames. fields. repeat split; try reflexivity. intros. lia.
Qed.

Lemma sendMessage_cases (type : MessageType) (data : JsVal) (p : Page) :
  (forall ws, wsRef p = Some ws -> socket_state ws p = Some OPEN ->
     (exists text w, sendMessage type data p
                     = (Normal true, sent_page ws text (set_world w p)))
     \/ (exists w, sendMessage type data p = (Normal false, set_world w p)))
  /\ (not_open p = true ->
      exists w, sendMessage type data p = (Normal false, set_world w p)).
Proof.
  split.
  - intros ws Hws Hst. left. rewrite (sendMessage_open type data p ws Hws Hst). eauto.
  - intros Hn. rewrite (sendMessage_not_open type data p Hn). eauto.
Qed.

Lemma sendRawMessage_cases (message : JsVal) (p : Page) :
  (forall ws, wsRef p = Some ws -> socket_state ws p = Some OPEN ->
     (exists text w, sendRawMessage message p
                     = (Normal true, sent_page ws text (set_world w p)))
     \/ (exists w, sendRawMessage message p = (Normal false, set_world w p)))
  /\ (not_open p = true ->
      exists w, sendRawMessage message p = (Normal false, set_world w p)).
Proof.
  split.
  - intros ws Hws Hst. rewrite (sendRawMessage_open message p ws Hws Hst).
    destruct (valid_structure message); [left|right].
    + exists (stringify_text message), (world p).
      refine (f_equal (pair (Normal true)) _).
      unfold sent_page, transmit, update_socket. apply Page_ext; fields; reflexivity.
    + eauto.
  - intros Hn. rewrite (sendRawMessage_not_open message p Hn). eauto.
Qed.

End HandlerSpecs.

(** ** What the hook keeps *)
Module SteadyFacts.
Import UseWebSocket HookEvents UtilsFacts MoreUtilsFacts HookFacts HandlerFacts HandlerSpecs.
#[local] Open Scope Z_scope.

Lemma elem_of_without (id : nat) (l : list Timer) (t : Timer) :
  t ∈ without id l <-> t ∈ l /\ timer_id t <> id.
Proof.
  unfold without. rewrite list_elem_of_In, filter_In, <- list_elem_of_In.
  now rewrite negb_true_iff, Nat.eqb_neq.
Qed.

Lemma NoDup_without (id : nat) (l : list Timer) :
  NoDup (List.map timer_id l) -> NoDup (List.map timer_id (without id l)).
Proof.
  induction l as [|t l IH]; [auto|]. cbn [List.map without List.filter].
  intros H. apply NoDup_cons in H as [Hn H].
  destruct (negb (Nat.eqb (timer_id t) id)); [|now apply IH].
  cbn [List.map]. apply NoDup_cons. split; [|now apply IH].
  intros Hin. apply Hn. apply list_elem_of_fmap in Hin as (t' & -> & Ht').
  apply elem_of_without in Ht' as [Ht' _].
  apply list_elem_of_fmap. eauto.
Qed.

Lemma NoDup_with_new (t : Timer) (l : list Timer) :
  NoDup (List.map timer_id l) ->
  (forall t', t' ∈ l -> timer_id t' <> timer_id t) ->
  NoDup (List.map timer_id (l ++ [t])).
Proof.
  intros H Hf. rewrite List.map_app. apply NoDup_app. split; [exact H|].
  split; [|apply NoDup_singleton].
  intros x Hx Hx'. apply list_elem_of_singleton in Hx' as ->.
  apply list_elem_of_fmap in Hx as (t' & E & Ht'). exact (Hf t' Ht' (eq_sym E)).
Qed.

Ltac timer_facts :=
  repeat match goal with
         | H : _ ∈ (_ ++ _)%list |- _ => apply elem_of_app in H as [H|H]
         | H : _ ∈ [_] |- _ => apply list_elem_of_singleton in H; subst
         | H : _ ∈ [] |- _ => apply elem_of_nil in H; destruct H
         | H : _ ∈ without _ _ |- _ => apply elem_of_without in H as [H ?]
         end.

(** One field of [steady] on the page a handler leaves, from the fields
    [H1] to [H10] of [steady] on the page it found. *)
Ltac known_timer H1 :=
  match goal with
  | Ht : ?t ∈ timers _ |- _ => pose proof (H1 t Ht)
  end.

Ltac in_timers :=
  first [ eassumption
        | apply elem_of_app; left; in_timers
        | apply elem_of_without; split; [in_timers | congruence] ].

Ltac steady_field H1 H2 H3 H4 H5 H6 H7 H8 H9 H10 :=
  lazymatch goal with
  | |- forall t, t ∈ _ -> (timer_id t < _)%nat =>
      let t := fresh "t" in let Ht := fresh "Ht" in
      intros t Ht; timer_facts; unfold new_timer; cbn [timer_id]; fields;
      try known_timer H1; lia
  | |- NoDup _ =>
      repeat first [ assumption | apply NoDup_without
                   | apply NoDup_with_new;
                     [| let t := fresh "t" in let Ht := fresh "Ht" in
                        intros t Ht; timer_facts; unfold new_timer; cbn [timer_id]; fields;
                        try known_timer H1; lia ] ]
  | |- forall t, t ∈ _ -> callback t = SendHeartbeat -> _ = Some (timer_id t) =>
      let t := fresh "t" in let Ht := fresh "Ht" in let Hc := fresh "Hc" in
      intros t Ht Hc; timer_facts; try discriminate Hc; try reflexivity;
      match goal with
      | Ht : ?t ∈ timers _ |- _ => pose proof (H3 t Ht Hc); congruence
      end
  | |- forall id, _ = Some id -> exists t, _ =>
      let id := fresh "id" in let Hid := fresh "Hid" in
      intros id Hid; try discriminate Hid;
      try (injection Hid as <-; eexists; split;
           [apply elem_of_app; right; apply list_elem_of_singleton; reflexivity
           | split; reflexivity]);
      try (destruct (H4 id Hid) as (?t & ?Ht & ?Hi & ?Hc); eexists; split;
           [in_timers | split; assumption])
  | |- forall t, t ∈ _ -> callback t = SendHeartbeat -> repeating t = true =>
      let t := fresh "t" in let Ht := fresh "Ht" in let Hc := fresh "Hc" in
      intros t Ht Hc; timer_facts; try discriminate Hc; try reflexivity;
      match goal with
      | Ht : ?t ∈ timers _ |- _ => exact (H5 t Ht Hc)
      end
  | |- _ <-> _ => try (split; [discriminate | congruence]); try (split; congruence);
                  try exact H6
  | |- forall id, _ = Some id -> _ /\ _ =>
      let id := fresh "id" in let Hid := fresh "Hid" in
      intros id Hid; try discriminate Hid;
      try (injection Hid as <-; split; [lia | try discriminate; congruence]);
      try (destruct (H7 id Hid); split;
           [lia | try discriminate; try congruence; intros [=]; lia])
  | |- _ <= _ <= _ => try lia
  | |- _ = connected -> _ => try discriminate; try reflexivity; try exact H9
  | |- forall ws, _ = Some ws -> (ws < _)%nat =>
      try exact H10; try (intros ? [=])
  end.

Lemma onclose_steady (o : Settings) (p : Page) :
  steady o p -> steady o (settle (onclose o) p).
Proof.
  intros [H1 H2 H3 H4 H5 H6 H7 H8 H9 H10].
  unfold settle. rewrite onclose_spec. cbn [snd]. cbv zeta.
  destruct (shouldReconnectRef p && (reconnectAttemptsRef p <? max_attempts o)) eqn:E;
    unfold heartbeat_stopped, with_timer;
    destruct (heartbeatTimeoutRef p) as [h|] eqn:Eh; constructor; fields;
    rewrite ?Eh; steady_field H1 H2 H3 H4 H5 H6 H7 H8 H9 H10.
  all: try (apply andb_true_iff in E as [_ E]; apply Z.ltb_lt in E; lia).
Qed.

(** A page that differs from a steady one in nothing the hook's
    bookkeeping looks at is steady. *)
Lemma steady_frame (o : Settings) (p q : Page) :
  timers q = timers p -> next_timer q = next_timer p ->
  heartbeatTimeoutRef q = heartbeatTimeoutRef p ->
  reconnectTimeoutRef q = reconnectTimeoutRef p ->
  isConnected q = isConnected p ->
  reconnectAttemptsRef q = reconnectAttemptsRef p ->
  (connectionState q = connected -> connectionState p = connected) ->
  (forall ws, wsRef q = Some ws -> (ws < List.length (sockets q))%nat) ->
  steady o p -> steady o q.
Proof.
  intros E1 E2 E3 E4 E5 E6 E7 E8 [H1 H2 H3 H4 H5 H6 H7 H8 H9 H10].
  constructor; rewrite ?E1, ?E2, ?E3, ?E4, ?E5, ?E6; auto.
Qed.

Lemma update_socket_steady (o : Settings) (ws : nat) (f : WebSocket -> WebSocket)
    (p : Page) :
  steady o p -> steady o (update_socket ws f p).
Proof.
  intros H. apply (steady_frame o p); try reflexivity; try assumption; try (intro; assumption).
  unfold update_socket. fields. rewrite length_alter. apply H.
Qed.

Lemma onopen_steady (o : Settings) (p : Page) :
  steady o p -> steady o (settle (onopen o) p).
Proof.
  intros [H1 H2 H3 H4 H5 H6 H7 H8 H9 H10].
  unfold settle. rewrite onopen_spec. cbn [snd]. cbv zeta.
  unfold with_timer;
    destruct (heartbeatTimeoutRef p) as [h|] eqn:Eh; constructor; fields;
    rewrite ?Eh; steady_field H1 H2 H3 H4 H5 H6 H7 H8 H9 H10.
Qed.

Lemma onerror_steady (o : Settings) (p : Page) :
  steady o p -> steady o (settle onerror p).
Proof.
  intros H. unfold settle. rewrite onerror_spec. cbn [snd].
  apply (steady_frame o p); fields; try reflexivity; try discriminate; apply H.
Qed.

(** [onmessage] never throws, and touches nothing but the statistics, the
    last message, the console and the callbacks of the component. *)
Lemma onmessage_frame (data : string) (p : Page) :
  exists p',
    onmessage data p = (Normal tt, p')
    /\ sockets p' = sockets p /\ timers p' = timers p /\ next_timer p' = next_timer p
    /\ isConnected p' = isConnected p /\ connectionState p' = connectionState p
    /\ wsRef p' = wsRef p /\ reconnectTimeoutRef p' = reconnectTimeoutRef p
    /\ heartbeatTimeoutRef p' = heartbeatTimeoutRef p
    /\ reconnectAttemptsRef p' = reconnectAttemptsRef p
    /\ shouldReconnectRef p' = shouldReconnectRef p
    /\ messagesSent (stats p') = messagesSent (stats p)
    /\ reconnectAttempts (stats p') = reconnectAttempts (stats p).
Proof.
  destruct (Json.parse data) as [m|e] eqn:Hp;
    [destruct (valid_structure m) eqn:Hv|].
  - rewrite (onmessage_accepted data m p Hp Hv). eexists. split; [reflexivity|].
    cbv zeta. fields.
    destruct (is_validation_error m); [|destruct (is_handler_error m)];
      fields; repeat split; reflexivity.
  - rewrite onmessage_refused
      by (rewrite parseWebSocketMessage_spec, Hp, Hv; reflexivity).
    eexists. split; [reflexivity|]. fields. repeat split; reflexivity.
  - rewrite onmessage_refused
      by (rewrite parseWebSocketMessage_spec, Hp; reflexivity).
    eexists. split; [reflexivity|]. fields. repeat split; reflexivity.
Qed.

Lemma onmessage_steady (o : Settings) (data : string) (p : Page) :
  steady o p -> steady o (settle (onmessage data) p).
Proof.
  intros H. unfold settle.
  destruct (onmessage_frame data p)
    as (p' & -> & E1 & E2 & E3 & E4 & E5 & E6 & E7 & E8 & E9 & _).
  cbn [snd]. apply (steady_frame o p); try assumption.
  - now rewrite E5.
  - rewrite E1, E6. apply H.
Qed.

Lemma connect_cases (defaultBase : string) (o : Settings) (p : Page) :
  settle (connect defaultBase o) p = p
  \/ (exists w,
        settle (connect defaultBase o) p
        = set_world w (set_connectionState errored (set_connectionState connecting p)))
  \/ (exists u,
        settle (connect defaultBase o) p
        = set_wsRef (Some (List.length (sockets p)))
            (set_sockets (sockets p ++ [{| url := u; readyState := CONNECTING;
                                           sent := [] |}])%list
               (set_connectionState connecting p))).
Proof.
  unfold connect. run_handler. destruct (ws_is_open p); [left; reflexivity|right].
  run_handler. unfold try_catch. run_handler.
  destruct (buildUrl defaultBase o) as [u|e].
  - unfold WebSocket_new. fields. destruct (valid_ws_url u).
    + right. exists u. run_handler. reflexivity.
    + left. eexists. run_handler. apply Page_ext; fields; reflexivity.
  - left. eexists. run_handler. apply Page_ext; fields; reflexivity.
Qed.

Lemma connect_steady (defaultBase : string) (o : Settings) (p : Page) :
  steady o p -> steady o (settle (connect defaultBase o) p).
Proof.
  intros H. destruct (connect_cases defaultBase o p) as [-> | [[w ->] | [u ->]]];
    [exact H | |]; apply (steady_frame o p); fields; try reflexivity;
    try discriminate; try apply H.
  intros ws [= <-]. rewrite length_app. cbn. lia.
Qed.

Lemma disconnect_steady (o : Settings) (p : Page) :
  steady o p -> steady o (settle disconnect p).
Proof.
  intros [H1 H2 H3 H4 H5 H6 H7 H8 H9 H10].
  unfold settle. rewrite disconnect_spec. cbn [snd].
  unfold after_disconnect. cbv zeta.
  destruct (wsRef p) as [ws|] eqn:Ew;
    [destruct (fields_closing ws
                 (heartbeat_stopped
                    match reconnectTimeoutRef p with
                    | Some t => set_reconnectTimeoutRef None
                                  (set_timers (without t (timers p))
                                     (set_shouldReconnectRef false p))
                    | None => set_shouldReconnectRef false p
                    end))
       as (_ & C2 & C3 & _ & _ & _ & _ & _ & C9 & C10 & C11 & _ & _ & C14)|];
    constructor; fields; rewrite ?C2, ?C3, ?C9, ?C10, ?C11, ?C14;
    unfold heartbeat_stopped;
    destruct (reconnectTimeoutRef p) as [r|] eqn:Er; fields;
    destruct (heartbeatTimeoutRef p) as [h|] eqn:Eh; fields; rewrite ?Eh, ?Er, ?Ew;
    steady_field H1 H2 H3 H4 H5 H6 H7 H8 H9 H10.
Qed.

Lemma reconnect_steady (o : Settings) (p : Page) :
  steady o p -> steady o (settle reconnect p).
Proof.
  intros H. apply disconnect_steady in H. unfold settle in *.
  rewrite disconnect_spec in H. cbn [snd] in H.
  rewrite reconnect_spec. cbn [snd]. cbv zeta.
  destruct H as [H1 H2 H3 H4 H5 H6 H7 H8 H9 H10].
  unfold with_timer. constructor; fields;
    steady_field H1 H2 H3 H4 H5 H6 H7 H8 H9 H10.
Qed.

Lemma send_steady (o : Settings) (c : Eff Page bool) (p : Page) :
  (forall ws, wsRef p = Some ws -> socket_state ws p = Some OPEN ->
     (exists text w, c p = (Normal true, sent_page ws text (set_world w p)))
     \/ (exists w, c p = (Normal false, set_world w p))) ->
  (not_open p = true -> exists w, c p = (Normal false, set_world w p)) ->
  steady o p -> steady o (snd (c p)).
Proof.
  intros Ho Hc H.
  destruct (send_cases c p Ho Hc)
    as (b & p' & -> & E1 & E2 & E3 & E4 & E5 & E6 & E7 & E8 & E9 & E10 & E11 & E12 & _).
  cbn [snd]. apply (steady_frame o p); try assumption.
  - now rewrite E4.
  - rewrite E6, E12. apply H.
Qed.

Lemma sendHeartbeat_steady (o : Settings) (p : Page) :
  steady o p -> steady o (settle sendHeartbeat p).
Proof.
  intros H. unfold settle, sendHeartbeat. run_handler.
  destruct (wsRef p) as [ws|] eqn:Hws; [|exact H].
  destruct (ws_is_open p) eqn:Ho; [|exact H].
  assert (Hst : socket_state ws p = Some OPEN).
  { unfold ws_is_open in Ho. rewrite Hws in Ho.
    destruct (socket_state ws p) as [[]|]; congruence. }
  run_handler. rewrite HeartbeatFacts.createHeartbeatMessage_spec. run_handler.
  unfold WebSocket_send.
  replace (socket_state ws (set_world (drawn (world p)) p)) with (Some OPEN)
    by (rewrite <- Hst; reflexivity).
  cbn [snd]. unfold transmit, update_socket.
  apply (steady_frame o p); fields; try reflexivity; try exact H;
    try (intro; assumption).
  intros ws' Hws'. rewrite length_alter. now apply H.
Qed.

Lemma elem_of_find (id : nat) (l : list Timer) (t : Timer) :
  List.find (fun t' => Nat.eqb (timer_id t') id) l = Some t -> t ∈ l /\ timer_id t = id.
Proof.
  intros H. apply find_some in H as [H1 H2].
  split; [now apply list_elem_of_In | now apply Nat.eqb_eq].
Qed.

Lemma fire_steady (defaultBase : string) (o : Settings) (t : Timer) (p : Page) :
  t ∈ timers p -> steady o p -> steady o (fire defaultBase o t p).
Proof.
  intros Ht H. unfold fire. cbv zeta.
  change (List.filter (fun t' => negb (Nat.eqb (timer_id t') (timer_id t))) (timers p))
    with (without (timer_id t) (timers p)).
  match goal with
  | |- steady o (settle ?c ?q) => assert (Hq : steady o q)
  end.
  { destruct H as [H1 H2 H3 H4 H5 H6 H7 H8 H9 H10].
    unfold set_clock. constructor; fields.
    - intros t' Ht'. timer_facts.
      + exact (H1 t' Ht').
      + destruct (repeating t); timer_facts. cbn [timer_id]. exact (H1 t Ht).
    - destruct (repeating t); [|rewrite app_nil_r; now apply NoDup_without].
      apply NoDup_with_new; [now apply NoDup_without|].
      intros t' Ht'. timer_facts. cbn [timer_id]. assumption.
    - intros t' Ht' Hc. timer_facts; [exact (H3 t' Ht' Hc)|].
      destruct (repeating t); timer_facts. cbn [timer_id callback] in *.
      exact (H3 t Ht Hc).
    - intros id Hid. destruct (H4 id Hid) as (t0 & Ht0 & Hi & Hc).
      destruct (decide (timer_id t0 = timer_id t)) as [E|E].
      + assert (t0 = t) as ->.
        { clear -H2 Ht0 Ht E. induction (timers p) as [|x l IH]; [inversion Ht|].
          cbn [List.map] in H2. apply NoDup_cons in H2 as [Hx H2].
          apply elem_of_cons in Ht0 as [->|Ht0], Ht as [->|Ht]; auto.
          - exfalso. apply Hx. rewrite E. apply list_elem_of_fmap. eauto.
          - exfalso. apply Hx. rewrite <- E. apply list_elem_of_fmap. eauto. }
        rewrite (H5 t Ht Hc). eexists. split.
        * apply elem_of_app. right. apply list_elem_of_singleton. reflexivity.
        * cbn [timer_id callback]. auto.
      + exists t0. split; [|auto].
        apply elem_of_app. left. apply elem_of_without. auto.
    - intros t' Ht' Hc. timer_facts; [exact (H5 t' Ht' Hc)|].
      destruct (repeating t); timer_facts. reflexivity.
    - exact H6.
    - exact H7.
    - exact H8.
    - exact H9.
    - exact H10. }
  destruct (callback t); cbn [run_callback].
  - now apply sendHeartbeat_steady.
  - now apply connect_steady.
Qed.

Lemma react_steady (defaultBase : string) (o : Settings) (e : Event) (p : Page) :
  steady o p -> steady o (react defaultBase o e p).
Proof.
  intros H. destruct e as [ws|ws data|ws|ws|id|type data|message| |]; cbn [react].
  - unfold socket_opens. destruct (socket_state ws p) as [[]|]; try exact H.
    now apply onopen_steady, update_socket_steady.
  - unfold socket_receives. destruct (socket_state ws p) as [[]|]; try exact H.
    now apply onmessage_steady.
  - unfold socket_errors. destruct (socket_state ws p) as [[]|]; try exact H;
      now apply onerror_steady.
  - unfold socket_closes. destruct (socket_state ws p) as [[]|]; try exact H;
      now apply onclose_steady, update_socket_steady.
  - unfold timer_fires.
    destruct (List.find _ (timers p)) as [t|] eqn:E; [|exact H].
    apply elem_of_find in E as [E _]. now apply fire_steady.
  - apply send_steady; [apply sendMessage_cases.. | exact H].
  - apply send_steady; [apply sendRawMessage_cases.. | exact H].
  - now apply disconnect_steady.
  - now apply reconnect_steady.
Qed.

Lemma initial_steady (o : Settings) (w : World) :
  steady o (set_shouldReconnectRef true (initial w)).
Proof.
  constructor; cbn; try easy; try (intros t Ht; inversion Ht).
  - constructor.
  - lia.
Qed.

Lemma history_steady (defaultBase : string) (o : Settings) (events : list Event)
    (p : Page) :
  steady o p -> steady o (history defaultBase o events p).
Proof.
  unfold history. revert p. induction events as [|e r IH]; intros p H; [exact H|].
  cbn [fold_left]. apply IH. now apply react_steady.
Qed.

Lemma mounted_steady (defaultBase : string) (o : Settings) (w : World) :
  steady o (mounted defaultBase o w).
Proof. apply connect_steady, initial_steady. Qed.

Lemma heartbeat_timers_count (o : Settings) (p : Page) :
  steady o p ->
  List.length (timers_of SendHeartbeat p) = if isConnected p then 1%nat else 0%nat.
Proof.
  intros [H1 H2 H3 H4 H5 H6 H7 H8 H9 H10]. unfold timers_of.
  assert (Hin : forall l t,
             t ∈ List.filter (fun t => match callback t with
                                       | SendHeartbeat => true
                                       | Connect => false
                                       end) l
             <-> t ∈ l /\ callback t = SendHeartbeat).
  { intros l t. rewrite list_elem_of_In, filter_In, <- list_elem_of_In.
    destruct (callback t); intuition congruence. }
  destruct (isConnected p) eqn:Ec.
  - destruct (heartbeatTimeoutRef p) as [h|] eqn:Eh;
      [|exfalso; now apply (proj1 H6)].
    destruct (H4 h eq_refl) as (t0 & Ht0 & Hi & Hc).
    assert (Hall : forall t, t ∈ timers p -> callback t = SendHeartbeat -> timer_id t = h).
    { intros t Ht Hct. pose proof (H3 t Ht Hct). congruence. }
    clear -H2 Ht0 Hi Hc Hall Hin. revert H2 Ht0 Hall.
    induction (timers p) as [|x l IH]; intros H2 Ht0 Hall; [inversion Ht0|].
    cbn [List.map] in H2. apply NoDup_cons in H2 as [Hx H2].
    assert (Hrest : forall t, t ∈ l -> callback t = SendHeartbeat -> timer_id x <> h).
    { intros t Ht Hct E. apply Hx. rewrite E, <- (Hall t).
      - apply list_elem_of_fmap. eauto.
      - now apply elem_of_cons; right.
      - exact Hct. }
    cbn [List.filter]. apply elem_of_cons in Ht0 as [<-|Ht0].
    + rewrite Hc. cbn [List.length]. f_equal.
      destruct (List.filter _ l) as [|y r] eqn:Ef; [reflexivity|exfalso].
      assert (Hy : y ∈ l /\ callback y = SendHeartbeat).
      { apply Hin. rewrite Ef. apply elem_of_cons. now left. }
      destruct Hy as [Hy Hcy]. exact (Hrest y Hy Hcy Hi).
    + destruct (callback x) eqn:Ecx.
      * exfalso. apply (Hrest t0 Ht0 Hc). apply Hall; [apply elem_of_cons; now left|].
        exact Ecx.
      * apply IH; [exact H2 | exact Ht0 |].
        intros t Ht Hct. apply Hall; [apply elem_of_cons; now right | exact Hct].
  - destruct (heartbeatTimeoutRef p) as [h|] eqn:Eh.
    + exfalso. assert (false = true) by (apply H6; discriminate). discriminate.
    + destruct (List.filter _ (timers p)) as [|y r] eqn:Ef; [reflexivity|exfalso].
      assert (Hy : y ∈ timers p /\ callback y = SendHeartbeat).
      { apply Hin. rewrite Ef. apply elem_of_cons. now left. }
      destruct Hy as [Hy Hcy]. pose proof (H3 y Hy Hcy). congruence.
Qed.

End SteadyFacts.

(** ** Reconnection *)
Module ReconnectFacts.
Import UseWebSocket HookEvents UtilsFacts MoreUtilsFacts HookFacts HandlerFacts HandlerSpecs
       SteadyFacts.
#[local] Open Scope Z_scope.

Lemma socket_state_update (ws ws' : nat) (f : WebSocket -> WebSocket) (p : Page) :
  socket_state ws' (update_socket ws f p)
  = if decide (ws = ws') then readyState <$> (f <$> sockets p !! ws)
    else socket_state ws' p.
Proof.
  unfold socket_state, update_socket. fields.
  destruct (decide (ws = ws')) as [->|Hne].
  - rewrite list_lookup_alter_eq. reflexivity.
  - now rewrite list_lookup_alter_ne.
Qed.

Lemma mounted_trying (defaultBase og : string) (o : Settings) (w : World) :
  url_origin (wsBaseUrl defaultBase o) = Some og -> valid_ws_url og = true ->
  trying 0 (mounted defaultBase o w).
Proof.
  intros Ho Hv. unfold mounted.
  rewrite (connect_spec defaultBase og o (set_shouldReconnectRef true (initial w))
             eq_refl Ho Hv).
  constructor; try reflexivity. intros ws Hws. lia.
Qed.

Lemma round_trying (defaultBase og : string) (o : Settings) (k : nat) (p : Page) :
  url_origin (wsBaseUrl defaultBase o) = Some og -> valid_ws_url og = true ->
  trying k p ->
  if Z.of_nat k <? max_attempts o
  then trying (S k) (refused_round defaultBase o p)
  else given_up k (refused_round defaultBase o p).
Proof.
  intros Ho Hv [J1 J2 J3 J4 J5 J6 J7 J8 J9 J10 J11].
  assert (Hk : alter (with_state CLOSED) k (sockets p) !! k
               = with_state CLOSED <$> sockets p !! k)
    by apply list_lookup_alter_eq.
  assert (Hc : readyState <$> (with_state CLOSED <$> sockets p !! k) = Some CLOSED).
  { unfold socket_state in J3. destruct (sockets p !! k); [reflexivity | discriminate J3]. }
  unfold refused_round. rewrite J2. cbv zeta.
  unfold socket_closes. rewrite J3. unfold settle. rewrite onclose_spec. cbn [snd].
  cbv zeta. unfold heartbeat_stopped, update_socket. fields. rewrite J6, J9, J8.
  cbn [andb]. fields.
  destruct (Z.of_nat k <? max_attempts o) eqn:E.
  - unfold with_timer. fields. rewrite J5.
    cbn [app next_due]. unfold fire. cbv zeta. fields.
    cbn [List.filter new_timer timer_id repeating callback app run_callback].
    rewrite Nat.eqb_refl. cbn [negb app].
    match goal with
    | |- trying _ (settle (connect _ _) ?q) =>
        assert (Hq : ws_is_open q = false)
    end.
    { unfold ws_is_open, set_clock. fields. rewrite J2.
      unfold socket_state. fields. rewrite Hk, Hc. reflexivity. }
    rewrite (connect_spec defaultBase og o _ Hq Ho Hv).
    unfold set_clock. constructor; unfold socket_state; fields;
      rewrite ?length_app, ?length_alter, ?J1; cbn [List.length]; try reflexivity;
      try lia; try assumption.
    + rewrite lookup_app_r by (rewrite length_alter; lia).
      rewrite length_alter, J1, Nat.sub_diag. reflexivity.
    + intros ws Hws.
      rewrite lookup_app_l by (rewrite length_alter; lia).
      destruct (decide (ws = k)) as [->|Hne].
      * rewrite Hk. exact Hc.
      * rewrite list_lookup_alter_ne by congruence. apply J4. lia.
  - fields. rewrite ?J5. cbn [next_due].
    constructor; unfold socket_state; fields; rewrite ?length_alter; try assumption;
      try reflexivity.
    intros ws Hws.
    destruct (decide (ws = k)) as [->|Hne].
    + rewrite Hk. exact Hc.
    + rewrite list_lookup_alter_ne by congruence. apply J4. lia.
Qed.

Lemma round_given_up (defaultBase : string) (o : Settings) (k : nat) (p : Page) :
  given_up k p -> refused_round defaultBase o p = p.
Proof.
  intros [G1 G2 G3 G4 G5 G6 G7]. unfold refused_round. rewrite G2. cbv zeta.
  unfold socket_closes. rewrite (G3 k) by lia. rewrite G4. reflexivity.
Qed.

Lemma refused_given_up (defaultBase : string) (o : Settings) (k n : nat) (p : Page) :
  given_up k p -> refused n defaultBase o p = p.
Proof.
  intros H. induction n as [|n IH]; [reflexivity|].
  cbn [refused]. now rewrite (round_given_up defaultBase o k p H).
Qed.

Lemma refused_trying (defaultBase og : string) (o : Settings) (n k : nat) (p : Page) :
  url_origin (wsBaseUrl defaultBase o) = Some og -> valid_ws_url og = true ->
  trying k p -> Z.of_nat k <= max_attempts o ->
  let m := Z.to_nat (max_attempts o) in
  if (k + n <=? m)%nat
  then trying (k + n) (refused n defaultBase o p)
  else given_up m (refused n defaultBase o p).
Proof.
  intros Ho Hv. revert k p. induction n as [|n IH]; intros k p H Hk m.
  - cbn [refused]. rewrite Nat.add_0_r.
    destruct (k <=? m)%nat eqn:E; [exact H|].
    apply Nat.leb_gt in E. subst m. lia.
  - cbn [refused]. pose proof (round_trying defaultBase og o k p Ho Hv H) as Hr.
    destruct (Z.of_nat k <? max_attempts o) eqn:E.
    + apply Z.ltb_lt in E.
      specialize (IH (S k) _ Hr ltac:(lia)). cbv zeta in IH. fold m in IH.
      replace (k + S n)%nat with (S k + n)%nat by lia. exact IH.
    + apply Z.ltb_ge in E. assert (Hm : k = m) by (subst m; lia).
      rewrite (refused_given_up defaultBase o k n _ Hr).
      replace (k + S n <=? m)%nat with false by (symmetry; apply Nat.leb_gt; lia).
      rewrite <- Hm. exact Hr.
Qed.

End ReconnectFacts.

(** ** Disconnecting, and sockets that were replaced *)
Module DisconnectFacts.
Import UseWebSocket HookEvents UtilsFacts MoreUtilsFacts HookFacts HandlerFacts HandlerSpecs
       SteadyFacts ReconnectFacts.
#[local] Open Scope Z_scope.

Lemma timer_unique (l : list Timer) (t t' : Timer) :
  NoDup (List.map timer_id l) -> t ∈ l -> t' ∈ l -> timer_id t = timer_id t' -> t = t'.
Proof.
  induction l as [|x l IH]; intros H Ht Ht' E; [inversion Ht|].
  cbn [List.map] in H. apply NoDup_cons in H as [Hx H].
  apply elem_of_cons in Ht as [->|Ht], Ht' as [->|Ht']; auto.
  - exfalso. apply Hx. rewrite E. apply list_elem_of_fmap. eauto.
  - exfalso. apply Hx. rewrite <- E. apply list_elem_of_fmap. eauto.
Qed.

Lemma sockets_closing (ws : nat) (p : Page) :
  sockets (closing ws p) = closed_list ws (sockets p).
Proof.
  unfold closing, closed_list, socket_state, update_socket.
  destruct (readyState <$> sockets p !! ws) as [[]|]; reflexivity.
Qed.

(** The page after [disconnect], field by field. *)
Lemma after_disconnect_fields (p : Page) :
  after_disconnect p
  = {| world := world p;
       sockets := match wsRef p with
                  | Some ws => closed_list ws (sockets p)
                  | None => sockets p
                  end;
       timers := (let l := match reconnectTimeoutRef p with
                           | Some r => without r (timers p)
                           | None => timers p
                           end in
                  match heartbeatTimeoutRef p with Some h => without h l | None => l end);
       next_timer := next_timer p;
       isConnected := false;
       connectionState := disconnected;
       lastMessage := lastMessage p;
       stats := stats p;
       wsRef := None;
       reconnectTimeoutRef := None;
       heartbeatTimeoutRef := None;
       reconnectAttemptsRef := reconnectAttemptsRef p;
       shouldReconnectRef := false;
       notices := notices p |}.
Proof.
  unfold after_disconnect. cbv zeta.
  destruct (wsRef p) as [ws|] eqn:Ew.
  - match goal with
    | |- context [closing ws ?q] =>
        destruct (fields_closing ws q)
          as (C1 & C2 & C3 & C4 & C5 & C6 & C7 & C8 & C9 & C10 & C11 & C12 & C13 & C14);
        pose proof (sockets_closing ws q) as C15
    end.
    apply Page_ext; fields;
      rewrite ?C1, ?C2, ?C3, ?C6, ?C7, ?C9, ?C10, ?C11, ?C12, ?C13, ?C15;
      unfold heartbeat_stopped;
      destruct (reconnectTimeoutRef p) as [r|] eqn:Er; fields;
      destruct (heartbeatTimeoutRef p) as [h|] eqn:Eh; fields; rewrite ?Er, ?Eh;
      reflexivity.
  - unfold heartbeat_stopped.
    apply Page_ext; fields;
      destruct (reconnectTimeoutRef p) as [r|] eqn:Er; fields;
      destruct (heartbeatTimeoutRef p) as [h|] eqn:Eh; fields; rewrite ?Er, ?Eh, ?Ew;
      reflexivity.
Qed.

Lemma onclose_quiet (o : Settings) (p : Page) :
  shouldReconnectRef p = false -> heartbeatTimeoutRef p = None ->
  let q := settle (onclose o) p in
  timers q = timers p /\ sockets q = sockets p /\ wsRef q = wsRef p
  /\ next_timer q = next_timer p /\ isConnected q = false.
Proof.
  intros Hs Hh. unfold settle. rewrite onclose_spec. cbn [snd]. cbv zeta.
  rewrite Hs. cbn [andb]. unfold heartbeat_stopped. rewrite Hh. fields.
  repeat split; reflexivity.
Qed.

Lemma socket_closes_quiet (o : Settings) (ws : nat) (p : Page) :
  shouldReconnectRef p = false -> heartbeatTimeoutRef p = None ->
  let q := socket_closes o ws p in
  timers q = timers p /\ List.length (sockets q) = List.length (sockets p)
  /\ wsRef q = wsRef p /\ next_timer q = next_timer p.
Proof.
  intros Hs Hh. unfold socket_closes.
  destruct (socket_state ws p) as [[]|]; cbv zeta; try (repeat split; reflexivity).
  all: destruct (onclose_quiet o (update_socket ws (with_state CLOSED) p) Hs Hh)
         as (E1 & E2 & E3 & E4 & _);
       rewrite E1, E2, E3, E4; unfold update_socket; fields;
       rewrite length_alter; repeat split; reflexivity.
Qed.

(** The timers [disconnect] leaves on a steady page: the delayed
    connections that no ref holds. *)
Lemma after_disconnect_timers (o : Settings) (p : Page) (t : Timer) :
  steady o p ->
  t ∈ timers (after_disconnect p)
  <-> t ∈ timers p /\ callback t = Connect /\ reconnectTimeoutRef p <> Some (timer_id t).
Proof.
  intros [H1 H2 H3 H4 H5 H6 H7 H8 H9 H10].
  rewrite after_disconnect_fields. fields. cbv zeta.
  assert (Hhb : forall h, heartbeatTimeoutRef p = Some h ->
                  forall t, t ∈ timers p -> (timer_id t <> h <-> callback t = Connect)).
  { intros h Eh t' Ht'. split.
    - intros Hne. destruct (callback t') eqn:Ec; [|reflexivity].
      pose proof (H3 t' Ht' Ec). congruence.
    - intros Hc E. destruct (H4 h Eh) as (t0 & Ht0 & Hi & Hc0).
      assert (t' = t0) by (apply (timer_unique (timers p)); auto; congruence).
      subst t'. congruence. }
  assert (Hno : heartbeatTimeoutRef p = None ->
                forall t, t ∈ timers p -> callback t = Connect).
  { intros Eh t' Ht'. destruct (callback t') eqn:Ec; [|reflexivity].
    pose proof (H3 t' Ht' Ec). congruence. }
  destruct (reconnectTimeoutRef p) as [r|] eqn:Er;
    destruct (heartbeatTimeoutRef p) as [h|] eqn:Eh;
    rewrite ?elem_of_without; split.
  - intros [[Ht Hr] Hh]. split; [exact Ht|]. split; [now apply (Hhb h eq_refl t Ht)|].
    congruence.
  - intros (Ht & Hc & Hr). split; [split; [exact Ht | congruence]|].
    now apply (Hhb h eq_refl t Ht).
  - intros [Ht Hr]. split; [exact Ht|]. split; [now apply Hno | congruence].
  - intros (Ht & Hc & Hr). split; [exact Ht | congruence].
  - intros [Ht Hh]. split; [exact Ht|]. split; [now apply (Hhb h eq_refl t Ht) | discriminate].
  - intros (Ht & Hc & _). split; [exact Ht | now apply (Hhb h eq_refl t Ht)].
  - intros Ht. split; [exact Ht|]. split; [now apply Hno | discriminate].
  - now intros (Ht & _).
Qed.

(** A delayed connection that fires while the current socket is open
    does nothing. *)
Lemma fire_connect_open (defaultBase : string) (o : Settings) (t : Timer) (p : Page) :
  callback t = Connect -> ws_is_open p = true ->
  fire defaultBase o t p
  = set_timers (without (timer_id t) (timers p)
                ++ if repeating t
                   then [{| timer_id := timer_id t; repeating := true; delay := delay t;
                            due := due t + delay t; callback := callback t |}]
                   else [])%list
      (set_clock (Z.max (now (world p)) (due t)) p).
Proof.
  intros Hc Ho. unfold fire. cbv zeta. rewrite Hc. cbn [run_callback].
  unfold settle, connect. run_handler.
  replace (ws_is_open _) with true by (rewrite <- Ho; reflexivity).
  reflexivity.
Qed.

Lemma stalled_is_open (ws : nat) (l : list WebSocket) (p : Page) :
  stalled ws l p -> ws_is_open p = true.
Proof.
  intros [K1 K2 K3 K4 K5]. unfold ws_is_open, socket_state. now rewrite K2, K1, K3.
Qed.

Lemma timer_fires_stalled (defaultBase : string) (o : Settings) (ws : nat)
    (l : list WebSocket) (id : nat) (p : Page) :
  stalled ws l p -> stalled ws l (timer_fires defaultBase o id p).
Proof.
  intros K. unfold timer_fires.
  destruct (List.find _ (timers p)) as [t|] eqn:E; [|exact K].
  apply elem_of_find in E as [Ht _].
  pose proof (stalled_is_open ws l p K) as Ho.
  destruct K as [K1 K2 K3 K4 K5].
  rewrite (fire_connect_open defaultBase o t p (K5 t Ht) Ho).
  unfold set_clock. constructor; fields; try assumption.
  intros t' Ht'. apply elem_of_app in Ht' as [Ht'|Ht'].
  - apply elem_of_without in Ht' as [Ht' _]. now apply K5.
  - destruct (repeating t); [|inversion Ht'].
    apply list_elem_of_singleton in Ht' as ->. cbn [callback]. now apply K5.
Qed.

Lemma timers_fire_stalled (defaultBase : string) (o : Settings) (ws : nat)
    (l : list WebSocket) (ids : list nat) (p : Page) :
  stalled ws l p ->
  stalled ws l (history defaultBase o (List.map TimerFires ids) p).
Proof.
  unfold history. revert p. induction ids as [|id r IH]; intros p K; [exact K|].
  cbn [List.map fold_left react]. apply IH. now apply timer_fires_stalled.
Qed.

Lemma no_heartbeat_timers (o : Settings) (p : Page) :
  steady o p -> isConnected p = false ->
  timers_of SendHeartbeat p = [] /\ forall t, t ∈ timers p -> callback t = Connect.
Proof.
  intros H Hc. pose proof (heartbeat_timers_count o p H) as Hl. rewrite Hc in Hl.
  split; [now apply nil_length_inv|].
  intros t Ht. destruct (callback t) eqn:E; [exfalso|reflexivity].
  destruct H as [H1 H2 H3 H4 H5 H6 H7 H8 H9 H10].
  pose proof (H3 t Ht E) as Hr.
  assert (true = false); [|discriminate].
  rewrite <- Hc. symmetry. apply H6. congruence.
Qed.

Lemma stalled_no_heartbeat (ws : nat) (l : list WebSocket) (p : Page) :
  stalled ws l p -> timers_of SendHeartbeat p = [].
Proof.
  intros [K1 K2 K3 K4 K5]. unfold timers_of.
  induction (timers p) as [|t r IH]; [reflexivity|].
  cbn [List.filter]. rewrite (K5 t) by (apply elem_of_cons; now left).
  apply IH. intros t' Ht'. apply K5. apply elem_of_cons. now right.
Qed.

End DisconnectFacts.

(** ** The form encoding of the query *)
Module FormEncodingFacts.
Import FormEncoding.

Lemma decode_first_encode (c : ascii) (r : string) :
  decode_first (form_encode_char c ++ r) = Some (c, r).
Proof. destruct c as [[] [] [] [] [] [] [] []]; reflexivity. Qed.

Lemma form_encode_char_nonempty (c : ascii) (r : string) :
  form_encode_char c ++ r <> "".
Proof. destruct c as [[] [] [] [] [] [] [] []]; discriminate. Qed.

Lemma form_encode_inj (a b : string) : form_encode a = form_encode b -> a = b.
Proof.
  revert b. induction a as [|c a IH]; intros [|d b] H; cbn [form_encode] in H.
  - reflexivity.
  - symmetry in H. now apply form_encode_char_nonempty in H.
  - now apply form_encode_char_nonempty in H.
  - pose proof (decode_first_encode c (form_encode a)) as H1.
    rewrite H, decode_first_encode in H1. injection H1 as -> H1.
    f_equal. apply IH. now symmetry.
Qed.

Lemma all_chars_app (f : ascii -> bool) (a b : string) :
  all_chars f (a ++ b) = all_chars f a && all_chars f b.
Proof.
  induction a as [|c a IH]; [reflexivity|].
  change (String c a ++ b) with (String c (a ++ b)). cbn [all_chars].
  now rewrite IH, andb_assoc.
Qed.

Lemma form_encode_char_safe (c : ascii) : all_chars query_safe (form_encode_char c) = true.
Proof. destruct c as [[] [] [] [] [] [] [] []]; reflexivity. Qed.

Lemma form_encode_safe (s : string) : all_chars query_safe (form_encode s) = true.
Proof.
  induction s as [|c s IH]; [reflexivity|].
  cbn [form_encode]. now rewrite all_chars_app, form_encode_char_safe, IH.
Qed.

Lemma string_app_inv_head (a x y : string) : a ++ x = a ++ y -> x = y.
Proof.
  induction a as [|c a IH]; [auto|].
  change (String c a ++ x) with (String c (a ++ x)).
  change (String c a ++ y) with (String c (a ++ y)).
  intros [= H]. auto.
Qed.

(** Where the first [&] is. *)
Lemma split_at_ampersand (a a' r r' : string) :
  all_chars query_safe a = true -> all_chars query_safe a' = true ->
  a ++ String "&" r = a' ++ String "&" r' -> a = a' /\ r = r'.
Proof.
  revert a'. induction a as [|c a IH]; intros [|c' a'] Ha Ha' H.
  - cbn in H. injection H as ->. auto.
  - cbn in H. injection H as <- _. cbn in Ha'. discriminate Ha'.
  - cbn in H. injection H as -> _. cbn in Ha. discriminate Ha.
  - change (String c a ++ ?x) with (String c (a ++ x)) in H.
    change (String c' a' ++ ?x) with (String c' (a' ++ x)) in H.
    injection H as -> H. cbn [all_chars] in Ha, Ha'.
    apply andb_true_iff in Ha as [_ Ha], Ha' as [_ Ha'].
    destruct (IH a' Ha Ha' H) as [-> ->]. auto.
Qed.

Lemma safe_has_no_ampersand (a b r : string) :
  all_chars query_safe a = true -> a <> b ++ String "&" r.
Proof.
  intros Ha ->. rewrite all_chars_app in Ha. apply andb_true_iff in Ha as [_ Ha].
  cbn in Ha. discriminate Ha.
Qed.

Lemma written_query_inj (ps ps' : WebSocketConnectionParams) :
  written_query ps = written_query ps' ->
  user_id ps = user_id ps' /\ project_id ps = project_id ps'
  /\ named_workflow ps = named_workflow ps'.
Proof.
  unfold written_query. intros H.
  apply (string_app_inv_head "user_id=") in H.
  change ("&project_id=" ++ ?x) with (String "&" ("project_id=" ++ x)) in H.
  apply split_at_ampersand in H as [Hu H]; try apply form_encode_safe.
  apply form_encode_inj in Hu. split; [exact Hu|].
  apply (string_app_inv_head "project_id=") in H.
  destruct (named_workflow ps) as [wf|], (named_workflow ps') as [wf'|].
  - change ("&workflow_id=" ++ ?x) with (String "&" ("workflow_id=" ++ x)) in H.
    apply split_at_ampersand in H as [Hp H]; try apply form_encode_safe.
    apply form_encode_inj in Hp. split; [exact Hp|].
    apply (string_app_inv_head "workflow_id=") in H.
    apply form_encode_inj in H. now subst.
  - exfalso. rewrite JsonFacts.app_empty_r in H. symmetry in H. revert H.
    change ("&workflow_id=" ++ ?x) with (String "&" ("workflow_id=" ++ x)).
    apply safe_has_no_ampersand, form_encode_safe.
  - exfalso. rewrite JsonFacts.app_empty_r in H. revert H.
    change ("&workflow_id=" ++ ?x) with (String "&" ("workflow_id=" ++ x)).
    apply safe_has_no_ampersand, form_encode_safe.
  - rewrite !JsonFacts.app_empty_r in H. apply form_encode_inj in H. auto.
Qed.

Lemma buildWebSocketUrl_written (baseUrl : option string) (og : string)
    (ps : WebSocketConnectionParams) :
  url_origin (default "ws://localhost:8000" baseUrl) = Some og ->
  buildWebSocketUrl baseUrl ps = Normal (og ++ "/ws?" ++ written_query ps).
Proof.
  intros H. rewrite (HookFacts.buildWebSocketUrl_spec baseUrl og ps H).
  unfold UseWebSocket.connection_query, written_query, named_workflow.
  destruct (workflow_id ps) as [wf|]; [destruct (String.eqb wf "")|]; reflexivity.
Qed.

End FormEncodingFacts.

(** ** Object literals and spreads *)
Module ObjectsFacts.
Import Objects.

Lemma lookup_set_prop_eq (props : list (string * JsVal)) (k : string) (x : JsVal) :
  lookup k (set_prop props k x) = Some x.
Proof.
  induction props as [|[k' v] rest IH]; simpl.
  - now rewrite String.eqb_refl.
  - destruct (String.eqb k k') eqn:E; simpl; rewrite E; [reflexivity | exact IH].
Qed.

Lemma lookup_set_prop_ne (props : list (string * JsVal)) (k k' : string) (x : JsVal) :
  k <> k' -> lookup k (set_prop props k' x) = lookup k props.
Proof.
  intros Hne. induction props as [|[k'' v] rest IH]; simpl.
  - apply String.eqb_neq in Hne. now rewrite Hne.
  - destruct (String.eqb k' k'') eqn:E; simpl.
    + apply String.eqb_eq in E. subst k''.
      apply String.eqb_neq in Hne. now rewrite Hne.
    + now rewrite IH.
Qed.

Lemma set_prop_idem (props : list (string * JsVal)) (k : string) (x : JsVal) :
  set_prop (set_prop props k x) k x = set_prop props k x.
Proof.
  induction props as [|[k' v] rest IH]; simpl.
  - now rewrite String.eqb_refl.
  - destruct (String.eqb k k') eqn:E; simpl; rewrite E; [reflexivity | now rewrite IH].
Qed.

Lemma keys_set_prop (props : list (string * JsVal)) (k : string) (x : JsVal) (name : string) :
  name ∈ List.map fst (set_prop props k x) <-> name = k \/ name ∈ List.map fst props.
Proof.
  induction props as [|[k' v] rest IH]; simpl.
  - rewrite elem_of_cons. rewrite elem_of_nil. tauto.
  - destruct (String.eqb k k') eqn:E; simpl.
    + apply String.eqb_eq in E. subst k'. rewrite !elem_of_cons. tauto.
    + rewrite !elem_of_cons, IH. tauto.
Qed.

Lemma NoDup_set_prop (props : list (string * JsVal)) (k : string) (x : JsVal) :
  NoDup (List.map fst props) -> NoDup (List.map fst (set_prop props k x)).
Proof.
  induction props as [|[k' v] rest IH]; simpl; intros H.
  - apply NoDup_singleton.
  - apply NoDup_cons in H as [Hn Hd].
    destruct (String.eqb k k') eqn:E; simpl.
    + apply NoDup_cons. split; assumption.
    + apply NoDup_cons. split; [|auto].
      rewrite keys_set_prop. intros [->|Hin]; [|contradiction].
      now rewrite String.eqb_refl in E.
Qed.

(** The properties of [{ ...props, ...more }]: those of [more], the last
    definition of a name winning, then those of [props]. *)
Lemma lookup_snoc (l : list (string * JsVal)) (k k' : string) (x : JsVal) :
  lookup k (l ++ [(k', x)]) =
  match lookup k l with
  | Some y => Some y
  | None => if String.eqb k k' then Some x else None
  end.
Proof.
  induction l as [|[k'' v] rest IH]; simpl; [reflexivity|].
  destruct (String.eqb k k''); [reflexivity | exact IH].
Qed.

Lemma lookup_with_props (props more : list (string * JsVal)) (k : string) :
  lookup k (with_props props more) =
  match lookup k (rev more) with
  | Some x => Some x
  | None => lookup k props
  end.
Proof.
  unfold with_props. revert props.
  induction more as [|[k' x] more IH]; intros props; simpl; [reflexivity|].
  rewrite IH, lookup_snoc.
  destruct (lookup k (rev more)); [reflexivity|].
  destruct (String.eqb k k') eqn:E.
  - apply String.eqb_eq in E. subst. apply lookup_set_prop_eq.
  - apply String.eqb_neq in E. now apply lookup_set_prop_ne.
Qed.

Lemma NoDup_with_props (props more : list (string * JsVal)) :
  NoDup (List.map fst props) -> NoDup (List.map fst (with_props props more)).
Proof.
  unfold with_props. revert props.
  induction more as [|[k x] more IH]; intros props H; simpl; [exact H|].
  apply IH. now apply NoDup_set_prop.
Qed.

Lemma lookup_None_keys (props : list (string * JsVal)) (k : string) :
  lookup k props = None <-> k ∉ List.map fst props.
Proof.
  induction props as [|[k' v] rest IH]; simpl.
  - split; [intros _; apply not_elem_of_nil | reflexivity].
  - rewrite not_elem_of_cons. destruct (String.eqb k k') eqn:E.
    + apply String.eqb_eq in E. split; [discriminate | intros [H _]; contradiction].
    + apply String.eqb_neq in E. rewrite IH. tauto.
Qed.

(** [array_map] of a callback that does not throw on the elements. *)
Lemma array_map_total (f : JsVal -> Completion JsVal) (g : JsVal -> JsVal)
    (items : list JsVal) :
  Forall (fun x => f x = Normal (g x)) items ->
  array_map f items = Normal (List.map g items).
Proof.
  induction 1 as [|x rest Hx _ IH]; simpl; [reflexivity|].
  now rewrite Hx, IH.
Qed.

(** Reading a property of a value that is neither [undefined] nor
    [null]. *)
Lemma get_nullish (v : JsVal) (k : string) :
  get v k = if nullish v then Throw TypeError else Normal (get_own v k).
Proof. now destruct v. Qed.

Lemma Forall2_map_self (P : JsVal -> JsVal -> Prop) (g : JsVal -> JsVal)
    (l : list JsVal) :
  (forall x, P x (g x)) -> Forall2 P l (List.map g l).
Proof. intros H. induction l; simpl; constructor; auto. Qed.

Lemma lookup_rev (props : list (string * JsVal)) (k : string) :
  NoDup (List.map fst props) -> lookup k (rev props) = lookup k props.
Proof.
  induction props as [|[k' v] rest IH]; simpl; intros H; [reflexivity|].
  apply NoDup_cons in H as [Hn Hd].
  rewrite lookup_snoc, (IH Hd).
  destruct (String.eqb k k') eqn:E; [|now destruct (lookup k rest)].
  apply String.eqb_eq in E. subst k'.
  apply lookup_None_keys in Hn. now rewrite Hn.
Qed.

End ObjectsFacts.

(** ** The updates of useWorkflow *)
Module WorkflowFacts.
Import Objects ObjectsFacts WorkflowUpdates.

Ltac run :=
  unfold bind, lift, ret, throw, Date_new_toISOString, Date_now, gets; cbn beta iota.

(** A valid message is an object with a [type] and a [data] that
    properties can be read of. *)
Lemma valid_message_parts (m : JsVal) :
  validateMessage m = Normal true ->
  nullish m = false /\ nullish (get_own m "data") = false.
Proof.
  unfold validateMessage. intros H.
  destruct (negb (String.eqb (typeof m) "object") || _) eqn:Hm; [discriminate H|].
  assert (Hn : nullish m = false) by (destruct m; try reflexivity; discriminate Hm).
  rewrite !get_nullish, Hn in H. cbn [cbind] in H.
  destruct (negb (truthy (get_own m "type")) || _); [discriminate H|].
  destruct (negb (truthy (get_own m "data")) || _) eqn:Hd; [discriminate H|].
  split; [exact Hn|].
  destruct (get_own m "data"); try reflexivity; discriminate Hd.
Qed.

(** The queued updates of each handler. *)
Lemma handleWorkflowStatusUpdate_queues (seen data : JsVal) (w : World) :
  nullish data = false ->
  handleWorkflowStatusUpdate seen data w
  = (Normal (setWorkflows
               (handleWorkflowStatusUpdate_workflows (get_own data "workflow_id")
                  (get_own data "status") (get_own data "current_step")
                  (get_own data "progress"))
             :: if strict_equal (optional_get seen "workflowId") (get_own data "workflow_id")
                then [setCurrentWorkflow
                        (handleWorkflowStatusUpdate_current (get_own data "status")
                           (get_own data "current_step") (get_own data "progress"))]
                else []), w).
Proof.
  intros H. unfold handleWorkflowStatusUpdate. run.
  rewrite get_nullish, H. reflexivity.
Qed.

Lemma handleWorkflowStepComplete_queues (seen data : JsVal) (w : World) :
  nullish data = false ->
  handleWorkflowStepComplete seen data w
  = (Normal (setWorkflows
               (handleWorkflowStepComplete_workflows (get_own data "workflow_id")
                  (get_own data "step_name") (get_own data "result"))
             :: if strict_equal (optional_get seen "workflowId") (get_own data "workflow_id")
                then [setCurrentWorkflow
                        (handleWorkflowStepComplete_current (get_own data "step_name")
                           (get_own data "result"))]
                else []), w).
Proof.
  intros H. unfold handleWorkflowStepComplete. run.
  rewrite get_nullish, H. reflexivity.
Qed.

Lemma handleWorkflowError_queues (seen data : JsVal) (w : World) :
  nullish data = false ->
  handleWorkflowError seen data w
  = (Normal (setError (get_own data "error")
             :: setWorkflows (handleWorkflowError_workflows (get_own data "workflow_id"))
             :: if strict_equal (optional_get seen "workflowId") (get_own data "workflow_id")
                then [setCurrentWorkflow handleWorkflowError_current]
                else []), w).
Proof.
  intros H. unfold handleWorkflowError. run.
  rewrite get_nullish, H. reflexivity.
Qed.

Lemma handleHITLCheckpointCreated_queues (data : JsVal) (w : World) :
  nullish data = false ->
  handleHITLCheckpointCreated data w
  = if nullish (get_own data "checkpoint_data") then (Throw TypeError, w)
    else (Normal [setHitlCheckpoints
                    (fun prev =>
                       ret (prev ++ [newCheckpoint (get_own data "workflow_id")
                                       (get_own data "checkpoint_id")
                                       (get_own data "checkpoint_data")
                                       (get_own (get_own data "checkpoint_data")
                                          "checkpoint_type")
                                       (toISOString (now w))])%list)], w).
Proof.
  intros H. unfold handleHITLCheckpointCreated. run.
  rewrite get_nullish, H. rewrite get_nullish.
  destruct (nullish (get_own data "checkpoint_data")); reflexivity.
Qed.

(** The updaters of [workflows]. *)
Lemma handleWorkflowStatusUpdate_workflows_runs
    (workflow_id status current_step progress : JsVal) (key : string)
    (prev : gmap string JsVal) (w : World) :
  ToPropertyKey workflow_id = Normal key ->
  handleWorkflowStatusUpdate_workflows workflow_id status current_step progress prev w
  = (Normal (<[key := JObj (with_props (spread_found (find_in prev key))
                              [("workflowId", workflow_id); ("status", status);
                               ("currentStep", current_step); ("progress", progress);
                               ("updatedAt", JStr (toISOString (now w)))])]> prev), w).
Proof.
  intros H. unfold handleWorkflowStatusUpdate_workflows. run. rewrite H. reflexivity.
Qed.

Lemma handleWorkflowError_workflows_runs (workflow_id : JsVal) (key : string)
    (prev : gmap string JsVal) (w : World) :
  ToPropertyKey workflow_id = Normal key ->
  handleWorkflowError_workflows workflow_id prev w
  = (Normal (<[key := JObj (with_props (spread_found (find_in prev key))
                              [("status", JStr "failed");
                               ("updatedAt", JStr (toISOString (now w)))])]> prev), w).
Proof.
  intros H. unfold handleWorkflowError_workflows. run. rewrite H. reflexivity.
Qed.

Lemma spread_found_lookup (prev : gmap string JsVal) (key name : string) :
  lookup name (spread_found (find_in prev key))
  = match prev !! key with
    | Some old => lookup name (own_enumerable old)
    | None => None
    end.
Proof.
  unfold find_in. destruct (prev !! key); [reflexivity|].
  destruct (bool_decide _); reflexivity.
Qed.

(** The current workflow after the update of a status message. *)
Lemma handleWorkflowStatusUpdate_current_runs (status current_step progress prev : JsVal)
    (w : World) :
  handleWorkflowStatusUpdate_current status current_step progress prev w
  = (Normal (if truthy prev
             then JObj (with_props (own_enumerable prev)
                          [("status", status); ("currentStep", current_step);
                           ("progress", progress);
                           ("updatedAt", JStr (toISOString (now w)))])
             else JNull), w).
Proof.
  unfold handleWorkflowStatusUpdate_current. destruct (truthy prev); reflexivity.
Qed.

Lemma handleWorkflowError_current_runs (prev : JsVal) (w : World) :
  handleWorkflowError_current prev w
  = (Normal (if truthy prev
             then JObj (with_props (own_enumerable prev)
                          [("status", JStr "failed");
                           ("updatedAt", JStr (toISOString (now w)))])
             else JNull), w).
Proof.
  unfold handleWorkflowError_current. destruct (truthy prev); reflexivity.
Qed.

(** The [switch] of [handleWebSocketMessage]. *)
Lemma handleWebSocketMessage_switch (seen m : JsVal) (w : World) :
  nullish m = false ->
  handleWebSocketMessage seen m w
  = (if is_string (get_own m "type") "workflow_status_update"
     then handleWorkflowStatusUpdate seen (get_own m "data")
     else if is_string (get_own m "type") "workflow_step_complete"
     then handleWorkflowStepComplete seen (get_own m "data")
     else if is_string (get_own m "type") "hitl_checkpoint_created"
     then handleHITLCheckpointCreated (get_own m "data")
     else if is_string (get_own m "type") "workflow_error"
     then handleWorkflowError seen (get_own m "data")
     else ret []) w.
Proof.
  intros H. unfold handleWebSocketMessage. run. rewrite get_nullish, H. reflexivity.
Qed.

Lemma receive_status_update (d : Delivery) (key : string) (v : View) :
  validateMessage (message d) = Normal true ->
  get_own (message d) "type" = JStr "workflow_status_update" ->
  ToPropertyKey (get_own (get_own (message d) "data") "workflow_id") = Normal key ->
  receive d v
  = Normal
      {| workflows :=
           <[key := JObj (with_props (spread_found (find_in (workflows v) key))
                            [("workflowId", get_own (get_own (message d) "data") "workflow_id");
                             ("status", get_own (get_own (message d) "data") "status");
                             ("currentStep", get_own (get_own (message d) "data") "current_step");
                             ("progress", get_own (get_own (message d) "data") "progress");
                             ("updatedAt", JStr (toISOString (now (render d))))])]>
             (workflows v);
         currentWorkflow :=
           if strict_equal (optional_get (seen d) "workflowId")
                (get_own (get_own (message d) "data") "workflow_id")
           then if truthy (currentWorkflow v)
                then JObj (with_props (own_enumerable (currentWorkflow v))
                             [("status", get_own (get_own (message d) "data") "status");
                              ("currentStep", get_own (get_own (message d) "data") "current_step");
                              ("progress", get_own (get_own (message d) "data") "progress");
                              ("updatedAt", JStr (toISOString (now (render d))))])
                else JNull
           else currentWorkflow v;
         hitlCheckpoints := hitlCheckpoints v;
         error := error v |}.
Proof.
  intros Hv Ht Hk. destruct (valid_message_parts _ Hv) as [Hm Hd].
  unfold receive.
  rewrite (handleWebSocketMessage_switch _ _ _ Hm), Ht.
  cbn [is_string String.eqb Ascii.eqb Bool.eqb].
  rewrite (handleWorkflowStatusUpdate_queues _ _ _ Hd). cbn [fst cbind].
  destruct (strict_equal _ _); cbn [apply_updates apply_update];
    unfold bind; rewrite (handleWorkflowStatusUpdate_workflows_runs _ _ _ _ key _ _ Hk);
    cbn [ret]; rewrite ?handleWorkflowStatusUpdate_current_runs;
    cbn [workflows currentWorkflow hitlCheckpoints error fst]; reflexivity.
Qed.

Lemma receive_workflow_error (d : Delivery) (key : string) (v : View) :
  validateMessage (message d) = Normal true ->
  get_own (message d) "type" = JStr "workflow_error" ->
  ToPropertyKey (get_own (get_own (message d) "data") "workflow_id") = Normal key ->
  receive d v
  = Normal
      {| workflows :=
           <[key := JObj (with_props (spread_found (find_in (workflows v) key))
                            [("status", JStr "failed");
                             ("updatedAt", JStr (toISOString (now (render d))))])]>
             (workflows v);
         currentWorkflow :=
           if strict_equal (optional_get (seen d) "workflowId")
                (get_own (get_own (message d) "data") "workflow_id")
           then if truthy (currentWorkflow v)
                then JObj (with_props (own_enumerable (currentWorkflow v))
                             [("status", JStr "failed");
                              ("updatedAt", JStr (toISOString (now (render d))))])
                else JNull
           else currentWorkflow v;
         hitlCheckpoints := hitlCheckpoints v;
         error := get_own (get_own (message d) "data") "error" |}.
Proof.
  intros Hv Ht Hk. destruct (valid_message_parts _ Hv) as [Hm Hd].
  unfold receive.
  rewrite (handleWebSocketMessage_switch _ _ _ Hm), Ht.
  cbn [is_string String.eqb Ascii.eqb Bool.eqb].
  rewrite (handleWorkflowError_queues _ _ _ Hd). cbn [fst cbind].
  destruct (strict_equal _ _); cbn [apply_updates apply_update];
    unfold bind; cbn [ret workflows currentWorkflow hitlCheckpoints error];
    rewrite (handleWorkflowError_workflows_runs _ key _ _ Hk);
    cbn [ret]; rewrite ?handleWorkflowError_current_runs;
    cbn [workflows currentWorkflow hitlCheckpoints error fst]; reflexivity.
Qed.

(** [complete_step] on a step a property can be read of. *)
Lemma complete_step_runs (step_name result step : JsVal) :
  nullish step = false ->
  complete_step step_name result step
  = Normal (if strict_equal (get_own step "name") step_name
            then JObj (with_props (own_enumerable step)
                         [("status", JStr "completed"); ("result", result)])
            else step).
Proof. intros H. unfold complete_step. now rewrite get_nullish, H. Qed.

(** A record without an array of steps makes the update of a completed
    step throw. *)
Lemma step_complete_without_steps (workflow_id step_name result : JsVal) (key : string)
    (prev : gmap string JsVal) (record : list (string * JsVal)) (w : World) :
  ToPropertyKey workflow_id = Normal key ->
  prev !! key = Some (JObj record) ->
  lookup "steps" record = None ->
  handleWorkflowStepComplete_workflows workflow_id step_name result prev w
  = (Throw TypeError, w).
Proof.
  intros Hk Hp Hs. unfold handleWorkflowStepComplete_workflows. run.
  rewrite Hk. unfold find_in. rewrite Hp. cbn [truthy get_own]. rewrite Hs. reflexivity.
Qed.

Lemma receive_step_complete_throws (d : Delivery) (key : string) (v : View)
    (record : list (string * JsVal)) :
  validateMessage (message d) = Normal true ->
  get_own (message d) "type" = JStr "workflow_step_complete" ->
  ToPropertyKey (get_own (get_own (message d) "data") "workflow_id") = Normal key ->
  workflows v !! key = Some (JObj record) ->
  lookup "steps" record = None ->
  receive d v = Throw TypeError.
Proof.
  intros Hv Ht Hk Hp Hs. destruct (valid_message_parts _ Hv) as [Hm Hd].
  unfold receive.
  rewrite (handleWebSocketMessage_switch _ _ _ Hm), Ht.
  cbn [is_string String.eqb Ascii.eqb Bool.eqb].
  rewrite (handleWorkflowStepComplete_queues _ _ _ Hd). cbn [fst cbind].
  cbn [apply_updates apply_update]. unfold bind at 1 2.
  now rewrite (step_complete_without_steps _ _ _ key _ record _ Hk Hp Hs).
Qed.

(** *** What a handler does to the checkpoints *)

Lemma apply_update_keeps (u : Update) (v v' : View) (w : World) :
  match u with setHitlCheckpoints _ => False | _ => True end ->
  fst (apply_update u v w) = Normal v' -> hitlCheckpoints v' = hitlCheckpoints v.
Proof.
  destruct u as [f|f|f|x]; cbn [apply_update]; intros H; try contradiction;
    unfold bind, ret.
  - destruct (f (workflows v) w) as [[a|e] w']; cbn [fst]; [|discriminate].
    now intros [= <-].
  - destruct (f (currentWorkflow v) w) as [[a|e] w']; cbn [fst]; [|discriminate].
    now intros [= <-].
  - cbn [fst]. now intros [= <-].
Qed.

Lemma apply_updates_keep (us : list Update) (v v' : View) (w : World) :
  Forall (fun u => match u with setHitlCheckpoints _ => False | _ => True end) us ->
  fst (apply_updates us v w) = Normal v' -> hitlCheckpoints v' = hitlCheckpoints v.
Proof.
  intros H. revert v w. induction H as [|u us Hu _ IH]; intros v w; cbn [apply_updates].
  - unfold ret. cbn [fst]. now intros [= <-].
  - unfold bind. destruct (apply_update u v w) as [[v1|e] w1] eqn:E; cbn [fst]; [|discriminate].
    intros H1. rewrite (IH _ _ H1).
    apply (apply_update_keeps u v v1 w Hu). now rewrite E.
Qed.

Lemma handler_throws_on_nullish (A : Type) (data : JsVal) (k : JsVal -> Eff World A)
    (w : World) :
  nullish data = true ->
  fst ((let! workflow_id := lift (get data "workflow_id") in k workflow_id) w)
  = Throw TypeError.
Proof. intros H. run. now rewrite get_nullish, H. Qed.

(** After a message, the checkpoints are those of before, followed by a
    new one when the message announces one. *)
Lemma receive_checkpoints (d : Delivery) (v v' : View) :
  receive d v = Normal v' ->
  hitlCheckpoints v'
  = (hitlCheckpoints v
     ++ if is_string (get_own (message d) "type") "hitl_checkpoint_created"
        then [newCheckpoint (get_own (get_own (message d) "data") "workflow_id")
                (get_own (get_own (message d) "data") "checkpoint_id")
                (get_own (get_own (message d) "data") "checkpoint_data")
                (get_own (get_own (get_own (message d) "data") "checkpoint_data")
                   "checkpoint_type")
                (toISOString (now (arrival d)))]
        else [])%list.
Proof.
  unfold receive. destruct (nullish (message d)) eqn:Hm.
  { unfold handleWebSocketMessage. run. rewrite get_nullish, Hm. discriminate. }
  rewrite (handleWebSocketMessage_switch _ _ _ Hm).
  set (data := get_own (message d) "data").
  destruct (get_own (message d) "type") as [| | | |t| |]; cbn [is_string];
    try (unfold ret; cbn [fst cbind apply_updates]; intros [= <-]; now rewrite app_nil_r).
  destruct (String.eqb t "workflow_status_update") eqn:E1.
  { apply String.eqb_eq in E1. subst t. cbn [String.eqb Ascii.eqb Bool.eqb].
    rewrite app_nil_r. destruct (nullish data) eqn:Hd.
    - unfold handleWorkflowStatusUpdate. rewrite (handler_throws_on_nullish _ _ _ _ Hd). discriminate.
    - rewrite (handleWorkflowStatusUpdate_queues _ _ _ Hd). cbn [fst cbind].
      apply apply_updates_keep.
      destruct (strict_equal _ _); repeat constructor. }
  destruct (String.eqb t "workflow_step_complete") eqn:E2.
  { apply String.eqb_eq in E2. subst t. cbn [String.eqb Ascii.eqb Bool.eqb].
    rewrite app_nil_r. destruct (nullish data) eqn:Hd.
    - unfold handleWorkflowStepComplete. rewrite (handler_throws_on_nullish _ _ _ _ Hd). discriminate.
    - rewrite (handleWorkflowStepComplete_queues _ _ _ Hd). cbn [fst cbind].
      apply apply_updates_keep.
      destruct (strict_equal _ _); repeat constructor. }
  destruct (String.eqb t "hitl_checkpoint_created") eqn:E3.
  { destruct (nullish data) eqn:Hd.
    - unfold handleHITLCheckpointCreated. rewrite (handler_throws_on_nullish _ _ _ _ Hd). discriminate.
    - rewrite (handleHITLCheckpointCreated_queues _ _ Hd).
      destruct (nullish (get_own data "checkpoint_data")); cbn [fst cbind]; [discriminate|].
      cbn [apply_updates apply_update]. unfold bind, ret. cbn [fst hitlCheckpoints].
      now intros [= <-]. }
  rewrite app_nil_r.
  destruct (String.eqb t "workflow_error") eqn:E4.
  { destruct (nullish data) eqn:Hd.
    - unfold handleWorkflowError. rewrite (handler_throws_on_nullish _ _ _ _ Hd). discriminate.
    - rewrite (handleWorkflowError_queues _ _ _ Hd). cbn [fst cbind].
      apply apply_updates_keep.
      destruct (strict_equal _ _); repeat constructor. }
  unfold ret. cbn [fst cbind apply_updates]. now intros [= <-].
Qed.

(** *** The update of a completed step *)

Lemma complete_steps_runs (step_name result : JsVal) (steps : list JsVal) :
  Forall (fun step => nullish step = false) steps ->
  array_map (complete_step step_name result) steps
  = Normal (List.map (fun step =>
                        if strict_equal (get_own step "name") step_name
                        then JObj (with_props (own_enumerable step)
                                     [("status", JStr "completed"); ("result", result)])
                        else step) steps).
Proof.
  intros H. apply array_map_total.
  eapply Forall_impl; [exact H|]. intros step Hs. now apply complete_step_runs.
Qed.

(** *** The update of a response *)

Lemma respondToHITL_checkpoints_runs (checkpointId : string) (prev : list JsVal) :
  Forall (fun c => nullish c = false) prev ->
  respondToHITL_checkpoints checkpointId prev
  = Normal (List.map (fun c =>
                        if is_string (get_own c "checkpointId") checkpointId
                        then JObj (with_props (own_enumerable c)
                                     [("status", JStr "completed")])
                        else c) prev).
Proof.
  intros H. unfold respondToHITL_checkpoints. apply array_map_total.
  eapply Forall_impl; [exact H|]. intros c Hc. cbn beta. now rewrite get_nullish, Hc.
Qed.

End WorkflowFacts.

(** ** The steps of a workflow, message after message *)
Module StepsFacts.
Import Objects ObjectsFacts WorkflowUpdates WorkflowFacts.

Lemma same_step_trans (a b c : JsVal) : same_step a b -> same_step b c -> same_step a c.
Proof.
  intros (p1 & p2 & -> & -> & H1) (p2' & p3 & [= <-] & -> & H2).
  exists p1, p3. repeat split. congruence.
Qed.

Lemma Forall2_same_step_trans (l1 l2 l3 : list JsVal) :
  Forall2 same_step l1 l2 -> Forall2 same_step l2 l3 -> Forall2 same_step l1 l3.
Proof.
  intros H. revert l3. induction H as [|a b l1 l2 Hab _ IH]; intros l3 H3.
  - inversion H3. constructor.
  - inversion H3 as [|b' c l2' l3' Hbc H3']; subst. constructor.
    + exact (same_step_trans _ _ _ Hab Hbc).
    + now apply IH.
Qed.

(** The steps a completed step leaves. *)
Lemma complete_steps_same (step_name result : JsVal) (steps : list JsVal) :
  Forall (fun step => exists props, step = JObj props) steps ->
  exists steps',
    array_map (complete_step step_name result) steps = Normal steps'
    /\ Forall2 same_step steps steps'.
Proof.
  intros H. eexists. split.
  - apply complete_steps_runs. eapply Forall_impl; [exact H|]. now intros s [props ->].
  - induction H as [|s rest [props ->] _ IH]; cbn [List.map]; constructor; [|exact IH].
    destruct (strict_equal _ _).
    + exists props, (with_props props [("status", JStr "completed"); ("result", result)]).
      split; [reflexivity|]. split; [reflexivity|].
      now rewrite lookup_with_props.
    + exists props, props. split; [reflexivity|]. split; reflexivity.
Qed.

Lemma Forall2_same_step_objects (l1 l2 : list JsVal) :
  Forall2 same_step l1 l2 -> Forall (fun step => exists props, step = JObj props) l2.
Proof.
  induction 1 as [|a b l1 l2 (p & p' & _ & -> & _) _ IH]; constructor; [|exact IH].
  now exists p'.
Qed.

(** Each updater of the workflows keeps the steps of every record. *)
Lemma status_update_holds_steps (workflow_id status current_step progress : JsVal)
    (prev next : gmap string JsVal) (w : World) (key : string) (steps : list JsVal) :
  fst (handleWorkflowStatusUpdate_workflows workflow_id status current_step progress prev w)
  = Normal next ->
  holds_steps key steps prev -> holds_steps key steps next.
Proof.
  unfold handleWorkflowStatusUpdate_workflows. run.
  destruct (ToPropertyKey workflow_id) as [key'|e]; cbn [fst]; [|discriminate].
  intros [= <-] (record & steps' & Hp & Hs & HF).
  destruct (decide (key' = key)) as [->|Hne].
  - eexists _, steps'. split; [apply lookup_insert_eq|]. split; [|exact HF].
    rewrite !lookup_set_prop_ne by discriminate.
    rewrite spread_found_lookup, Hp. exact Hs.
  - exists record, steps'. split; [now rewrite lookup_insert_ne|]. now split.
Qed.

Lemma workflow_error_holds_steps (workflow_id : JsVal)
    (prev next : gmap string JsVal) (w : World) (key : string) (steps : list JsVal) :
  fst (handleWorkflowError_workflows workflow_id prev w) = Normal next ->
  holds_steps key steps prev -> holds_steps key steps next.
Proof.
  unfold handleWorkflowError_workflows. run.
  destruct (ToPropertyKey workflow_id) as [key'|e]; cbn [fst]; [|discriminate].
  intros [= <-] (record & steps' & Hp & Hs & HF).
  destruct (decide (key' = key)) as [->|Hne].
  - eexists _, steps'. split; [apply lookup_insert_eq|]. split; [|exact HF].
    rewrite !lookup_set_prop_ne by discriminate.
    rewrite spread_found_lookup, Hp. exact Hs.
  - exists record, steps'. split; [now rewrite lookup_insert_ne|]. now split.
Qed.

Lemma step_complete_holds_steps (workflow_id step_name result : JsVal)
    (prev next : gmap string JsVal) (w : World) (key : string) (steps : list JsVal) :
  fst (handleWorkflowStepComplete_workflows workflow_id step_name result prev w)
  = Normal next ->
  holds_steps key steps prev -> holds_steps key steps next.
Proof.
  unfold handleWorkflowStepComplete_workflows. run.
  destruct (ToPropertyKey workflow_id) as [key'|e]; cbn [fst]; [|discriminate].
  intros H (record & steps' & Hp & Hs & HF).
  destruct (decide (key' = key)) as [->|Hne].
  - unfold find_in in H. rewrite Hp in H. cbn [truthy get_own] in H. rewrite Hs in H.
    cbn [call_map] in H.
    destruct (complete_steps_same step_name result steps' (Forall2_same_step_objects _ _ HF))
      as (steps'' & Hrun & HF').
    rewrite Hrun in H. cbn [cbind fst] in H. injection H as <-.
    eexists _, steps''. split; [apply lookup_insert_eq|].
    split; [now rewrite lookup_set_prop_ne, lookup_set_prop_eq by discriminate|].
    exact (Forall2_same_step_trans _ _ _ HF HF').
  - assert (Hk : next !! key = prev !! key).
    { destruct (find_in prev key') as [workflow| |]; cbn [fst] in H; try discriminate H.
      - destruct (truthy workflow); cbn [fst] in H.
        + destruct (call_map _ _) as [updated|e]; cbn [fst] in H; [|discriminate H].
          injection H as <-. now rewrite lookup_insert_ne.
        + now injection H as <-.
      - now injection H as <-. }
    exists record, steps'. rewrite Hk. now split.
Qed.

(** The workflows after the updates of a message: those its updater of
    the workflows returns. *)
Lemma apply_updates_others (us : list Update) (v v' : View) (w : World) :
  Forall (fun u => match u with setWorkflows _ => False | _ => True end) us ->
  fst (apply_updates us v w) = Normal v' -> workflows v' = workflows v.
Proof.
  intros H. revert v w. induction H as [|u us Hu _ IH]; intros v w; cbn [apply_updates].
  - unfold ret. cbn [fst]. now intros [= <-].
  - unfold bind. destruct (apply_update u v w) as [[v1|e] w1] eqn:E; cbn [fst]; [|discriminate].
    intros H1. rewrite (IH _ _ H1).
    destruct u as [f|f|f|x]; try contradiction; cbn [apply_update] in E; unfold bind, ret in E.
    + destruct (f (currentWorkflow v) w) as [[a|e] w']; [|discriminate E].
      now injection E as <- _.
    + destruct (f (hitlCheckpoints v) w) as [[a|e] w']; [|discriminate E].
      now injection E as <- _.
    + now injection E as <- _.
Qed.

Lemma apply_updates_workflows (f : gmap string JsVal -> Eff World (gmap string JsVal))
    (rest : list Update) (v v' : View) (w : World) :
  Forall (fun u => match u with setWorkflows _ => False | _ => True end) rest ->
  fst (apply_updates (setWorkflows f :: rest) v w) = Normal v' ->
  fst (f (workflows v) w) = Normal (workflows v').
Proof.
  intros Hrest. cbn [apply_updates apply_update]. unfold bind at 1 2.
  destruct (f (workflows v) w) as [[next|e] w1]; cbn [fst]; [|discriminate].
  cbn [ret]. intros H. now rewrite (apply_updates_others _ _ _ _ Hrest H).
Qed.

(** A message handled keeps the steps of every record. *)
Lemma receive_holds_steps (d : Delivery) (v v' : View) (key : string) (steps : list JsVal) :
  receive d v = Normal v' ->
  holds_steps key steps (workflows v) -> holds_steps key steps (workflows v').
Proof.
  unfold receive. destruct (nullish (message d)) eqn:Hm.
  { unfold handleWebSocketMessage. run. rewrite get_nullish, Hm. discriminate. }
  rewrite (handleWebSocketMessage_switch _ _ _ Hm).
  set (data := get_own (message d) "data").
  assert (Hsame : forall us,
             Forall (fun u => match u with setWorkflows _ => False | _ => True end) us ->
             fst (apply_updates us v (render d)) = Normal v' ->
             holds_steps key steps (workflows v) -> holds_steps key steps (workflows v')).
  { intros us Hus H. now rewrite (apply_updates_others _ _ _ _ Hus H). }
  destruct (is_string (get_own (message d) "type") "workflow_status_update").
  { destruct (nullish data) eqn:Hd.
    - unfold handleWorkflowStatusUpdate. rewrite (handler_throws_on_nullish _ _ _ _ Hd). discriminate.
    - rewrite (handleWorkflowStatusUpdate_queues _ _ _ Hd). cbn [fst cbind].
      intros H. eapply status_update_holds_steps.
      eapply apply_updates_workflows; [|exact H].
      destruct (strict_equal _ _); repeat constructor. }
  destruct (is_string (get_own (message d) "type") "workflow_step_complete").
  { destruct (nullish data) eqn:Hd.
    - unfold handleWorkflowStepComplete. rewrite (handler_throws_on_nullish _ _ _ _ Hd). discriminate.
    - rewrite (handleWorkflowStepComplete_queues _ _ _ Hd). cbn [fst cbind].
      intros H. eapply step_complete_holds_steps.
      eapply apply_updates_workflows; [|exact H].
      destruct (strict_equal _ _); repeat constructor. }
  destruct (is_string (get_own (message d) "type") "hitl_checkpoint_created").
  { destruct (nullish data) eqn:Hd.
    - unfold handleHITLCheckpointCreated. rewrite (handler_throws_on_nullish _ _ _ _ Hd). discriminate.
    - rewrite (handleHITLCheckpointCreated_queues _ _ Hd).
      destruct (nullish (get_own data "checkpoint_data")); cbn [fst cbind]; [discriminate|].
      apply Hsame. repeat constructor. }
  destruct (is_string (get_own (message d) "type") "workflow_error").
  { destruct (nullish data) eqn:Hd.
    - unfold handleWorkflowError. rewrite (handler_throws_on_nullish _ _ _ _ Hd). discriminate.
    - rewrite (handleWorkflowError_queues _ _ _ Hd). cbn [fst cbind].
      cbn [apply_updates apply_update]. unfold bind at 1 2. cbn [ret].
      intros H. eapply workflow_error_holds_steps.
      eapply (apply_updates_workflows _ _
                {| workflows := workflows v; currentWorkflow := currentWorkflow v;
                   hitlCheckpoints := hitlCheckpoints v;
                   error := get_own data "error" |}); [|exact H].
      destruct (strict_equal _ _); repeat constructor. }
  unfold ret. cbn [fst cbind]. apply Hsame. constructor.
Qed.

Lemma receive_all_holds_steps (deliveries : list Delivery) (v v' : View) (key : string)
    (steps : list JsVal) :
  receive_all deliveries v = Normal v' ->
  holds_steps key steps (workflows v) -> holds_steps key steps (workflows v').
Proof.
  revert v. induction deliveries as [|d rest IH]; intros v; cbn [receive_all].
  - now intros [= <-].
  - destruct (receive d v) as [v1|e] eqn:E; cbn [cbind]; [|discriminate].
    intros H Hv. apply (IH _ H). exact (receive_holds_steps _ _ _ _ _ E Hv).
Qed.

End StepsFacts.


(* ===================================================================== *)
(** * Part III: the claims of the specification *)
(* ===================================================================== *)

Import UtilsFacts.






Import UseWebSocket HookFacts.







(** C9. What goes out on the send paths is valid.  [sendRawMessage]
    validates first: a message that fails the validation is answered
    [false] and no socket changes; a frame that goes out is the text of the
    message given, and that message passes [validateMessage].
    [sendMessage] sends nothing but the text of the message
    [createStandardMessage] builds, and for a data that is an object that
    message passes [validateMessage]. *)
Theorem transmitted_messages_are_valid :
  (forall (message : JsVal) (p : Page),
      validateMessage message = Normal false ->
      exists p', sendRawMessage message p = (Normal false, p')
                 /\ sockets p' = sockets p)
  /\ (forall (message : JsVal) (p p' : Page) (b : bool),
        sendRawMessage message p = (Normal b, p') ->
        sockets p' <> sockets p ->
        validateMessage message = Normal true
        /\ b = true
        /\ exists ws, wsRef p = Some ws
                      /\ sockets p' = sockets (transmit ws (stringify_text message) p))
  /\ (forall (type : MessageType) (props : list (string * JsVal)) (p p' : Page) (b : bool),
        sendMessage type (JObj props) p = (Normal b, p') ->
        sockets p' <> sockets p ->
        exists message w1 ws,
          createStandardMessage type (JObj props) None (world p) = (Normal message, w1)
          /\ validateMessage message = Normal true
          /\ b = true
          /\ wsRef p = Some ws
          /\ sockets p' = sockets (transmit ws (stringify_text message) p)).
Proof.
  split; [|split].
  - intros message p Hv. rewrite validateMessage_spec in Hv. injection Hv as Hv.
    destruct (not_open p) eqn:E.
    + rewrite (sendRawMessage_not_open _ _ E). eauto.
    + apply not_open_false in E as (ws & Hws & Hst).
      rewrite (sendRawMessage_open _ _ _ Hws Hst), Hv. eauto.
  - intros message p p' b Hsend Hch. rewrite validateMessage_spec.
    destruct (not_open p) eqn:E.
    + rewrite (sendRawMessage_not_open _ _ E) in Hsend.
      injection Hsend as <- <-. now destruct Hch.
    + apply not_open_false in E as (ws & Hws & Hst).
      rewrite (sendRawMessage_open _ _ _ Hws Hst) in Hsend.
      destruct (valid_structure message).
      * injection Hsend as <- <-. eauto.
      * injection Hsend as <- <-. now destruct Hch.
  - intros type props p p' b Hsend Hch.
    destruct (not_open p) eqn:E.
    + rewrite (sendMessage_not_open _ _ _ E) in Hsend.
      injection Hsend as <- <-. now destruct Hch.
    + apply not_open_false in E as (ws & Hws & Hst).
      rewrite (sendMessage_open _ _ _ _ Hws Hst) in Hsend.
      injection Hsend as <- <-.
      rewrite createStandardMessage_spec.
      eexists _, _, ws. split; [reflexivity|].
      rewrite validateMessage_spec, standard_message_valid. auto.
Qed.

(** An invalid message, with no [data], on the open socket: refused, and
    the socket as it was. *)
Lemma transmitted_messages_are_valid_witness :
  exists p', sendRawMessage (JObj [("type", JStr "heartbeat")]) open_page
             = (Normal false, p')
             /\ sockets p' = sockets open_page.
Proof.
  exact (proj1 transmitted_messages_are_valid (JObj [("type", JStr "heartbeat")])
           open_page eq_refl).
Defined.

(** C8. For every checkpoint identifier, approval flag and optional
    feedback, the message of [createHITLResponseMessage] has the type
    [hitl_response_submitted] and for data exactly
    [{checkpoint_id, response_data: {approved, feedback}}], with the
    identifier, the flag and the feedback given ([undefined] when no
    feedback is given); the other two fields are the timestamp and the
    message identifier.  The text of the message is read back with the same
    data, less the [feedback] when none was given. *)
Theorem hitl_response_message_shape (checkpointId : string) (approved : bool)
    (feedback : option string) (w : World) :
  exists timestamp message_id w1 text,
    createHITLResponseMessage checkpointId approved feedback w
    = (Normal (JObj [("type", JStr "hitl_response_submitted");
                     ("data", JObj [("checkpoint_id", JStr checkpointId);
                                    ("response_data",
                                     JObj [("approved", JBool approved);
                                           ("feedback", of_optional feedback)])]);
                     ("timestamp", JStr timestamp);
                     ("message_id", JStr message_id)]), w1)
    /\ Json.stringify
         (JObj [("type", JStr "hitl_response_submitted");
                ("data", JObj [("checkpoint_id", JStr checkpointId);
                               ("response_data",
                                JObj [("approved", JBool approved);
                                      ("feedback", of_optional feedback)])]);
                ("timestamp", JStr timestamp);
                ("message_id", JStr message_id)]) = Some text
    /\ Json.parse text
       = Normal (JObj [("type", JStr "hitl_response_submitted");
                       ("data", JObj [("checkpoint_id", JStr checkpointId);
                                      ("response_data",
                                       JObj (("approved", JBool approved)
                                             :: match feedback with
                                                | Some f => [("feedback", JStr f)]
                                                | None => []
                                                end))]);
                       ("timestamp", JStr timestamp);
                       ("message_id", JStr message_id)]).
Proof.
  unfold createHITLResponseMessage. rewrite createStandardMessage_spec.
  set (read := JObj (("approved", JBool approved)
                     :: match feedback with
                        | Some f => [("feedback", JStr f)]
                        | None => []
                        end)).
  set (message := JObj [("type", JStr "hitl_response_submitted");
                        ("data", JObj [("checkpoint_id", JStr checkpointId);
                                       ("response_data", read)]);
                        ("timestamp", JStr (toISOString (now w)));
                        ("message_id", JStr (message_id_of None w))]).
  assert (Hs : Json.serializable message) by (destruct feedback; simpl; tauto).
  assert (Hw : wf message).
  { destruct feedback; simpl; repeat split;
      apply (bool_decide_unpack _); vm_compute; reflexivity. }
  destruct (JsonFacts.serializable_has_text _ Hs) as [text Ht].
  exists (toISOString (now w)), (message_id_of None w), (world_after None w), text.
  split; [reflexivity|]. split.
  - rewrite <- Ht. destruct feedback, approved; reflexivity.
  - exact (JsonFacts.parse_stringify _ _ Hs Hw Ht).
Qed.


(** C10. For a message whose [data] is an object, as the type
    [StandardWebSocketMessage] has it: [extractErrorDetails] throws exactly
    when the type is not [error], and then the error [Message is not an
    error message]; for a message of type [error] it returns the record of
    [data.error], or [Unknown error] when that is absent or falsy, of
    [data.details] and of [data.message_type]; and the message is after the
    call what it was before. *)
Theorem extractErrorDetails_spec (message : JsVal) :
  ~ not_an_object message -> ~ data_refused message ->
  snd (extractErrorDetails message) = message
  /\ (get_own message "type" <> JStr "error" ->
      fst (extractErrorDetails message) = Throw (Error "Message is not an error message"))
  /\ (get_own message "type" = JStr "error" ->
      fst (extractErrorDetails message)
      = Normal {| error := if truthy (get_own (get_own message "data") "error")
                           then get_own (get_own message "data") "error"
                           else JStr "Unknown error";
                  details := get_own (get_own message "data") "details";
                  messageType := get_own (get_own message "data") "message_type" |})
  /\ ((exists e, fst (extractErrorDetails message) = Throw e)
      <-> get_own message "type" <> JStr "error").
Proof.
  intros Hobj Hdata.
  pose proof (data_is_object _ Hdata) as Hd.
  assert (Hrun : extractErrorDetails message =
                 if is_string (get_own message "type") "error"
                 then (Normal {| error := if truthy (get_own (get_own message "data") "error")
                                          then get_own (get_own message "data") "error"
                                          else JStr "Unknown error";
                                 details := get_own (get_own message "data") "details";
                                 messageType :=
                                   get_own (get_own message "data") "message_type" |},
                       message)
                 else (Throw (Error "Message is not an error message"), message)).
  { unfold extractErrorDetails, bind, read, throw, ret.
    cbn [fold_left cbind].
    rewrite !(get_of_object message) by exact Hobj. cbn [cbind].
    change (MessageType_value ERROR) with "error".
    destruct (is_string (get_own message "type") "error"); [|reflexivity].
    cbn [negb]. rewrite !(get_of_object message) by exact Hobj. cbn [cbind].
    rewrite !(get_of_object (get_own message "data")) by exact Hd.
    reflexivity. }
  rewrite Hrun.
  destruct (is_string (get_own message "type") "error") eqn:E.
  - apply is_string_true in E. repeat split; try congruence.
    intros [e He]. discriminate He.
  - assert (Hne : get_own message "type" <> JStr "error").
    { intros Heq. apply is_string_true in Heq. congruence. }
    repeat split; try congruence; eauto.
Qed.

(** The error message of the protocol tests. *)
Lemma extractErrorDetails_witness :
  fst (extractErrorDetails
         (JObj [("type", JStr "error");
                ("data", JObj [("error", JStr "Handler execution failed");
                               ("message_type", JStr "workflow_status_update");
                               ("details", JStr "Database connection failed")]);
                ("timestamp", JStr "2025-08-18T02:06:24.806Z");
                ("message_id", JStr "error123")]))
  = Normal {| error := JStr "Handler execution failed";
              details := JStr "Database connection failed";
              messageType := JStr "workflow_status_update" |}.
Proof.
  exact (proj1 (proj2 (proj2
    (extractErrorDetails_spec
       (JObj [("type", JStr "error");
              ("data", JObj [("error", JStr "Handler execution failed");
                             ("message_type", JStr "workflow_status_update");
                             ("details", JStr "Database connection failed")]);
              ("timestamp", JStr "2025-08-18T02:06:24.806Z");
              ("message_id", JStr "error123")])
       (fun H => H) (fun H => H)))) eq_refl).
Defined.





Import HeartbeatFacts.




Import WorkflowEngine.

(** C4. The step loop of the engine of the specification never runs
    forever: for every registry of executors and every thread it ends
    within [size registry * max_iterations + 1] turns, in a status other
    than running.  And when the loop without the bound would, from a thread
    within the bound, bring some step to appear in [completed_steps] more
    than [max_iterations] times, the engine ends the workflow as failed,
    with IterationLimitExceeded. *)
Theorem iteration_bound_enforced
    (registry : gmap string (gmap string JsVal -> StepOutcome)) (t : WorkflowThread) :
  (forall fuel : nat,
      size registry * max_iterations t < fuel ->
      exists t', run fuel registry t = Some t' /\ status t' <> running)
  /\ (within_bound t ->
      (exists k name,
          max_iterations t < occurrences name (completed_steps (unbounded k registry t))) ->
      exists n t',
        (forall fuel : nat, n <= fuel -> run fuel registry t = Some t')
        /\ iteration_limit_exceeded t').
Proof.
  split.
  - intros fuel Hfuel.
    apply (EngineFacts.run_ends registry (size registry * max_iterations t)).
    + apply EngineFacts.room_bound.
    + exact Hfuel.
  - intros Hwb (k & name & Hover).
    apply (EngineFacts.run_limit registry k t Hwb). eauto.
Qed.

(** The test of the specification: a bound of three, and an executor that
    always asks for its own step again.  The fourth completion brings the
    step over the bound, and the workflow fails with
    IterationLimitExceeded. *)
Lemma iteration_bound_enforced_witness :
  run 4 {[ "review" := always_revise "review" ]} (start "review" 3 ∅)
  = Some {| current_step := Some "review";
            completed_steps := ["review"; "review"; "review"; "review"];
            status := failed; payload := ∅; max_iterations := 3;
            errors := [("review", IterationLimitExceeded)]; pending := None |}
  /\ exists n t',
       (forall fuel : nat,
           n <= fuel ->
           run fuel {[ "review" := always_revise "review" ]} (start "review" 3 ∅) = Some t')
       /\ iteration_limit_exceeded t'.
Proof.
  split; [vm_compute; reflexivity|].
  apply (proj2 (iteration_bound_enforced {[ "review" := always_revise "review" ]}
                  (start "review" 3 ∅))).
  - intros name. cbn. lia.
  - exists 4, "review". vm_compute. lia.
Defined.


(* ===================================================================== *)
(** * Part IV: further properties of the code *)
(* ===================================================================== *)

Import UseWebSocket HookEvents MoreUtilsFacts HandlerFacts HandlerSpecs SteadyFacts
       ReconnectFacts DisconnectFacts.

(** X1. No message is both a validation error and a handler error: when
    [isValidationError] answers [true], [isHandlerError] answers [false],
    and the other way round; in both cases [extractErrorDetails] returns,
    with the text tested for its [error], and leaves the message as it
    was.  On an object whose [type] is not [error] both answer [false]
    without reading [data], even when there is none. *)
Theorem error_kinds_are_exclusive (message : JsVal) :
  (isValidationError message = Normal true ->
     isHandlerError message = Normal false
     /\ exists d mt,
          extractErrorDetails message
          = (Normal {| error := JStr "Message validation failed";
                       details := d; messageType := mt |}, message))
  /\ (isHandlerError message = Normal true ->
        isValidationError message = Normal false
        /\ exists d mt,
             extractErrorDetails message
             = (Normal {| error := JStr "Handler execution failed";
                          details := d; messageType := mt |}, message))
  /\ (~ not_an_object message -> get_own message "type" <> JStr "error" ->
        isValidationError message = Normal false
        /\ isHandlerError message = Normal false).
Proof.
  split; [|split].
  - intros H. destruct (error_test_true _ _ H) as (Ht & data & Hd & He).
    split.
    + unfold isHandlerError. rewrite Ht. cbn. rewrite Hd. cbn. rewrite He. reflexivity.
    + apply (extractErrorDetails_of_error _ data); [discriminate | assumption..].
  - intros H. destruct (error_test_true _ _ H) as (Ht & data & Hd & He).
    split.
    + unfold isValidationError. rewrite Ht. cbn. rewrite Hd. cbn. rewrite He. reflexivity.
    + apply (extractErrorDetails_of_error _ data); [discriminate | assumption..].
  - intros Hm Ht. apply is_string_false in Ht.
    unfold isValidationError, isHandlerError.
    rewrite (UtilsFacts.get_of_object message) by exact Hm. cbn [cbind].
    change (MessageType_value ERROR) with "error". rewrite Ht. split; reflexivity.
Qed.

(** The handler error of the protocol tests: no validation error. *)
Lemma error_kinds_are_exclusive_witness :
  isValidationError
    (JObj [("type", JStr "error");
           ("data", JObj [("error", JStr "Handler execution failed");
                          ("message_type", JStr "workflow_status_update");
                          ("details", JStr "Database connection failed")])])
  = Normal false.
Proof.
  apply (proj1 (proj2 (error_kinds_are_exclusive _))). reflexivity.
Defined.





(** X4. [messagesSent] counts the application's sends, and only those.  A
    call of [sendMessage] or of [sendRawMessage] answers [true] or
    [false] and never throws; when it answers [true] one frame has gone
    out on the current socket and [messagesSent] is one more; when it
    answers [false] no frame has gone out and the statistics are as they
    were.  A heartbeat that goes out is a frame that no counter counts. *)
Theorem sends_are_counted (p : Page) :
  (forall (type : MessageType) (data : JsVal),
      exists b p', sendMessage type data p = (Normal b, p') /\ send_outcome b p p')
  /\ (forall message : JsVal,
        exists b p', sendRawMessage message p = (Normal b, p') /\ send_outcome b p p')
  /\ (exists p',
        sendHeartbeat p = (Normal tt, p')
        /\ stats p' = stats p
        /\ (forall ws, wsRef p = Some ws -> socket_state ws p = Some OPEN ->
              List.length (frames ws p') = S (List.length (frames ws p)))).
Proof.
  split; [|split].
  - intros type data.
    destruct (send_cases (sendMessage type data) p)
      as (b & p' & E & E1 & E2 & E3 & E4 & E5 & E6 & E7 & E8 & E9 & E10 & E11 & E12
          & E13 & E14 & E15); [apply sendMessage_cases..|].
    exists b, p'. split; [exact E|]. repeat split; assumption.
  - intros message.
    destruct (send_cases (sendRawMessage message) p)
      as (b & p' & E & E1 & E2 & E3 & E4 & E5 & E6 & E7 & E8 & E9 & E10 & E11 & E12
          & E13 & E14 & E15); [apply sendRawMessage_cases..|].
    exists b, p'. split; [exact E|]. repeat split; assumption.
  - destruct (wsRef p) as [ws|] eqn:Hws.
    + destruct (socket_state ws p) as [[]|] eqn:Hst.
      2:{ rewrite (HeartbeatFacts.sendHeartbeat_open p ws Hws Hst).
          eexists. split; [reflexivity|]. unfold transmit, update_socket. fields.
          split; [reflexivity|]. intros ws' [= <-] _.
          unfold frames. fields. rewrite list_lookup_alter_eq.
          unfold socket_state in Hst.
          destruct (sockets p !! ws) as [s|]; [|discriminate Hst].
          cbn. rewrite length_app. cbn. lia. }
      all: exists p; (split; [|split; [reflexivity|]]);
        [ unfold sendHeartbeat, bind, gets, id, ws_is_open; rewrite Hws, Hst; reflexivity
        | intros ws' [= <-] Hst'; congruence ].
    + exists p. split; [|split; [reflexivity|]].
      * unfold sendHeartbeat, bind, gets, id. rewrite Hws. reflexivity.
      * intros ws' [=].
Qed.

(** X5. Whatever happens after the hook is mounted (events of any of its
    sockets, firings of its timers, calls of the functions it returns, in
    any order), the hook has one heartbeat timer while [isConnected] is
    [true] and none while it is [false]; that timer is the interval
    [heartbeatTimeoutRef] holds; [reconnectAttemptsRef] stays between
    zero and [maxReconnectAttempts]; the state is [connected] only while
    [isConnected] is [true]; [wsRef], when it is not null, holds a socket
    the hook created; and no two pending timers share an identifier. *)
Theorem hook_keeps_its_books (defaultBase : string) (o : Settings) (w : World)
    (events : list Event) :
  let p := history defaultBase o events (mounted defaultBase o w) in
  List.length (timers_of SendHeartbeat p) = (if isConnected p then 1%nat else 0%nat)
  /\ (forall t, t ∈ timers_of SendHeartbeat p ->
        heartbeatTimeoutRef p = Some (timer_id t) /\ repeating t = true)
  /\ (0 <= reconnectAttemptsRef p <= Z.max 0 (max_attempts o))%Z
  /\ (connectionState p = connected -> isConnected p = true)
  /\ (forall ws, wsRef p = Some ws -> exists s, sockets p !! ws = Some s)
  /\ NoDup (List.map timer_id (timers p)).
Proof.
  intros p.
  assert (H : steady o p) by apply history_steady, mounted_steady.
  split; [exact (heartbeat_timers_count o p H)|].
  destruct H as [H1 H2 H3 H4 H5 H6 H7 H8 H9 H10].
  split; [|split; [exact H8|split; [exact H9|split; [|exact H2]]]].
  - intros t Ht. unfold timers_of in Ht.
    rewrite list_elem_of_In, filter_In, <- list_elem_of_In in Ht.
    destruct Ht as [Ht Hc]. destruct (callback t) eqn:E; [|discriminate Hc].
    split; [exact (H3 t Ht E) | exact (H5 t Ht E)].
  - intros ws Hws. apply lookup_lt_is_Some_2. exact (H10 ws Hws).
Qed.



(** X7. [disconnect] is final for the socket and the timers the hook
    keeps track of.  At any moment after the hook is mounted, a call of
    [disconnect] does not throw; it leaves the hook not connected, in the
    state [disconnected], with no current socket, no heartbeat timer and
    no reconnection timer pending; the socket that was current is closing
    when it was connecting or open; the timers left are the timeouts for
    [connect] that [reconnectTimeoutRef] did not hold (that of a call of
    [reconnect] is one); and the close event of any socket that follows
    sets no timer and creates no socket. *)
Theorem disconnect_is_final (defaultBase : string) (o : Settings) (w : World)
    (events : list Event) :
  let p := history defaultBase o events (mounted defaultBase o w) in
  let q := settle disconnect p in
  fst (disconnect p) = Normal tt
  /\ isConnected q = false /\ connectionState q = disconnected
  /\ wsRef q = None /\ shouldReconnectRef q = false
  /\ heartbeatTimeoutRef q = None /\ reconnectTimeoutRef q = None
  /\ (forall t, t ∈ timers q
                <-> t ∈ timers p /\ callback t = Connect
                    /\ reconnectTimeoutRef p <> Some (timer_id t))
  /\ (forall ws, wsRef p = Some ws ->
        socket_state ws q = match socket_state ws p with
                            | Some CONNECTING | Some OPEN => Some CLOSING
                            | s => s
                            end)
  /\ (forall ws,
        timers (socket_closes o ws q) = timers q
        /\ List.length (sockets (socket_closes o ws q)) = List.length (sockets q)
        /\ wsRef (socket_closes o ws q) = None).
Proof.
  intros p q.
  assert (H : steady o p) by apply history_steady, mounted_steady.
  assert (Eq : q = after_disconnect p).
  { subst q. unfold settle. now rewrite disconnect_spec. }
  split; [now rewrite disconnect_spec|].
  rewrite Eq. rewrite after_disconnect_fields at 1 2 3 4 5 6. fields.
  do 6 (split; [reflexivity|]).
  split; [intros t; exact (after_disconnect_timers o p t H)|].
  split.
  - intros ws Hws. rewrite after_disconnect_fields. unfold socket_state. fields.
    rewrite Hws. unfold closed_list.
    destruct (sockets p !! ws) as [s|] eqn:Es; cbn [fmap option_fmap option_map];
      [|rewrite Es; reflexivity].
    destruct (readyState s) eqn:Er; rewrite ?list_lookup_alter_eq, Es; cbn;
      rewrite ?Er; reflexivity.
  - intros ws.
    destruct (socket_closes_quiet o ws (after_disconnect p))
      as (E1 & E2 & E3 & _);
      try (rewrite after_disconnect_fields; reflexivity).
    rewrite E1, E2, E3. split; [reflexivity|]. split; [reflexivity|].
    rewrite after_disconnect_fields. reflexivity.
Qed.

(** X8. [disconnect] does not cancel the delayed connection of
    [reconnect].  [reconnect] sets a timeout of 100 ms for [connect] and
    keeps its identifier nowhere; a [disconnect] that follows at once
    leaves that timeout pending, and when it fires [connect] creates a
    socket and the hook is [connecting] again, although
    [shouldReconnectRef] is [false]. *)
Theorem reconnect_outlives_disconnect (defaultBase og : string) (o : Settings)
    (p : Page) :
  url_origin (wsBaseUrl defaultBase o) = Some og -> valid_ws_url og = true ->
  let r := settle disconnect (settle reconnect p) in
  let t := {| timer_id := next_timer p; repeating := false; delay := 100;
              due := (now (world p) + 100)%Z; callback := Connect |} in
  let r' := fire defaultBase o t r in
  shouldReconnectRef r = false /\ wsRef r = None /\ isConnected r = false
  /\ t ∈ timers r
  /\ List.length (sockets r') = S (List.length (sockets p))
  /\ wsRef r' = Some (List.length (sockets p))
  /\ socket_state (List.length (sockets p)) r' = Some CONNECTING
  /\ connectionState r' = connecting
  /\ shouldReconnectRef r' = false.
Proof.
  intros Ho Hv r t r'.
  assert (Er : r = after_disconnect
                     (with_timer t (set_reconnectAttemptsRef 0
                                      (set_shouldReconnectRef true (after_disconnect p))))).
  { subst r. unfold settle. rewrite reconnect_spec. cbn [snd]. cbv zeta.
    rewrite disconnect_spec. cbn [snd]. unfold new_timer. fields.
    rewrite (after_disconnect_fields p) at 1 2. fields. reflexivity. }
  assert (Hlen : List.length (sockets r) = List.length (sockets p)).
  { rewrite Er, after_disconnect_fields. unfold with_timer. fields.
    rewrite (after_disconnect_fields p). fields.
    destruct (wsRef p) as [ws|]; [|reflexivity].
    unfold closed_list. destruct (readyState <$> sockets p !! ws) as [[]|];
      rewrite ?length_alter; reflexivity. }
  assert (Hf : shouldReconnectRef r = false /\ wsRef r = None /\ isConnected r = false
               /\ t ∈ timers r).
  { rewrite Er, after_disconnect_fields. unfold with_timer. fields.
    rewrite (after_disconnect_fields p). fields. cbv zeta.
    repeat split. apply elem_of_app. right. now apply list_elem_of_singleton. }
  destruct Hf as (F1 & F2 & F3 & F4).
  do 4 (split; [assumption|]).
  subst r' t. unfold fire. cbv zeta. cbn [repeating callback run_callback].
  match goal with
  | |- context [settle (connect _ _) ?q] =>
      assert (Hopen : ws_is_open q = false)
        by (unfold ws_is_open, set_clock; fields; now rewrite F2);
      rewrite (HookFacts.connect_spec defaultBase og o q Hopen Ho Hv)
  end.
  unfold set_clock, socket_state. fields. rewrite length_app, Hlen. cbn [List.length].
  split; [lia|]. split; [reflexivity|]. split; [|split; [reflexivity | exact F1]].
  rewrite lookup_app_r by lia. rewrite Hlen, Nat.sub_diag. reflexivity.
Qed.

(** On the open page of the examples: after [reconnect] and [disconnect]
    the timeout is there, and when it fires there is a second socket. *)
Lemma reconnect_outlives_disconnect_witness :
  let r := settle disconnect (settle reconnect open_page) in
  let t := {| timer_id := 2; repeating := false; delay := 100;
              due := (now example_world + 100)%Z; callback := Connect |} in
  timers r = [t]
  /\ List.length (sockets (fire "ws://localhost:8000" (settings example_options) t r))
     = 2%nat.
Proof.
  destruct (reconnect_outlives_disconnect "ws://localhost:8000" "ws://localhost:8000"
              (settings example_options) open_page eq_refl eq_refl)
    as (_ & _ & _ & _ & H & _).
  cbv zeta. split; [reflexivity | exact H].
Defined.

(** X9. The close event of a socket the hook has replaced stalls the
    hook.  [onclose] does not look at which socket closed: when a socket
    other than the current one closes while the current one is open, the
    hook says it is not connected, in the state [disconnected], and its
    heartbeat timer is cleared, although the current socket stays open and
    stays the current one.  Whatever timers fire after that, the hook
    creates no socket ([connect] finds the current socket open and
    returns), sends no frame, stays not connected and has no heartbeat
    timer. *)
Theorem superseded_close_stalls_the_hook (defaultBase : string) (o : Settings)
    (w : World) (events : list Event) (ws ws' : nat) (st : ReadyState) :
  let p := history defaultBase o events (mounted defaultBase o w) in
  wsRef p = Some ws -> socket_state ws p = Some OPEN ->
  ws' <> ws -> socket_state ws' p = Some st -> st <> CLOSED ->
  let q := socket_closes o ws' p in
  isConnected q = false /\ connectionState q = disconnected
  /\ timers_of SendHeartbeat q = []
  /\ wsRef q = Some ws /\ socket_state ws q = Some OPEN
  /\ (forall ids : list nat,
        let q' := history defaultBase o (List.map TimerFires ids) q in
        sockets q' = sockets q /\ isConnected q' = false /\ wsRef q' = Some ws
        /\ timers_of SendHeartbeat q' = []).
Proof.
  intros p Hws Hst Hne Hst' Hcl q.
  assert (H : steady o q).
  { apply (react_steady defaultBase o (SocketCloses ws')).
    apply history_steady, mounted_steady. }
  assert (Eq : q = settle (onclose o) (update_socket ws' (with_state CLOSED) p)).
  { subst q. unfold socket_closes. rewrite Hst'. destruct st; try reflexivity.
    now destruct Hcl. }
  assert (F : isConnected q = false /\ connectionState q = disconnected
              /\ wsRef q = Some ws /\ sockets q = alter (with_state CLOSED) ws' (sockets p)).
  { rewrite Eq. unfold settle. rewrite onclose_spec. cbn [snd]. cbv zeta.
    unfold heartbeat_stopped, update_socket, with_timer. fields.
    destruct (shouldReconnectRef p && (reconnectAttemptsRef p <? max_attempts o)%Z);
      destruct (heartbeatTimeoutRef p); fields; repeat split; assumption. }
  destruct F as (F1 & F2 & F3 & F4).
  destruct (no_heartbeat_timers o q H F1) as [F5 F6].
  assert (F7 : readyState <$> sockets q !! ws = Some OPEN).
  { rewrite F4, list_lookup_alter_ne by exact Hne. exact Hst. }
  do 5 (split; [assumption|]).
  intros ids q'.
  assert (K : stalled ws (sockets q) q) by (constructor; auto).
  pose proof (timers_fire_stalled defaultBase o ws (sockets q) ids q K) as K'.
  fold q' in K'. pose proof (stalled_no_heartbeat _ _ _ K') as K6.
  destruct K' as [K1 K2 K3 K4 K5]. repeat split; assumption.
Qed.

(** The page of the examples after [reconnect], when the new socket has
    opened before the old one reports its close: the old socket's close
    leaves the hook not connected, with the new socket open and no
    heartbeat. *)
Lemma superseded_close_stalls_the_hook_witness :
  let p := history "ws://localhost:8000" (settings example_options)
             [SocketOpens 0; CallsReconnect; TimerFires 2; SocketOpens 1]
             (mounted "ws://localhost:8000" (settings example_options) example_world) in
  let q := socket_closes (settings example_options) 0 p in
  isConnected p = true /\ List.length (timers_of SendHeartbeat p) = 1%nat
  /\ isConnected q = false /\ timers_of SendHeartbeat q = []
  /\ socket_state 1 q = Some OPEN.
Proof.
  destruct (superseded_close_stalls_the_hook "ws://localhost:8000"
              (settings example_options) example_world
              [SocketOpens 0; CallsReconnect; TimerFires 2; SocketOpens 1]
              1%nat 0%nat CLOSING eq_refl eq_refl ltac:(discriminate) eq_refl
              ltac:(discriminate))
    as (H1 & _ & H3 & _ & H5 & _).
  cbv zeta. split; [reflexivity|]. split; [reflexivity|].
  split; [exact H1|]. split; [exact H3 | exact H5].
Defined.





Import Objects WorkflowUpdates.

(** X12. A status update is an upsert.  A valid message of type
    [workflow_status_update] whose [workflow_id] converts to a property
    key (as every string, number, boolean, [null] and [undefined] does)
    does not throw in useWorkflow: after it, the workflows map has, under
    that key, a record with the message's [workflow_id], [status],
    [current_step] and [progress] and the time of the update; every other
    field of the record that was there is kept, every other workflow is
    untouched, and so are the checkpoints and the error.  The current
    workflow takes the message's fields when the id the callback has seen
    is the message's, and is untouched otherwise. *)
Theorem status_update_is_an_upsert (d : Delivery) (data : JsVal) (key : string)
    (v : View) :
  validateMessage (message d) = Normal true ->
  get_own (message d) "type" = JStr "workflow_status_update" ->
  get_own (message d) "data" = data ->
  ToPropertyKey (get_own data "workflow_id") = Normal key ->
  exists v',
    receive d v = Normal v'
    /\ hitlCheckpoints v' = hitlCheckpoints v
    /\ error v' = error v
    /\ (forall other, other <> key -> workflows v' !! other = workflows v !! other)
    /\ (exists record,
          workflows v' !! key = Some (JObj record)
          /\ lookup "workflowId" record = Some (get_own data "workflow_id")
          /\ lookup "status" record = Some (get_own data "status")
          /\ lookup "currentStep" record = Some (get_own data "current_step")
          /\ lookup "progress" record = Some (get_own data "progress")
          /\ lookup "updatedAt" record = Some (JStr (toISOString (now (render d))))
          /\ forall name,
               name ∉ ["workflowId"; "status"; "currentStep"; "progress"; "updatedAt"] ->
               lookup name record
               = match workflows v !! key with
                 | Some old => lookup name (own_enumerable old)
                 | None => None
                 end)
    /\ (strict_equal (optional_get (seen d) "workflowId") (get_own data "workflow_id") = false ->
        currentWorkflow v' = currentWorkflow v)
    /\ (strict_equal (optional_get (seen d) "workflowId") (get_own data "workflow_id") = true ->
        if truthy (currentWorkflow v)
        then exists current,
               currentWorkflow v' = JObj current
               /\ lookup "status" current = Some (get_own data "status")
               /\ lookup "currentStep" current = Some (get_own data "current_step")
               /\ lookup "progress" current = Some (get_own data "progress")
               /\ lookup "updatedAt" current = Some (JStr (toISOString (now (render d))))
               /\ forall name,
                    name ∉ ["status"; "currentStep"; "progress"; "updatedAt"] ->
                    lookup name current = lookup name (own_enumerable (currentWorkflow v))
        else currentWorkflow v' = JNull).
Proof.
  intros Hv Ht <- Hk.
  eexists. split; [exact (WorkflowFacts.receive_status_update d key v Hv Ht Hk)|].
  cbn [workflows currentWorkflow hitlCheckpoints error].
  split; [reflexivity|]. split; [reflexivity|].
  split; [intros other Ho; now rewrite lookup_insert_ne|].
  split.
  - eexists. split; [apply lookup_insert_eq|].
    repeat split; try (rewrite ObjectsFacts.lookup_with_props; reflexivity).
    intros name Hn. rewrite ObjectsFacts.lookup_with_props.
    rewrite WorkflowFacts.spread_found_lookup.
    rewrite !not_elem_of_cons in Hn. destruct Hn as (H1 & H2 & H3 & H4 & H5 & _).
    cbn [rev app lookup].
    apply String.eqb_neq in H1, H2, H3, H4, H5. now rewrite H1, H2, H3, H4, H5.
  - split; intros ->; [reflexivity|].
    destruct (truthy (currentWorkflow v)); [|reflexivity].
    eexists. split; [reflexivity|].
    repeat split; try (rewrite ObjectsFacts.lookup_with_props; reflexivity).
    intros name Hn. rewrite ObjectsFacts.lookup_with_props.
    rewrite !not_elem_of_cons in Hn. destruct Hn as (H2 & H3 & H4 & H5 & _).
    cbn [rev app lookup].
    apply String.eqb_neq in H2, H3, H4, H5. now rewrite H2, H3, H4, H5.
Qed.

(** A status update for workflow [wf-7], a workflow the hook holds with
    its steps: the record takes the new status and keeps its steps. *)
Lemma status_update_is_an_upsert_witness :
  exists v' record,
    receive {| seen := JNull;
               message := JObj [("type", JStr "workflow_status_update");
                                ("data", JObj [("workflow_id", JStr "wf-7");
                                               ("status", JStr "paused");
                                               ("current_step", JStr "mesh_generation");
                                               ("progress", JNum 40)])];
               arrival := example_world; render := example_world |}
            {| workflows := {[ "wf-7" := JObj [("workflowId", JStr "wf-7");
                                               ("status", JStr "running");
                                               ("steps", JArr [])] ]};
               currentWorkflow := JNull; hitlCheckpoints := []; error := JNull |}
    = Normal v'
    /\ workflows v' !! "wf-7" = Some (JObj record)
    /\ lookup "status" record = Some (JStr "paused")
    /\ lookup "steps" record = Some (JArr []).
Proof.
  destruct (status_update_is_an_upsert
              {| seen := JNull;
                 message := JObj [("type", JStr "workflow_status_update");
                                  ("data", JObj [("workflow_id", JStr "wf-7");
                                                 ("status", JStr "paused");
                                                 ("current_step", JStr "mesh_generation");
                                                 ("progress", JNum 40)])];
                 arrival := example_world; render := example_world |}
              (JObj [("workflow_id", JStr "wf-7"); ("status", JStr "paused");
                     ("current_step", JStr "mesh_generation"); ("progress", JNum 40)])
              "wf-7"
              {| workflows := {[ "wf-7" := JObj [("workflowId", JStr "wf-7");
                                                 ("status", JStr "running");
                                                 ("steps", JArr [])] ]};
                 currentWorkflow := JNull; hitlCheckpoints := []; error := JNull |}
              eq_refl eq_refl eq_refl eq_refl)
    as (v' & H & _ & _ & _ & (record & Hr & _ & Hs & _ & _ & _ & Hk) & _).
  exists v', record. split; [exact H|]. split; [exact Hr|]. split; [exact Hs|].
  rewrite Hk.
  - cbn [workflows]. now rewrite lookup_singleton_eq.
  - rewrite !not_elem_of_cons. repeat split; try discriminate. apply not_elem_of_nil.
Defined.

(** X13. A completed step is marked in place.  For a workflow whose
    record holds an array of steps, the update queued by
    [handleWorkflowStepComplete] gives every step whose [name] is the
    message's [step_name] the status [completed] and the message's
    [result], keeping its other fields; the other steps, their number and
    their order, the other fields of the record and the other workflows
    are as they were, and the record takes the time of the update.  The
    message of a step the record does not list adds no step.  For a
    workflow the map does not hold, the map is returned as it is. *)
Theorem step_complete_marks_the_named_steps (workflow_id step_name result : JsVal)
    (key : string) (prev : gmap string JsVal) (w : World) :
  ToPropertyKey workflow_id = Normal key ->
  (find_in prev key = Absent ->
   handleWorkflowStepComplete_workflows workflow_id step_name result prev w
   = (Normal prev, w))
  /\ (forall (record : list (string * JsVal)) (steps : list JsVal),
        prev !! key = Some (JObj record) ->
        lookup "steps" record = Some (JArr steps) ->
        Forall (fun step => nullish step = false) steps ->
        exists record' steps',
          handleWorkflowStepComplete_workflows workflow_id step_name result prev w
          = (Normal (<[key := JObj record']> prev), w)
          /\ lookup "steps" record' = Some (JArr steps')
          /\ lookup "updatedAt" record' = Some (JStr (toISOString (now w)))
          /\ (forall name, name <> "steps" -> name <> "updatedAt" ->
                lookup name record' = lookup name record)
          /\ Forall2
               (fun step step' =>
                  if strict_equal (get_own step "name") step_name
                  then exists props,
                         step' = JObj props
                         /\ lookup "status" props = Some (JStr "completed")
                         /\ lookup "result" props = Some result
                         /\ forall name, name <> "status" -> name <> "result" ->
                              lookup name props = lookup name (own_enumerable step)
                  else step' = step)
               steps steps').
Proof.
  intros Hk. split.
  - intros Ha. unfold handleWorkflowStepComplete_workflows. WorkflowFacts.run.
    now rewrite Hk, Ha.
  - intros record steps Hp Hs Hsteps.
    unfold handleWorkflowStepComplete_workflows. WorkflowFacts.run.
    rewrite Hk. unfold find_in. rewrite Hp. cbn [truthy get_own]. rewrite Hs.
    cbn [call_map]. rewrite (WorkflowFacts.complete_steps_runs _ _ _ Hsteps).
    cbn [cbind own_enumerable].
    eexists _, _. split; [reflexivity|].
    split; [now rewrite ObjectsFacts.lookup_with_props|].
    split; [now rewrite ObjectsFacts.lookup_with_props|].
    split.
    + intros name H1 H2. rewrite ObjectsFacts.lookup_with_props. cbn [rev app lookup].
      apply String.eqb_neq in H1, H2. now rewrite H1, H2.
    + apply ObjectsFacts.Forall2_map_self. intros step.
      destruct (strict_equal (get_own step "name") step_name); [|reflexivity].
      eexists. split; [reflexivity|].
      split; [now rewrite ObjectsFacts.lookup_with_props|].
      split; [now rewrite ObjectsFacts.lookup_with_props|].
      intros name H1 H2. rewrite ObjectsFacts.lookup_with_props. cbn [rev app lookup].
      apply String.eqb_neq in H1, H2. now rewrite H1, H2.
Qed.

(** The mesh step of workflow [wf-7] completes: the record keeps its two
    steps and takes the time of the update. *)
Lemma step_complete_marks_the_named_steps_witness :
  exists record' steps',
    handleWorkflowStepComplete_workflows (JStr "wf-7") (JStr "mesh") (JNum 1)
      {[ "wf-7" := JObj [("workflowId", JStr "wf-7");
                         ("steps", JArr [JObj [("name", JStr "geometry");
                                               ("status", JStr "completed")];
                                         JObj [("name", JStr "mesh");
                                               ("status", JStr "running")]])] ]}
      example_world
    = (Normal (<["wf-7" := JObj record']>
                 {[ "wf-7" := JObj [("workflowId", JStr "wf-7");
                                    ("steps", JArr [JObj [("name", JStr "geometry");
                                                          ("status", JStr "completed")];
                                                    JObj [("name", JStr "mesh");
                                                          ("status", JStr "running")]])] ]}),
       example_world)
    /\ lookup "steps" record' = Some (JArr steps')
    /\ List.length steps' = 2%nat
    /\ lookup "updatedAt" record' = Some (JStr "2025-08-18T02:06:24.806Z").
Proof.
  destruct (proj2 (step_complete_marks_the_named_steps (JStr "wf-7") (JStr "mesh") (JNum 1)
                     "wf-7"
                     {[ "wf-7" := JObj [("workflowId", JStr "wf-7");
                                        ("steps", JArr [JObj [("name", JStr "geometry");
                                                              ("status", JStr "completed")];
                                                        JObj [("name", JStr "mesh");
                                                              ("status", JStr "running")]])] ]}
                     example_world eq_refl)
              [("workflowId", JStr "wf-7");
               ("steps", JArr [JObj [("name", JStr "geometry"); ("status", JStr "completed")];
                               JObj [("name", JStr "mesh"); ("status", JStr "running")]])]
              [JObj [("name", JStr "geometry"); ("status", JStr "completed")];
               JObj [("name", JStr "mesh"); ("status", JStr "running")]]
              (lookup_singleton_eq _ _) eq_refl
              ltac:(repeat constructor))
    as (record' & steps' & H & Hs & Hu & _ & HF).
  exists record', steps'. split; [exact H|]. split; [exact Hs|].
  split; [symmetry; exact (Forall2_length _ _ _ HF) | exact Hu].
Defined.

(** X14. A workflow first heard of through a message has no steps, and the
    message of a completed step then throws.  For a workflow the map does
    not hold, a valid [workflow_status_update] or [workflow_error] message
    creates a record without [steps]; a valid [workflow_step_complete]
    message for the same workflow, handled next, makes the update of the
    workflows map throw a TypeError, whatever step it names. *)
Theorem step_complete_after_status_update_throws (first second : Delivery)
    (key : string) (v : View) :
  validateMessage (message first) = Normal true ->
  validateMessage (message second) = Normal true ->
  get_own (message first) "type" = JStr "workflow_status_update"
  \/ get_own (message first) "type" = JStr "workflow_error" ->
  get_own (message second) "type" = JStr "workflow_step_complete" ->
  ToPropertyKey (get_own (get_own (message first) "data") "workflow_id") = Normal key ->
  ToPropertyKey (get_own (get_own (message second) "data") "workflow_id") = Normal key ->
  workflows v !! key = None ->
  (exists v' record,
     receive first v = Normal v'
     /\ workflows v' !! key = Some (JObj record)
     /\ lookup "steps" record = None)
  /\ receive_all [first; second] v = Throw TypeError.
Proof.
  intros Hv1 Hv2 Ht1 Ht2 Hk1 Hk2 Hnone.
  assert (H1 : exists v' record,
             receive first v = Normal v'
             /\ workflows v' !! key = Some (JObj record)
             /\ lookup "steps" record = None).
  { destruct Ht1 as [Ht1|Ht1].
    - eexists _, _. split; [exact (WorkflowFacts.receive_status_update first key v Hv1 Ht1 Hk1)|].
      cbn [workflows]. split; [apply lookup_insert_eq|].
      rewrite ObjectsFacts.lookup_with_props, WorkflowFacts.spread_found_lookup, Hnone.
      reflexivity.
    - eexists _, _. split; [exact (WorkflowFacts.receive_workflow_error first key v Hv1 Ht1 Hk1)|].
      cbn [workflows]. split; [apply lookup_insert_eq|].
      rewrite ObjectsFacts.lookup_with_props, WorkflowFacts.spread_found_lookup, Hnone.
      reflexivity. }
  split; [exact H1|].
  destruct H1 as (v' & record & Hr & Hp & Hs).
  cbn [receive_all]. rewrite Hr. cbn [cbind].
  now rewrite (WorkflowFacts.receive_step_complete_throws second key v' record Hv2 Ht2 Hk2 Hp Hs).
Qed.

(** The server reports workflow [wf-9] running, then its geometry step
    complete, to a hook that has not started it. *)
Lemma step_complete_after_status_update_throws_witness :
  receive_all
    [{| seen := JNull;
        message := JObj [("type", JStr "workflow_status_update");
                         ("data", JObj [("workflow_id", JStr "wf-9");
                                        ("status", JStr "running");
                                        ("current_step", JStr "geometry_processing");
                                        ("progress", JNum 10)])];
        arrival := example_world; render := example_world |};
     {| seen := JNull;
        message := JObj [("type", JStr "workflow_step_complete");
                         ("data", JObj [("workflow_id", JStr "wf-9");
                                        ("step_name", JStr "geometry_processing");
                                        ("result", JObj [])])];
        arrival := example_world; render := example_world |}]
    initial
  = Throw TypeError.
Proof.
  exact (proj2 (step_complete_after_status_update_throws
                  {| seen := JNull;
                     message := JObj [("type", JStr "workflow_status_update");
                                      ("data", JObj [("workflow_id", JStr "wf-9");
                                                     ("status", JStr "running");
                                                     ("current_step", JStr "geometry_processing");
                                                     ("progress", JNum 10)])];
                     arrival := example_world; render := example_world |}
                  {| seen := JNull;
                     message := JObj [("type", JStr "workflow_step_complete");
                                      ("data", JObj [("workflow_id", JStr "wf-9");
                                                     ("step_name", JStr "geometry_processing");
                                                     ("result", JObj [])])];
                     arrival := example_world; render := example_world |}
                  "wf-9" initial eq_refl eq_refl (or_introl eq_refl) eq_refl eq_refl eq_refl
                  (lookup_empty _))).
Defined.

(** X15. Messages only ever append checkpoints.  Whatever messages the
    hook handles, valid or not, if none of them throws, the checkpoints
    afterwards are those of before, unchanged and in place, followed by
    one checkpoint for each [hitl_checkpoint_created] message, in the
    order of arrival: pending, with the message's [checkpoint_id],
    [workflow_id] and [checkpoint_data], the time of arrival, and the type
    [quality_review] when the data names none. *)
Theorem messages_only_append_checkpoints (deliveries : list Delivery) (v v' : View) :
  receive_all deliveries v = Normal v' ->
  hitlCheckpoints v'
  = (hitlCheckpoints v
     ++ List.map
          (fun d =>
             let data := get_own (message d) "data" in
             JObj [("checkpointId", get_own data "checkpoint_id");
                   ("workflowId", get_own data "workflow_id");
                   ("checkpointType",
                    if truthy (get_own (get_own data "checkpoint_data") "checkpoint_type")
                    then get_own (get_own data "checkpoint_data") "checkpoint_type"
                    else JStr "quality_review");
                   ("status", JStr "pending");
                   ("checkpointData", get_own data "checkpoint_data");
                   ("createdAt", JStr (toISOString (now (arrival d))))])
          (List.filter
             (fun d => is_string (get_own (message d) "type") "hitl_checkpoint_created")
             deliveries))%list.
Proof.
  revert v. induction deliveries as [|d rest IH]; intros v; cbn [receive_all].
  - intros [= <-]. cbn. now rewrite app_nil_r.
  - destruct (receive d v) as [v1|e] eqn:E; cbn [cbind]; [|discriminate].
    intros H. rewrite (IH _ H), (WorkflowFacts.receive_checkpoints _ _ _ E).
    cbn [List.filter].
    destruct (is_string (get_own (message d) "type") "hitl_checkpoint_created").
    + cbn [List.map]. rewrite <- app_assoc. reflexivity.
    + now rewrite app_nil_r.
Qed.

(** A status update, then a checkpoint without a type: one checkpoint,
    of type [quality_review]. *)
Lemma messages_only_append_checkpoints_witness :
  exists v',
    receive_all
      [{| seen := JNull;
          message := JObj [("type", JStr "workflow_status_update");
                           ("data", JObj [("workflow_id", JStr "wf-9");
                                          ("status", JStr "running")])];
          arrival := example_world; render := example_world |};
       {| seen := JNull;
          message := JObj [("type", JStr "hitl_checkpoint_created");
                           ("data", JObj [("workflow_id", JStr "wf-9");
                                          ("checkpoint_id", JStr "cp-1");
                                          ("checkpoint_data", JObj [("mesh", JStr "coarse")])])];
          arrival := example_world; render := example_world |}]
      initial
    = Normal v'
    /\ hitlCheckpoints v'
       = [JObj [("checkpointId", JStr "cp-1"); ("workflowId", JStr "wf-9");
                ("checkpointType", JStr "quality_review"); ("status", JStr "pending");
                ("checkpointData", JObj [("mesh", JStr "coarse")]);
                ("createdAt", JStr "2025-08-18T02:06:24.806Z")]].
Proof.
  destruct (receive_all _ initial) as [v'|e] eqn:E.
  - exists v'. split; [reflexivity|].
    rewrite (messages_only_append_checkpoints _ _ _ E). reflexivity.
  - vm_compute in E. discriminate E.
Defined.

(** X16. A response completes the checkpoints of its id, and only those.
    On checkpoints as the messages build them (objects), the update
    queued by [respondToHITL] does not throw; it keeps the number and the
    order of the checkpoints, gives the status [completed] to every
    checkpoint whose [checkpointId] is the given text, keeping its other
    fields, and leaves the others as they are: one whose id is another,
    or not a string, is never completed.  The result consists of objects
    again, and the same response applied to it changes nothing more. *)
Theorem response_completes_its_checkpoints (checkpointId : string) (prev : list JsVal) :
  Forall (fun checkpoint => exists props, checkpoint = JObj props) prev ->
  exists next,
    respondToHITL_checkpoints checkpointId prev = Normal next
    /\ Forall (fun checkpoint => exists props, checkpoint = JObj props) next
    /\ Forall2
         (fun checkpoint checkpoint' =>
            if is_string (get_own checkpoint "checkpointId") checkpointId
            then exists props,
                   checkpoint' = JObj props
                   /\ lookup "status" props = Some (JStr "completed")
                   /\ forall name, name <> "status" ->
                        lookup name props = lookup name (own_enumerable checkpoint)
            else checkpoint' = checkpoint)
         prev next
    /\ respondToHITL_checkpoints checkpointId next = Normal next.
Proof.
  intros H.
  assert (Hn : forall l, Forall (fun c => exists props, c = JObj props) l ->
               Forall (fun c => nullish c = false) l).
  { intros l Hl. eapply Forall_impl; [exact Hl|]. now intros c [props ->]. }
  assert (Ho : Forall (fun c => exists props, c = JObj props)
                 (List.map (fun c =>
                              if is_string (get_own c "checkpointId") checkpointId
                              then JObj (with_props (own_enumerable c)
                                           [("status", JStr "completed")])
                              else c) prev)).
  { induction H as [|c rest Hc _ IH]; cbn [List.map]; constructor; [|exact IH].
    destruct (is_string _ _); [eexists; reflexivity | exact Hc]. }
  eexists. split; [exact (WorkflowFacts.respondToHITL_checkpoints_runs _ _ (Hn _ H))|].
  split; [exact Ho|]. split.
  - apply ObjectsFacts.Forall2_map_self. intros c.
    destruct (is_string (get_own c "checkpointId") checkpointId); [|reflexivity].
    eexists. split; [reflexivity|].
    split; [now rewrite ObjectsFacts.lookup_with_props|].
    intros name H1. rewrite ObjectsFacts.lookup_with_props. cbn [rev app lookup].
    apply String.eqb_neq in H1. now rewrite H1.
  - rewrite (WorkflowFacts.respondToHITL_checkpoints_runs _ _ (Hn _ Ho)). f_equal.
    clear Ho. induction H as [|c rest [props ->] _ IH]; cbn [List.map]; [reflexivity|].
    rewrite IH. f_equal.
    destruct (is_string (get_own (JObj props) "checkpointId") checkpointId) eqn:E.
    + assert (E' : is_string (get_own (JObj (with_props (own_enumerable (JObj props))
                                               [("status", JStr "completed")]))
                                "checkpointId") checkpointId = true).
      { cbn [get_own own_enumerable] in *.
        rewrite ObjectsFacts.lookup_with_props. exact E. }
      rewrite E'. cbn [own_enumerable with_props fold_left fst snd].
      now rewrite ObjectsFacts.set_prop_idem.
    + now rewrite E.
Qed.

(** Two pending checkpoints, and the response to the first. *)
Lemma response_completes_its_checkpoints_witness :
  respondToHITL_checkpoints "cp-1"
    [JObj [("checkpointId", JStr "cp-1"); ("status", JStr "pending")];
     JObj [("checkpointId", JStr "cp-2"); ("status", JStr "pending")]]
  = Normal [JObj [("checkpointId", JStr "cp-1"); ("status", JStr "completed")];
            JObj [("checkpointId", JStr "cp-2"); ("status", JStr "pending")]].
Proof.
  destruct (response_completes_its_checkpoints "cp-1"
              [JObj [("checkpointId", JStr "cp-1"); ("status", JStr "pending")];
               JObj [("checkpointId", JStr "cp-2"); ("status", JStr "pending")]]
              ltac:(repeat constructor; eexists; reflexivity))
    as (next & H & _).
  rewrite H. vm_compute in H. exact (eq_sym H).
Defined.

(** X17. Messages never add, remove or rename a step.  If the map holds
    a record with an array of steps (objects), then after any messages
    that do not throw it still holds a record under that key, with as
    many steps, in the same order and of the same names: a step can only
    be marked completed.  In particular a workflow that has no steps, as
    after [startWorkflow], gets none from messages. *)
Theorem messages_keep_the_steps (deliveries : list Delivery) (v v' : View)
    (key : string) (record : list (string * JsVal)) (steps : list JsVal) :
  receive_all deliveries v = Normal v' ->
  workflows v !! key = Some (JObj record) ->
  lookup "steps" record = Some (JArr steps) ->
  Forall (fun step => exists props, step = JObj props) steps ->
  exists record' steps',
    workflows v' !! key = Some (JObj record')
    /\ lookup "steps" record' = Some (JArr steps')
    /\ List.length steps' = List.length steps
    /\ Forall2 same_step steps steps'.
Proof.
  intros H Hp Hs Ho.
  destruct (StepsFacts.receive_all_holds_steps deliveries v v' key steps H)
    as (record' & steps' & Hp' & Hs' & HF).
  - exists record, steps. split; [exact Hp|]. split; [exact Hs|].
    clear Hs. induction Ho as [|s rest [props ->] _ IH]; constructor; [|exact IH].
    exists props, props. repeat split.
  - exists record', steps'. split; [exact Hp'|]. split; [exact Hs'|].
    split; [symmetry; exact (Forall2_length _ _ _ HF) | exact HF].
Qed.

(** Workflow [wf-7] with its two steps, a status update and the
    completion of a step it does not list: two steps still. *)
Lemma messages_keep_the_steps_witness :
  exists v' record' steps',
    receive_all
      [{| seen := JNull;
          message := JObj [("type", JStr "workflow_status_update");
                           ("data", JObj [("workflow_id", JStr "wf-7");
                                          ("status", JStr "running")])];
          arrival := example_world; render := example_world |};
       {| seen := JNull;
          message := JObj [("type", JStr "workflow_step_complete");
                           ("data", JObj [("workflow_id", JStr "wf-7");
                                          ("step_name", JStr "physics");
                                          ("result", JNull)])];
          arrival := example_world; render := example_world |}]
      {| workflows := {[ "wf-7" := JObj [("steps",
                                          JArr [JObj [("name", JStr "geometry")];
                                                JObj [("name", JStr "mesh")]])] ]};
         currentWorkflow := JNull; hitlCheckpoints := []; error := JNull |}
    = Normal v'
    /\ workflows v' !! "wf-7" = Some (JObj record')
    /\ lookup "steps" record' = Some (JArr steps')
    /\ List.length steps' = 2%nat.
Proof.
  destruct (receive_all _ _) as [v'|e] eqn:E.
  - destruct (messages_keep_the_steps _ _ _ "wf-7"
                [("steps", JArr [JObj [("name", JStr "geometry")];
                                 JObj [("name", JStr "mesh")]])]
                [JObj [("name", JStr "geometry")]; JObj [("name", JStr "mesh")]]
                E (lookup_singleton_eq _ _) eq_refl
                ltac:(repeat constructor; eexists; reflexivity))
      as (record' & steps' & H1 & H2 & H3 & _).
    exists v', record', steps'. repeat split; assumption.
  - vm_compute in E. discriminate E.
Defined.

Import SimulationState.

(** X18. [updateSimulationState] merges and stamps.  The update it queues
    never throws, whatever the updates and the previous state are
    ([undefined] included): its result is an object in which
    [lastUpdated] is the time of the update, even when the updates name a
    [lastUpdated] of their own; every other property the updates have
    takes their value; every other property of the previous state is kept;
    and nothing else is there. *)
Theorem updateSimulationState_merges_and_stamps (updates prevState : JsVal) (w : World) :
  NoDup (List.map fst (own_enumerable updates)) ->
  exists next,
    updateSimulationState updates prevState w = (Normal (JObj next), w)
    /\ lookup "lastUpdated" next = Some (JStr (toISOString (now w)))
    /\ (forall name, name <> "lastUpdated" ->
          lookup name next
          = match lookup name (own_enumerable updates) with
            | Some x => Some x
            | None => lookup name (own_enumerable prevState)
            end)
    /\ (NoDup (List.map fst (own_enumerable prevState)) -> NoDup (List.map fst next)).
Proof.
  intros Hu. eexists. split; [reflexivity|].
  split; [now rewrite ObjectsFacts.lookup_with_props|].
  split.
  - intros name Hn. rewrite ObjectsFacts.lookup_with_props. cbn [rev app lookup].
    apply String.eqb_neq in Hn. rewrite Hn.
    rewrite ObjectsFacts.lookup_with_props. now rewrite (ObjectsFacts.lookup_rev _ _ Hu).
  - intros Hp. now do 2 apply ObjectsFacts.NoDup_with_props.
Qed.

(** The state of a new project, and the progress of a step. *)
Lemma updateSimulationState_merges_and_stamps_witness :
  exists next,
    updateSimulationState (JObj [("progress", JNum 25); ("lastUpdated", JStr "never")])
      (initialState "p-1") example_world
    = (Normal (JObj next), example_world)
    /\ lookup "lastUpdated" next = Some (JStr "2025-08-18T02:06:24.806Z")
    /\ lookup "progress" next = Some (JNum 25)
    /\ lookup "maxIterations" next = Some (JNum 3).
Proof.
  destruct (updateSimulationState_merges_and_stamps
              (JObj [("progress", JNum 25); ("lastUpdated", JStr "never")])
              (initialState "p-1") example_world)
    as (next & H & Hs & Hk & _).
  - cbn. rewrite !NoDup_cons, !not_elem_of_cons.
    repeat split; try discriminate; try apply not_elem_of_nil. apply NoDup_nil_2.
  - exists next. split; [exact H|]. split; [exact Hs|].
    split; rewrite Hk; try discriminate; reflexivity.
Defined.

(** X19. [addError] forgets the errors it has not seen rendered.  The
    update [addError] queues sets [errors] to the errors of the state of
    the render it was called in, followed by the new one, whatever errors
    the state holds when the update is run.  So of two calls in one
    render, the second drops the error of the first: afterwards [errors]
    is the rendered list followed by the second error only. *)
Theorem addError_forgets_unrendered_errors (state : JsVal) (rendered : list JsVal)
    (step error step' error' : string) (w w' : World) :
  get_own state "errors" = JArr rendered ->
  exists first second,
    addError state step error w = (Normal first, w)
    /\ addError state step' error' w' = (Normal second, w')
    /\ (forall (prevState : JsVal) (r : World),
          exists next,
            first prevState r = (Normal next, r)
            /\ get_own next "errors"
               = JArr (rendered
                       ++ [JObj [("step", JStr step); ("error", JStr error);
                                 ("timestamp", JStr (toISOString (now w)))]]))
    /\ (forall (prevState : JsVal) (r r' : World),
          exists next next',
            first prevState r = (Normal next, r)
            /\ second next r' = (Normal next', r')
            /\ get_own next' "errors"
               = JArr (rendered
                       ++ [JObj [("step", JStr step'); ("error", JStr error');
                                 ("timestamp", JStr (toISOString (now w')))]])).
Proof.
  intros He.
  assert (Hs : nullish state = false) by (destruct state; try reflexivity; discriminate He).
  assert (Hadd : forall s e x,
             addError state s e x
             = (Normal (updateSimulationState
                          (JObj [("errors",
                                  JArr (rendered
                                        ++ [JObj [("step", JStr s); ("error", JStr e);
                                                  ("timestamp", JStr (toISOString (now x)))]]))])),
                x)).
  { intros s e x. unfold addError. WorkflowFacts.run.
    rewrite ObjectsFacts.get_nullish, Hs, He. reflexivity. }
  assert (Hrun : forall u prevState r,
             exists next,
               updateSimulationState (JObj [("errors", u)]) prevState r = (Normal next, r)
               /\ get_own next "errors" = u).
  { intros u prevState r. eexists. split; [reflexivity|].
    cbn [get_own]. rewrite ObjectsFacts.lookup_with_props. cbn [rev app lookup String.eqb Ascii.eqb Bool.eqb].
    rewrite ObjectsFacts.lookup_with_props. reflexivity. }
  eexists _, _. split; [apply Hadd|]. split; [apply Hadd|]. split.
  - intros prevState r. apply Hrun.
  - intros prevState r r'.
    destruct (Hrun (JArr (rendered
                          ++ [JObj [("step", JStr step); ("error", JStr error);
                                    ("timestamp", JStr (toISOString (now w)))]]))
                prevState r) as (next & H1 & _).
    destruct (Hrun (JArr (rendered
                          ++ [JObj [("step", JStr step'); ("error", JStr error');
                                    ("timestamp", JStr (toISOString (now w')))]]))
                next r') as (next' & H2 & H3).
    exists next, next'. split; [exact H1|]. split; [exact H2 | exact H3].
Qed.

(** Two errors reported in the first render of a project: one is left. *)
Lemma addError_forgets_unrendered_errors_witness :
  exists first second next next',
    addError (initialState "p-1") "geometry" "bad file" example_world
    = (Normal first, example_world)
    /\ addError (initialState "p-1") "mesh" "low quality" example_world
       = (Normal second, example_world)
    /\ first (initialState "p-1") example_world = (Normal next, example_world)
    /\ second next example_world = (Normal next', example_world)
    /\ get_own next' "errors"
       = JArr [JObj [("step", JStr "mesh"); ("error", JStr "low quality");
                     ("timestamp", JStr "2025-08-18T02:06:24.806Z")]].
Proof.
  destruct (addError_forgets_unrendered_errors (initialState "p-1") []
              "geometry" "bad file" "mesh" "low quality" example_world example_world eq_refl)
    as (first & second & H1 & H2 & _ & H).
  destruct (H (initialState "p-1") example_world example_world)
    as (next & next' & H3 & H4 & H5).
  exists first, second, next, next'. repeat split; assumption.
Defined.
